(** * bvp-model: the lineup-slot projector and the composite matchup scorer

    A shallow embedding of the scoring engine of the repository (the
    normalisation helpers, the head-to-head calibration grid, the
    lineup-slot projector, the per-hitter scorer inside [analyzeProbable]
    and the list assembly of [main]), with the properties of its
    specification stated and settled against it.

    What the program fetches over the network is an input of the model: the
    boxscore lines of a hitter are a list of [Observation], the statistics
    the scoring closure reads for one hitter are a [SignalBundle].  Objects
    are lists of entries in the order JavaScript enumerates their keys, and
    the pure functions of the source keep their names. *)

From Stdlib Require Import Reals Lra Lia ZArith List Bool String Ascii Psatz.
From Stdlib Require Import Sorted Permutation.
Import ListNotations.

Open Scope R_scope.

(** ** JavaScript numbers

    A JavaScript number is an IEEE-754 double.  The model keeps the special
    values the program tests for ([NaN] and the two infinities) and stands
    each finite double for the real number it denotes: arithmetic between
    finite values is exact, so the rounding error of a single operation, the
    overflow of a finite result to an infinity and the sign of zero are
    outside the model.  [null] and [undefined] are the
    [None] of [value]. *)

Inductive num : Type :=
  | Fin (x : R)
  | PInf
  | NInf
  | NaN.

Coercion Fin : R >-> num.

Definition value : Type := option num.

Declare Scope num_scope.
Delimit Scope num_scope with num.
Bind Scope num_scope with num.

Definition rle (a b : R) : bool := if Rle_dec a b then true else false.
Definition rlt (a b : R) : bool := if Rlt_dec a b then true else false.
Definition req (a b : R) : bool := if Req_dec_T a b then true else false.

(** [a <= b], [a < b] and [a === b] on numbers; every comparison with [NaN]
    is false. *)
Definition nle (a b : num) : bool :=
  match a, b with
  | NaN, _ | _, NaN => false
  | Fin x, Fin y => rle x y
  | NInf, _ => true
  | _, PInf => true
  | _, _ => false
  end.

Definition nlt (a b : num) : bool :=
  match a, b with
  | NaN, _ | _, NaN => false
  | Fin x, Fin y => rlt x y
  | NInf, NInf => false
  | PInf, _ => false
  | NInf, _ => true
  | Fin _, PInf => true
  | Fin _, NInf => false
  end.

Definition nge (a b : num) : bool := nle b a.
Definition ngt (a b : num) : bool := nlt b a.

Definition neq (a b : num) : bool :=
  match a, b with
  | Fin x, Fin y => req x y
  | PInf, PInf => true
  | NInf, NInf => true
  | _, _ => false
  end.

Definition nopp (a : num) : num :=
  match a with
  | Fin x => Fin (- x)
  | PInf => NInf
  | NInf => PInf
  | NaN => NaN
  end.

Definition nadd (a b : num) : num :=
  match a, b with
  | NaN, _ | _, NaN => NaN
  | Fin x, Fin y => Fin (x + y)
  | PInf, NInf | NInf, PInf => NaN
  | PInf, _ | _, PInf => PInf
  | NInf, _ | _, NInf => NInf
  end.

Definition nsub (a b : num) : num := nadd a (nopp b).

(** An infinity scaled by a finite factor: the sign follows the factor, and
    a zero factor gives [NaN]. *)
Definition scale_inf (pos : bool) (x : R) : num :=
  if Rlt_dec 0 x then (if pos then PInf else NInf)
  else if Rlt_dec x 0 then (if pos then NInf else PInf)
  else NaN.

Definition nmul (a b : num) : num :=
  match a, b with
  | NaN, _ | _, NaN => NaN
  | Fin x, Fin y => Fin (x * y)
  | PInf, Fin y | Fin y, PInf => scale_inf true y
  | NInf, Fin y | Fin y, NInf => scale_inf false y
  | PInf, PInf | NInf, NInf => PInf
  | PInf, NInf | NInf, PInf => NInf
  end.

Definition ndiv (a b : num) : num :=
  match a, b with
  | NaN, _ | _, NaN => NaN
  | Fin x, Fin y =>
      if Req_dec_T y 0 then scale_inf true x else Fin (x / y)
  | Fin _, (PInf | NInf) => Fin 0
  | PInf, Fin y => if Rlt_dec y 0 then NInf else PInf
  | NInf, Fin y => if Rlt_dec y 0 then PInf else NInf
  | (PInf | NInf), (PInf | NInf) => NaN
  end.

(** [Math.max] and [Math.min]: [NaN] as soon as an argument is [NaN]. *)
Definition nmax (a b : num) : num :=
  match a, b with
  | NaN, _ | _, NaN => NaN
  | _, _ => if nle a b then b else a
  end.

Definition nmin (a b : num) : num :=
  match a, b with
  | NaN, _ | _, NaN => NaN
  | _, _ => if nle a b then a else b
  end.

(** [Math.sqrt]. *)
Definition nsqrt (a : num) : num :=
  match a with
  | Fin x => if Rlt_dec x 0 then NaN else Fin (sqrt x)
  | PInf => PInf
  | NInf | NaN => NaN
  end.

(** [Math.round]: the nearest integer, halves going up. *)
Definition round_half_up (x : R) : Z := Zfloor (x + 1 / 2).

Definition nround (a : num) : num :=
  match a with
  | Fin x => Fin (IZR (round_half_up x))
  | _ => a
  end.

(** [Number.isFinite]: false on [null], [undefined], [NaN] and infinities. *)
Definition isFiniteN (a : num) : bool :=
  match a with Fin _ => true | _ => false end.

Definition isFinite (v : value) : bool :=
  match v with Some a => isFiniteN a | None => false end.

Notation "x + y" := (nadd x y) : num_scope.
Notation "x - y" := (nsub x y) : num_scope.
Notation "x * y" := (nmul x y) : num_scope.
Notation "x / y" := (ndiv x y) : num_scope.

(** A number read where the program has already excluded [null]: the
    coercion of [null] to a number is 0. *)
Definition toNumber (v : value) : num :=
  match v with Some a => a | None => 0 end.

(** ** Scoring helpers *)

Definition OPS_BASELINE : num := 0.72.

Definition clamp (n lo hi : num) : num := nmin hi (nmax lo n).

Definition normOPS (ops : value) : num :=
  match ops with
  | None => 0.5
  | Some ops => clamp ((ops - 0.40) / (1.050 - 0.40)) 0 1
  end.

Definition normH9 (h9 : value) : num :=
  if negb (isFinite h9) then 0.5
  else clamp ((toNumber h9 - 6.0) / (12.0 - 6.0)) 0 1.

Definition normPA (pa : value) : num :=
  if negb (isFinite pa) then 0.5
  else clamp ((toNumber pa - 3.8) / (4.8 - 3.8)) 0 1.

Definition WTB_PA_MIN : num := 150.
Definition WTB_PA_MAX : num := 500.
Definition WTB_PA_FLOOR : num := 0.65.

Definition wtbPAConfidence (pa : value) : num :=
  if negb (isFinite pa) then WTB_PA_FLOOR
  else
    let x := clamp ((toNumber pa - WTB_PA_MIN) / (WTB_PA_MAX - WTB_PA_MIN)) 0 1 in
    let eased := nsqrt x in
    WTB_PA_FLOOR + (1 - WTB_PA_FLOOR) * eased.

Definition normWTB (w : value) : num :=
  if negb (isFinite w) then 0.5
  else
    let w := toNumber w in
    let floor : num := 0.190 in
    let base : num := 0.223 in
    let elite : num := 0.272 in
    if nle w floor then 0
    else if nge w elite then 1
    else if neq w base then 0.5
    else if ngt w base then 0.5 + 0.5 * ((w - base) / (elite - base))
    else 0.5 * ((w - floor) / (base - floor)).

(** ** The head-to-head calibration grid *)

(** Columns: the OPS bin edges.  Rows: at-bats 1 to 25, points out of 30. *)
Definition H2H_OPS_BINS : list R :=
  [0.2; 0.4; 0.6; 0.7; 0.8; 0.85; 0.9; 0.95; 1.0; 1.2; 1.4; 2.0].

Definition H2H_GRID_POINTS : list (list Z) :=
  [ [14; 14; 14; 14; 14; 16; 16; 16; 16; 17; 17; 19];
    [10; 11; 13; 13; 14; 16; 16; 17; 17; 18; 24; 29];
    [10; 11; 12; 12; 14; 16; 19; 19; 19; 20; 24; 29];
    [6; 7; 11; 11; 14; 17; 20; 19; 20; 22; 28; 30];
    [5; 7; 10; 11; 14; 17; 20; 20; 23; 25; 28; 30];
    [5; 7; 8; 11; 14; 17; 20; 20; 24; 26; 29; 30];
    [5; 7; 7; 10; 14; 17; 20; 22; 25; 26; 29; 30];
    [4; 6; 7; 10; 14; 18; 20; 22; 25; 28; 29; 30];
    [4; 6; 7; 10; 14; 18; 20; 22; 25; 28; 29; 30];
    [4; 5; 7; 10; 14; 18; 20; 22; 26; 28; 29; 30];
    [2; 4; 7; 10; 14; 18; 20; 22; 26; 28; 29; 30];
    [2; 4; 7; 8; 14; 19; 20; 22; 28; 28; 29; 30];
    [2; 4; 7; 8; 14; 19; 22; 23; 28; 29; 29; 30];
    [2; 2; 7; 8; 14; 19; 22; 23; 28; 29; 30; 30];
    [2; 2; 6; 8; 14; 19; 22; 23; 28; 29; 30; 30];
    [2; 2; 6; 7; 14; 20; 23; 23; 29; 29; 30; 30];
    [2; 2; 6; 7; 14; 20; 23; 24; 29; 29; 30; 30];
    [2; 2; 5; 7; 14; 20; 23; 24; 29; 30; 30; 30];
    [2; 2; 5; 7; 14; 22; 23; 25; 29; 30; 30; 30];
    [1; 1; 5; 7; 14; 22; 24; 25; 29; 30; 30; 30];
    [1; 1; 4; 6; 14; 22; 24; 26; 30; 30; 30; 30];
    [1; 1; 4; 6; 14; 22; 24; 26; 30; 30; 30; 30];
    [1; 1; 4; 6; 14; 22; 25; 26; 30; 30; 30; 30];
    [1; 1; 4; 6; 14; 22; 25; 28; 30; 30; 30; 30];
    [1; 1; 4; 6; 14; 22; 25; 28; 30; 30; 30; 30] ]%Z.

(** Reading an array: an index past the end gives [undefined], which
    arithmetic turns into [NaN]. *)
Definition binAt (k : nat) : num :=
  match nth_error H2H_OPS_BINS k with Some b => Fin b | None => NaN end.

Definition cell (row : list Z) (k : nat) : num :=
  match nth_error row k with Some z => Fin (IZR z) | None => NaN end.

(** The array index a number denotes, when it is a non-negative integer. *)
Definition indexOf (a : num) : option nat :=
  match a with
  | Fin x =>
      if Req_dec_T x (IZR (Zfloor x)) then
        if (0 <=? Zfloor x)%Z then Some (Z.to_nat (Zfloor x)) else None
      else None
  | _ => None
  end.

Definition gridRow (r : num) : list Z :=
  match indexOf r with
  | Some n => nth n H2H_GRID_POINTS []
  | None => []
  end.

(** The search loop of [h2hWeightFromGrid]: the first [k] whose bin holds
    [x]; the initial 0 when no bin does. *)
Fixpoint findBin (x : num) (k fuel : nat) : nat :=
  match fuel with
  | O => O
  | S fuel' =>
      if nge x (binAt k) && nle x (binAt (k + 1)) then k
      else findBin x (S k) fuel'
  end.

Definition h2hWeightFromGrid (ab ops : value) : num :=
  let ab : num := if negb (isFinite ab) then 0 else toNumber ab in
  let ops : num := if negb (isFinite ops) then OPS_BASELINE else toNumber ops in
  let abClamped := clamp (nround ab) 1 25 in
  let r0 := (abClamped - 1)%num in
  let r1 := r0 in
  let t : num := 0 in
  let nbins := List.length H2H_OPS_BINS in
  let opsClamped := clamp ops (binAt 0) (binAt (nbins - 1)) in
  let i := findBin opsClamped 0 (nbins - 1) in
  let lo := binAt i in
  let hi := binAt (Nat.min (i + 1) (nbins - 1)) in
  let u := (if ngt hi lo then (opsClamped - lo) / (hi - lo) else 0)%num in
  let row0 := gridRow r0 in
  let row1 := gridRow r1 in
  let v0 := (cell row0 i
             + u * (cell row0 (Nat.min (i + 1) (List.length row0 - 1)) - cell row0 i))%num in
  let v1 := (cell row1 i
             + u * (cell row1 (Nat.min (i + 1) (List.length row1 - 1)) - cell row1 i))%num in
  let points := (v0 + t * (v1 - v0))%num in
  clamp (points / 100) 0 0.30.

(** ** The lineup-slot projector *)

(** One boxscore line of a hitter: the decoded batting-order slot (0 when
    [battingOrderSlot] gave [null]), whether the position code is ["P"], and
    the official date of the game. *)
Record Observation : Type := {
  obsSlot : nat;
  obsIsPitcher : bool;
  obsGameDate : string
}.

(** The [counts] object.  Its keys are slot numbers, and a JavaScript object
    enumerates integer keys in ascending numeric order whatever the order
    they were added in: the entries are kept sorted by slot. *)
Definition Counts : Type := list (nat * Z).

Fixpoint countOf (c : Counts) (slot : nat) : option Z :=
  match c with
  | [] => None
  | (k, n) :: rest => if Nat.eqb k slot then Some n else countOf rest slot
  end.

Fixpoint setCount (c : Counts) (slot : nat) (n : Z) : Counts :=
  match c with
  | [] => [(slot, n)]
  | (k, m) :: rest =>
      if Nat.eqb slot k then (k, n) :: rest
      else if Nat.ltb slot k then (slot, n) :: c
      else (k, m) :: setCount rest slot n
  end.

Record Entry : Type := {
  counts : Counts;
  latestSlot : option nat;
  latestGameDate : option string
}.

Definition emptyEntry : Entry :=
  {| counts := []; latestSlot := None; latestGameDate := None |}.

(** [!entry.latestGameDate]: [null] and the empty string are falsy. *)
Definition noDate (d : option string) : bool :=
  match d with
  | None => true
  | Some s => String.eqb s EmptyString
  end.

(** [gameDate >= entry.latestGameDate] on strings. *)
Definition dateGe (d : string) (latest : option string) : bool :=
  match latest with
  | None => false
  | Some l => String.leb l d
  end.

(** The body of the boxscore loop for one hitter: lines without a slot and
    lines of a pitcher are skipped. *)
Definition recordSlot (e : option Entry) (o : Observation) : option Entry :=
  let bo := obsSlot o in
  if Nat.eqb bo 0 || obsIsPitcher o then e
  else
    let entry := match e with Some entry => entry | None => emptyEntry end in
    let n := match countOf (counts entry) bo with Some n => n | None => 0%Z end in
    let counts' := setCount (counts entry) bo (n + 1)%Z in
    if noDate (latestGameDate entry) || dateGe (obsGameDate o) (latestGameDate entry)
    then Some {| counts := counts';
                 latestSlot := Some bo;
                 latestGameDate := Some (obsGameDate o) |}
    else Some {| counts := counts';
                 latestSlot := latestSlot entry;
                 latestGameDate := latestGameDate entry |}.

Definition buildEntry (obs : list Observation) : option Entry :=
  fold_left recordSlot obs None.

Definition slotIs (slot : nat) (latest : option nat) : bool :=
  match latest with Some l => Nat.eqb slot l | None => false end.

Definition chooseStep (latest : option nat) (best : option nat * Z)
    (kv : nat * Z) : option nat * Z :=
  let '(bestSlot, bestCount) := best in
  let '(slot, count) := kv in
  if (bestCount <? count)%Z then (Some slot, count)
  else if (count =? bestCount)%Z && slotIs slot latest then (Some slot, bestCount)
  else (bestSlot, bestCount).

Definition chooseProjectedOrder (c : Counts) (latest : option nat) : option nat :=
  fst (fold_left (chooseStep latest) c (None, (-1)%Z)).

(** The projection of one hitter from its boxscore lines, as
    [analyzeProbable] builds it for the hitters it keeps: [null] when the
    hitter has no recorded slot. *)
Definition projectSlot (obs : list Observation) : option nat :=
  match buildEntry obs with
  | Some entry => chooseProjectedOrder (counts entry) (latestSlot entry)
  | None => None
  end.

(** ** Arrays *)

(** [Array.prototype.sort] with a comparator.  The sort is stable, and for a
    comparator that orders the elements consistently its result is the one
    stable arrangement in which no element is followed by one the
    comparator puts before it; insertion from the right builds it.
    [cmp a b > 0] means that [a] goes after [b]. *)
Fixpoint insertSorted {A : Type} (cmp : A -> A -> num) (x : A) (l : list A)
    : list A :=
  match l with
  | [] => [x]
  | y :: rest =>
      if ngt (cmp x y) 0 then y :: insertSorted cmp x rest else x :: l
  end.

Definition jsSort {A : Type} (cmp : A -> A -> num) (l : list A) : list A :=
  fold_right (insertSorted cmp) [] l.

(** [arr[n] = f(arr[n])]. *)
Fixpoint updateAt {A : Type} (l : list A) (n : nat) (f : A -> A) : list A :=
  match l, n with
  | [], _ => []
  | x :: rest, O => f x :: rest
  | x :: rest, S n' => x :: updateAt rest n' f
  end.

(** [values.reduce((a, b) => a + (Number.isFinite(b) ? b : 0), 0)]. *)
Definition sumFinite (l : list num) : num :=
  fold_left (fun a b => (a + (if isFiniteN b then b else 0))%num) l (Fin 0).

(** ** Projected plate appearances *)

Definition PROJECTED_PA_TABLE (home : bool) (slot : nat) : option R :=
  if home then
    match slot with
    | 1%nat => Some 4.49 | 2%nat => Some 4.40 | 3%nat => Some 4.30
    | 4%nat => Some 4.20 | 5%nat => Some 4.10 | _ => None
    end
  else
    match slot with
    | 1%nat => Some 4.69 | 2%nat => Some 4.59 | 3%nat => Some 4.49
    | 4%nat => Some 4.39 | 5%nat => Some 4.28 | _ => None
    end.

Definition projectedPAFor (slot : option nat) (isHome : bool) : value :=
  match slot with
  | None => None
  | Some s =>
      match PROJECTED_PA_TABLE isHome s with
      | Some v => Some (Fin v)
      | None => None
      end
  end.

(** ** The composite scorer *)

Record Weights : Type := {
  w_wtb : num;
  w_h9_side : num;
  w_h9_28 : num;
  w_ops_hand : num;
  w_ops_site : num;
  w_last7 : num;
  w_opp : num;
  w_h2h : num
}.

Definition SCORE_WEIGHTS : Weights :=
  {| w_wtb := 0.30;
     w_h9_side := 0.04;
     w_h9_28 := 0.02;
     w_ops_hand := 0.15;
     w_ops_site := 0.04;
     w_last7 := 0.10;
     w_opp := 0.05;
     w_h2h := 0.15 |}.

(** What the scoring closure of [analyzeProbable] reads for one hitter. *)
Record SignalBundle : Type := {
  projectedOrder : option nat;
  opponentIsHome : bool;
  wtb : value;
  season_pa : value;
  opsHomeAwayForGame : value;
  opsVsPitcherHand : value;
  opsLast7 : value;
  paLast7 : value;
  pitcherH9VsBatterSide : value;
  hitsPer9Inn_last_28_days : value;
  ab_vs_pitcher : value;
  ops_vs_pitcher : value
}.

(** The dynamic head-to-head weight. *)
Definition h2hDynamic (b : SignalBundle) : num :=
  let abH2H : value :=
    match ab_vs_pitcher b with Some a => Some a | None => Some (Fin 0) end in
  h2hWeightFromGrid abH2H (ops_vs_pitcher b).

(** The dynamic weight of the last seven days. *)
Definition last7Dynamic (baseW : Weights) (b : SignalBundle) : num :=
  match paLast7 b with
  | Some pa =>
      if nge pa 3 && isFinite (opsLast7 b) then
        let linScaleL7 := clamp ((pa - 3) / (20 - 3)) 0 1 in
        let sqrtScaleL7 := nsqrt linScaleL7 in
        (w_last7 baseW * (0.50 + 0.50 * sqrtScaleL7))%num
      else (w_last7 baseW * 0.50)%num
  | None => (w_last7 baseW * 0.50)%num
  end.

(** The weights after redistribution: [wtb], [opp] and the head-to-head
    weight are kept, the other five are rescaled, and [last7] is capped. *)
Definition resolveWeights (baseW : Weights) (w_h2h_dyn w_last7_dyn : num)
    : Weights :=
  let fixedSum := (w_wtb baseW + w_opp baseW + w_h2h_dyn)%num in
  let shrinkSum :=
    sumFinite [w_h9_side baseW; w_h9_28 baseW; w_ops_hand baseW;
               w_ops_site baseW; w_last7_dyn] in
  let remaining := (1 - fixedSum)%num in
  let scaleShrink :=
    if ngt shrinkSum 0 then (nmax 0 remaining / shrinkSum)%num else Fin 1 in
  {| w_wtb := w_wtb baseW;
     w_opp := w_opp baseW;
     w_h2h := w_h2h_dyn;
     w_h9_side := w_h9_side baseW * scaleShrink;
     w_h9_28 := w_h9_28 baseW * scaleShrink;
     w_ops_hand := w_ops_hand baseW * scaleShrink;
     w_ops_site := w_ops_site baseW * scaleShrink;
     w_last7 := nmin (w_last7_dyn * scaleShrink) (w_last7 baseW) |}.

Definition weightsOf (b : SignalBundle) : Weights :=
  resolveWeights SCORE_WEIGHTS (h2hDynamic b) (last7Dynamic SCORE_WEIGHTS b).

(** The opportunity share. *)
Definition oppShareOf (w : Weights) (b : SignalBundle) : num :=
  let projPA := projectedPAFor (projectedOrder b) (opponentIsHome b) in
  let oppMin : num := 4.10 in
  let oppMax : num := 4.69 in
  let oppNorm : num :=
    match projPA with
    | None => 0.5
    | Some pa => clamp ((pa - oppMin) / (oppMax - oppMin)) 0 1
    end in
  (w_opp w * (0.5 + 0.5 * oppNorm))%num.

(** The object [comp], by its entries in the order they are written. *)
Definition compOf (b : SignalBundle) : list (string * num) :=
  let w := weightsOf b in
  [ ("wtb"%string, ((normWTB (wtb b) * w_wtb w) * wtbPAConfidence (season_pa b))%num);
    ("h9_side"%string, (normH9 (pitcherH9VsBatterSide b) * w_h9_side w)%num);
    ("h9_28"%string, (normH9 (hitsPer9Inn_last_28_days b) * w_h9_28 w)%num);
    ("ops_hand"%string, (normOPS (opsVsPitcherHand b) * w_ops_hand w)%num);
    ("ops_site"%string, (normOPS (opsHomeAwayForGame b) * w_ops_site w)%num);
    ("last7"%string, (normOPS (opsLast7 b) * w_last7 w)%num);
    ("opp"%string, oppShareOf w b);
    ("h2h"%string, w_h2h w) ].

(** [comp.h2h]. *)
Fixpoint field (name : string) (o : list (string * num)) : value :=
  match o with
  | [] => None
  | (k, v) :: rest => if String.eqb k name then Some v else field name rest
  end.

Definition scaledScoreOf (comp : list (string * num)) : num :=
  let scoreRaw := sumFinite (map snd comp) in
  nmax 1 (nround (clamp scoreRaw 0 1 * 100)).

(** The index of the largest contribution among [others]. *)
Definition maxIdxOf (others : list (string * num)) : nat :=
  let tagged :=
    map (fun iv => (fst iv, if isFiniteN (snd (snd iv)) then snd (snd iv) else Fin (-1)))
        (combine (seq 0 (List.length others)) others) in
  match jsSort (fun a b => (snd b - snd a)%num) tagged with
  | (i, _) :: _ => i
  | [] => O
  end.

(** The breakdown, by the entries [tmp] the object is built from (their
    keys are distinct): the head-to-head entry is pinned, the other entries
    share the remaining points in proportion, and the rounding difference
    goes to the largest of them. *)
Definition breakdownOf (comp : list (string * num)) (scaledScore : num)
    : list (string * num) :=
  let absH2H : num :=
    if isFinite (field "h2h" comp)
    then nround (toNumber (field "h2h" comp) * 100) else 0 in
  let others := filter (fun kv => negb (String.eqb (fst kv) "h2h")) comp in
  let denomOthers := sumFinite (map snd others) in
  let remainingPts := nmax 0 (scaledScore - absH2H) in
  if ngt denomOthers 0 then
    let scaledOthers :=
      map (fun kv =>
             let base : num := if isFiniteN (snd kv) then snd kv else 0 in
             let scaled := (remainingPts * (base / denomOthers))%num in
             (fst kv, nmax 0 (nround scaled)))
          others in
    let sumOthers := fold_left (fun a kv => (a + snd kv)%num) scaledOthers (Fin 0) in
    let delta := (remainingPts - sumOthers)%num in
    let scaledOthers' :=
      if negb (neq delta 0) && Nat.ltb 0 (List.length scaledOthers) then
        updateAt scaledOthers (maxIdxOf others)
          (fun kv => (fst kv, nmax 0 (snd kv + delta)))
      else scaledOthers in
    scaledOthers' ++ [("h2h"%string, absH2H)]
  else [("h2h"%string, scaledScore)].

(** [Number(x.toFixed(3))]: three decimals, halves away from zero. *)
Definition toFixed3 (a : num) : num :=
  match a with
  | Fin x =>
      if Rlt_dec x 0
      then Fin (- (IZR (round_half_up (- x * 1000)) / 1000))
      else Fin (IZR (round_half_up (x * 1000)) / 1000)
  | _ => a
  end.

(** A row of the result, with the fields the filters and sorts read. *)
Record Hitter : Type := {
  projectedBattingOrder : option nat;
  projected_pa : value;
  ops_vs_pitcher_ab : value;
  wtb_percent : value;
  hitter_season_pa : value;
  score : num;
  h2h_share : num;
  score_breakdown : list (string * num)
}.

Definition scoreHitter (b : SignalBundle) : Hitter :=
  let comp := compOf b in
  let scaledScore := scaledScoreOf comp in
  {| projectedBattingOrder := projectedOrder b;
     projected_pa := projectedPAFor (projectedOrder b) (opponentIsHome b);
     ops_vs_pitcher_ab := ab_vs_pitcher b;
     wtb_percent :=
       match wtb b with Some x => Some (toFixed3 x) | None => None end;
     hitter_season_pa :=
       if isFinite (season_pa b) then season_pa b else None;
     score := scaledScore;
     h2h_share := w_h2h (weightsOf b);
     score_breakdown := breakdownOf comp scaledScore |}.

(** ** The lists of hitters *)

(** The filter of [analyzeProbable]: at least one at-bat against the
    pitcher and a projected slot of at most 5. *)
Definition eligible (h : Hitter) : bool :=
  nge (toNumber (ops_vs_pitcher_ab h)) 1
  && match projectedBattingOrder h with
     | Some s => Nat.leb s 5
     | None => false
     end.

(** The comparator [(b.score ?? -1) - (a.score ?? -1)]; a row always has a
    score. *)
Definition byScoreDesc (a b : Hitter) : num := (score b - score a)%num.

(** The [hitters] of one probable pitcher. *)
Definition hittersOf (bundles : list SignalBundle) : list Hitter :=
  jsSort byScoreDesc (filter eligible (map scoreHitter bundles)).

Record GameResult : Type := {
  gamePk : nat;
  hitters : list Hitter
}.

Definition analyzeProbable (pk : nat) (bundles : list SignalBundle)
    : GameResult :=
  {| gamePk := pk; hitters := hittersOf bundles |}.

(** A hitter of the combined list, with the game it comes from. *)
Record OutHitter : Type := {
  out_hitter : Hitter;
  out_gamePk : nat
}.

(** The key of the sort of [main]: [wtb_percent], or -1 when it is not a
    finite number. *)
Definition wtbKey (h : OutHitter) : num :=
  if isFinite (wtb_percent (out_hitter h))
  then toNumber (wtb_percent (out_hitter h)) else Fin (-1).

Definition byWtbDesc (a b : OutHitter) : num := (wtbKey b - wtbKey a)%num.

(** The filter of [main]: [(h.season_pa ?? 0) >= 85]. *)
Definition seasonPAAtLeast85 (h : OutHitter) : bool :=
  nge (toNumber (hitter_season_pa (out_hitter h))) 85.

Record Output : Type := {
  gamesAnalyzed : nat;
  hitterCount : nat;
  out_hitters : list OutHitter
}.

(** The document [main] writes, from the number of games and the results
    [perProbable] of [analyzeProbable]. *)
Definition main (ngames : nat) (perProbable : list GameResult)
    : Output :=
  let allHitters :=
    flat_map (fun entry =>
                map (fun h => {| out_hitter := h; out_gamePk := gamePk entry |})
                    (hitters entry))
             perProbable in
  let sortedHitters := jsSort byWtbDesc (filter seasonPAAtLeast85 allHitters) in
  {| gamesAnalyzed := ngames;
     hitterCount := List.length sortedHitters;
     out_hitters := sortedHitters |}.

(** ** Vocabulary of the statements *)

(** The boxscore lines the fold records. *)
Definition recorded (o : Observation) : bool :=
  negb (Nat.eqb (obsSlot o) 0 || obsIsPitcher o).

(** The number of recorded lines of a slot. *)
Definition occurrences (slot : nat) (obs : list Observation) : Z :=
  Z.of_nat
    (List.length (filter (fun o => recorded o && Nat.eqb (obsSlot o) slot) obs)).

(** The slot the fold holds as the latest one. *)
Definition latestOf (obs : list Observation) : option nat :=
  match buildEntry obs with
  | Some entry => latestSlot entry
  | None => None
  end.

(** The slot of the last recorded line. *)
Definition lastRecordedSlot (obs : list Observation) : option nat :=
  match rev (filter recorded obs) with
  | o :: _ => Some (obsSlot o)
  | [] => None
  end.

(** Dates that never decrease along the sequence. *)
Fixpoint chronological (obs : list Observation) : Prop :=
  match obs with
  | [] => True
  | o :: rest =>
      (forall o', In o' rest ->
         String.leb (obsGameDate o) (obsGameDate o') = true)
      /\ chronological rest
  end.

(** The slots that share the highest number of recorded lines. *)
Definition tiedForMost (slot : nat) (obs : list Observation) : Prop :=
  (0 < occurrences slot obs)%Z
  /\ forall s, (occurrences s obs <= occurrences slot obs)%Z.

(** A tie for the highest count that the latest slot is not part of. *)
Definition tieWithoutLatest (obs : list Observation) : Prop :=
  (exists s1 s2, s1 <> s2 /\ tiedForMost s1 obs /\ tiedForMost s2 obs)
  /\ forall l, latestOf obs = Some l -> ~ tiedForMost l obs.

(** The tied slot met last when the recorded lines are read in order. *)
Definition lastTiedSlot (obs : list Observation) (slot : nat) : Prop :=
  exists before after o,
    obs = before ++ o :: after
    /\ recorded o = true /\ obsSlot o = slot /\ tiedForMost slot obs
    /\ forall o', In o' after -> recorded o' = true -> ~ tiedForMost (obsSlot o') obs.

(** ** Vocabulary of the proofs: numbers *)

(** A number of the unit interval. *)
Definition in_unit (a : num) : Prop := exists r, a = Fin r /\ 0 <= r <= 1.

(** The value a contribution adds to a sum that skips what is not finite. *)
Definition finPart (a : num) : R :=
  match a with Fin x => x | _ => 0 end.

(** A finite non-negative number, or [NaN]. *)
Definition unitOrNaN (a : num) : Prop := a = NaN \/ in_unit a.

(** ** Vocabulary of the proofs: the projector *)

Definition sortedKeys (c : Counts) : Prop :=
  StronglySorted Nat.lt (map fst c).

(** What the loop of [chooseProjectedOrder] holds after the entries [c]. *)
Definition chooseInv (latest : option nat) (c : Counts)
    (best : option nat * Z) : Prop :=
  match c with
  | [] => best = (None, (-1)%Z)
  | _ :: _ =>
      exists s m,
        best = (Some s, m)
        /\ countOf c s = Some m
        /\ (forall k n, countOf c k = Some n -> (n <= m)%Z)
        /\ (forall l, latest = Some l -> countOf c l = Some m -> s = l)
        /\ ((forall l, latest = Some l -> countOf c l <> Some m) ->
            forall k, countOf c k = Some m -> (s <= k)%nat)
  end.

(** The entry of a hitter after the lines [obs]. *)
Definition entryInv (obs : list Observation) (e : option Entry) : Prop :=
  match e with
  | None => forall s, occurrences s obs = 0%Z
  | Some entry =>
      sortedKeys (counts entry)
      /\ (forall s, countOf (counts entry) s =
                    if (occurrences s obs =? 0)%Z then None
                    else Some (occurrences s obs))
      /\ exists l, latestSlot entry = Some l /\ (0 < occurrences l obs)%Z
  end.

(** *** The lines of the examples *)

Definition line (slot : nat) (date : string) : Observation :=
  {| obsSlot := slot; obsIsPitcher := false; obsGameDate := date |}.

(** Slots 3 and 5 four times each, the latest line in slot 5. *)
Definition obsTieLatest : list Observation :=
  [ line 3 "2024-06-01"; line 5 "2024-06-02"; line 3 "2024-06-03";
    line 5 "2024-06-04"; line 5 "2024-06-05"; line 3 "2024-06-06";
    line 3 "2024-06-07"; line 5 "2024-06-08" ].

(** Slot 2 five times and slot 4 twice. *)
Definition obsClearMode : list Observation :=
  [ line 2 "2024-06-01"; line 4 "2024-06-02"; line 2 "2024-06-03";
    line 2 "2024-06-04"; line 4 "2024-06-05"; line 2 "2024-06-06";
    line 2 "2024-06-07" ].

(** Slots 2 and 3 twice each, then one line in slot 5. *)
Definition obsTieOther : list Observation :=
  [ line 2 "2024-06-01"; line 2 "2024-06-02"; line 3 "2024-06-03";
    line 3 "2024-06-04"; line 5 "2024-06-05" ].

(** ** Vocabulary of the proofs: the grid *)

(** The interpolated points of a row at a clamped OPS: the part of
    [h2hWeightFromGrid] after the row and the OPS are fixed. *)
Definition pointsOf (row : list Z) (opsClamped : num) : num :=
  let t : num := 0 in
  let nbins := List.length H2H_OPS_BINS in
  let i := findBin opsClamped 0 (nbins - 1) in
  let lo := binAt i in
  let hi := binAt (Nat.min (i + 1) (nbins - 1)) in
  let u := (if ngt hi lo then (opsClamped - lo) / (hi - lo) else 0)%num in
  let v0 := (cell row i
             + u * (cell row (Nat.min (i + 1) (List.length row - 1)) - cell row i))%num in
  (v0 + t * (v0 - v0))%num.

(** The number of at-bats and the OPS the lookup works with. *)
Definition atBatsOf (ab : value) : R :=
  if isFinite ab then finPart (toNumber ab) else 0.

Definition opsOf (ops : value) : R :=
  if isFinite ops then finPart (toNumber ops) else 0.72.

(** The row of the grid the lookup reads, counted from 1. *)
Definition atBatsRow (ab : value) : Z :=
  Z.min 25 (Z.max 1 (round_half_up (atBatsOf ab))).

(** Linear interpolation along a row, bin after bin. *)
Fixpoint interpFrom (b0 : R) (r0 : Z) (rest : list (R * Z)) (x : R) : R :=
  match rest with
  | [] => IZR r0
  | (b1, r1) :: rest' =>
      if Rle_dec x b1
      then IZR r0 + (x - b0) / (b1 - b0) * (IZR r1 - IZR r0)
      else interpFrom b1 r1 rest' x
  end.

Definition interpRow (row : list Z) (x : R) : R :=
  match combine H2H_OPS_BINS row with
  | (b0, r0) :: rest => interpFrom b0 r0 rest x
  | [] => 0
  end.

Fixpoint binsIncreasing (b0 : R) (rest : list (R * Z)) : Prop :=
  match rest with
  | [] => True
  | (b1, _) :: rest' => b0 < b1 /\ binsIncreasing b1 rest'
  end.

Fixpoint pointsIncreasing (r0 : Z) (rest : list (R * Z)) : Prop :=
  match rest with
  | [] => True
  | (_, r1) :: rest' => (r0 <= r1)%Z /\ pointsIncreasing r1 rest'
  end.

(** ** Vocabulary of the proofs: the scorer *)

(** The sum of the eight resolved weights. *)
Definition weightSum (w : Weights) : num :=
  (w_wtb w + w_opp w + w_h2h w + w_h9_side w + w_h9_28 w + w_ops_hand w
   + w_ops_site w + w_last7 w)%num.

(** A hitter known only by 20 at-bats against the pitcher at an OPS of
    0.20. *)
Definition bundleCapped : SignalBundle :=
  {| projectedOrder := None;
     opponentIsHome := true;
     wtb := None;
     season_pa := None;
     opsHomeAwayForGame := None;
     opsVsPitcherHand := None;
     opsLast7 := None;
     paLast7 := None;
     pitcherH9VsBatterSide := None;
     hitsPer9Inn_last_28_days := None;
     ab_vs_pitcher := Some (Fin 20);
     ops_vs_pitcher := Some (Fin 0.20) |}.

(** A contribution: [NaN], or a finite number between 0 and [bound]. *)
Definition contribution (v : num) (bound : R) : Prop :=
  (v = NaN \/ exists c, v = Fin c) /\ 0 <= finPart v <= bound.

Definition Rsum (l : list R) : R := fold_right Rplus 0 l.

(** The rounded share of a contribution, as the breakdown computes it. *)
Definition sharePoints (R0 : Z) (D c : R) : Z :=
  Z.max 0 (round_half_up (IZR R0 * (c / D))).

(** The comparator of [maxIdxOf] and the tag it compares. *)
Definition byTagDesc (a b : nat * num) : num := (snd b - snd a)%num.

Definition tagOf (v : num) : R := if isFiniteN v then finPart v else -1.

Definition tagged (it : nat * R) : nat * num := (fst it, Fin (snd it)).

(** The integer score of a sum of contributions. *)
Definition scoreOfSum (sr : R) : Z :=
  Z.max 1 (round_half_up (Rmin 1 (Rmax 0 sr) * 100)).

(** The sum of the values of a breakdown. *)
Definition sumValues (o : list (string * num)) : num :=
  fold_left (fun a kv => (a + snd kv)%num) o (Fin 0).

Definition pointsEntry (kz : string * Z) : string * num :=
  (fst kz, Fin (IZR (snd kz))).

Definition Zsum (l : list Z) : Z := fold_right Z.add 0%Z l.

(** The sum of the contributions, a contribution that is not finite
    counting for nothing. *)
Definition contributionSum (comp : list (string * num)) : R :=
  Rsum (map finPart (map snd comp)).

(** The sum of the contributions other than the head-to-head one, the
    denominator of the breakdown. *)
Definition denomOthersOf (comp : list (string * num)) : num :=
  sumFinite (map snd (filter (fun kv => negb (String.eqb (fst kv) "h2h")) comp)).

(** ** Vocabulary of the proofs: the lists of hitters *)

(** A list in descending order of a key. *)
Definition descendingBy {A : Type} (key : A -> num) (l : list A) : Prop :=
  Sorted (fun a b => nge (key a) (key b) = true) l.

(** *** Two hitters on which the two orders differ *)

(** A hitter with a weighted hit rate of 0.300 over 100 plate appearances,
    20 at-bats against the pitcher at an OPS of 0.20, projected fifth at
    home. *)
Definition bundleA : SignalBundle :=
  {| projectedOrder := Some 5%nat;
     opponentIsHome := true;
     wtb := Some (Fin 0.30);
     season_pa := Some (Fin 100);
     opsHomeAwayForGame := None;
     opsVsPitcherHand := None;
     opsLast7 := None;
     paLast7 := None;
     pitcherH9VsBatterSide := None;
     hitsPer9Inn_last_28_days := None;
     ab_vs_pitcher := Some (Fin 20);
     ops_vs_pitcher := Some (Fin 0.20) |}.



(** ** Decoding the batting order *)

(** [Math.floor]. *)
Definition nfloor (a : num) : num :=
  match a with
  | Fin x => Fin (IZR (Zfloor x))
  | _ => a
  end.

(** The numbers that count as false: 0 and [NaN]. *)
Definition falsyN (a : num) : bool :=
  match a with
  | Fin x => req x 0
  | NaN => true
  | _ => false
  end.

(** What a boxscore holds under [battingOrder]: nothing, a number, or a
    string such as ["101"]. *)
Inductive jsval : Type :=
  | JNull
  | JUndefined
  | JNum (n : num)
  | JStr (s : string).

(** [!v]. *)
Definition falsy (v : jsval) : bool :=
  match v with
  | JNull | JUndefined => true
  | JNum n => falsyN n
  | JStr s => String.eqb s EmptyString
  end.

Section BattingOrder.

(** [Number(s)] for a string [s].  The conversion of the language is a
    parameter of the model: what is proved holds whatever it returns. *)
Variable stringToNumber : string -> num.

(** [Number(v)]. *)
Definition jsNumber (v : jsval) : num :=
  match v with
  | JNull => Fin 0
  | JUndefined => NaN
  | JNum n => n
  | JStr s => stringToNumber s
  end.

Definition battingOrderSlot (bo : jsval) : value :=
  if falsy bo then None
  else
    let n := jsNumber bo in
    if negb (isFiniteN n) then None
    else
      let q := nfloor (n / 100) in
      if falsyN q then None else Some q.

End BattingOrder.

(** A conversion that agrees with [Number(s)] on the strings of decimal
    digits, the case batting-order codes fall in, and on the empty string,
    which reads as 0; it gives [NaN] on every other string.  The examples
    put it in the place of the parameter [stringToNumber]. *)
Definition digitValue (c : ascii) : option Z :=
  let n := Z.of_nat (nat_of_ascii c) in
  if (48 <=? n)%Z && (n <=? 57)%Z then Some (n - 48)%Z else None.

Fixpoint decimalFrom (acc : Z) (s : string) : option Z :=
  match s with
  | EmptyString => Some acc
  | String c s' =>
      match digitValue c with
      | Some d => decimalFrom (10 * acc + d) s'
      | None => None
      end
  end.

Definition decimalReading (s : string) : num :=
  match decimalFrom 0 s with
  | Some z => Fin (IZR z)
  | None => NaN
  end.

(** ** Reading an OPS *)

Section ReadOps.

Variable stringToNumber : string -> num.

(** The OPS of a [stat] object as [getOpsVsPitcherHandFromStatSplits]
    reads it: a number as it is, a string through [Number], anything else
    as [null]. *)
Definition readOps (raw : jsval) : value :=
  match raw with
  | JNum n => Some n
  | JStr s => Some (stringToNumber s)
  | JNull | JUndefined => None
  end.

End ReadOps.

(** ** Season statistics *)

(** The fields of a [stat] object the program reads, each a number or
    missing. *)
Record Stat : Type := {
  stat_plateAppearances : value;
  stat_atBats : value;
  stat_baseOnBalls : value;
  stat_hitByPitch : value;
  stat_sacFlies : value;
  stat_sacBunts : value;
  stat_hits : value
}.

(** [v ?? d]. *)
Definition nullish (v : value) (d : num) : num :=
  match v with Some a => a | None => d end.

Definition plateAppearances (stat : Stat) : num :=
  match stat_plateAppearances stat with
  | Some n => n
  | None =>
      let ab := nullish (stat_atBats stat) 0 in
      let bb := nullish (stat_baseOnBalls stat) 0 in
      let hbp := nullish (stat_hitByPitch stat) 0 in
      let sf := nullish (stat_sacFlies stat) 0 in
      let sh := nullish (stat_sacBunts stat) 0 in
      (ab + bb + hbp + sf + sh)%num
  end.

Definition computeWTB (stat : Stat) : num :=
  let hits := nullish (stat_hits stat) 0 in
  let pa := plateAppearances stat in
  if ngt pa 0 then (hits / pa)%num else 0.

(** ** Reading the boxscores of the opponent *)

(** A player of a boxscore: the id of the person (0 when it is missing),
    the decoded batting-order slot (0 when [battingOrderSlot] gave [null])
    and whether the position code is ["P"]. *)
Record BoxPlayer : Type := {
  playerId : nat;
  playerSlot : nat;
  playerIsPitcher : bool
}.

(** A side of a boxscore: the id of its team (0 when it is missing) and its
    players in the order of their keys. *)
Record BoxSide : Type := {
  sideTeamId : nat;
  sidePlayers : list BoxPlayer
}.

(** A game of the opponent's schedule: its official date and the sides of
    its boxscore, [None] when the boxscore could not be fetched. *)
Record OppGame : Type := {
  officialDate : string;
  boxscore : option (list BoxSide)
}.

(** The map [ordersByPlayer], by its entries in insertion order. *)
Definition Orders : Type := list (nat * Entry).

Fixpoint getOrder (m : Orders) (pid : nat) : option Entry :=
  match m with
  | [] => None
  | (k, e) :: rest => if Nat.eqb k pid then Some e else getOrder rest pid
  end.

(** The entry of a player after its update: an entry already in the map is
    changed in place, a new one is added at the end. *)
Fixpoint setOrder (m : Orders) (pid : nat) (e : Entry) : Orders :=
  match m with
  | [] => [(pid, e)]
  | (k, e0) :: rest =>
      if Nat.eqb k pid then (k, e) :: rest else (k, e0) :: setOrder rest pid e
  end.

(** [candidateBatterIds.add(pid)] on a set kept in insertion order. *)
Definition addCandidate (s : list nat) (pid : nat) : list nat :=
  if existsb (Nat.eqb pid) s then s else s ++ [pid].

Record Tracking : Type := {
  ordersByPlayer : Orders;
  candidateBatterIds : list nat
}.

Definition obsOf (gameDate : string) (pl : BoxPlayer) : Observation :=
  {| obsSlot := playerSlot pl;
     obsIsPitcher := playerIsPitcher pl;
     obsGameDate := gameDate |}.

(** The body of the loop over the players of a side. *)
Definition recordPlayer (gameDate : string) (t : Tracking) (pl : BoxPlayer)
    : Tracking :=
  let pid := playerId pl in
  let bo := playerSlot pl in
  if Nat.eqb pid 0 || Nat.eqb bo 0 || playerIsPitcher pl then t
  else
    match recordSlot (getOrder (ordersByPlayer t) pid) (obsOf gameDate pl) with
    | Some entry =>
        {| ordersByPlayer := setOrder (ordersByPlayer t) pid entry;
           candidateBatterIds :=
             if Nat.leb 1 bo && Nat.leb bo 5
             then addCandidate (candidateBatterIds t) pid
             else candidateBatterIds t |}
    | None => t
    end.

(** A side is read when it has a team id and the team is the opponent. *)
Definition sideIsOpponent (opponentTeamId : nat) (side : BoxSide) : bool :=
  negb (Nat.eqb (sideTeamId side) 0) && Nat.eqb (sideTeamId side) opponentTeamId.

Definition recordSide (opponentTeamId : nat) (gameDate : string)
    (t : Tracking) (side : BoxSide) : Tracking :=
  if sideIsOpponent opponentTeamId side
  then fold_left (recordPlayer gameDate) (sidePlayers side) t
  else t.

Definition recordGame (opponentTeamId : nat) (t : Tracking) (g : OppGame)
    : Tracking :=
  match boxscore g with
  | Some sides =>
      fold_left (recordSide opponentTeamId (officialDate g)) sides t
  | None => t
  end.

(** The loop of [analyzeProbable] over the games of the opponent. *)
Definition collectOrders (opponentTeamId : nat) (oppGames : list OppGame)
    : Tracking :=
  fold_left (recordGame opponentTeamId) oppGames
    {| ordersByPlayer := []; candidateBatterIds := [] |}.

Record Projection : Type := {
  projProjectedOrder : option nat;
  orderCounts : Counts;
  orderSampleSize : Z
}.

Definition projectionOf (entry : Entry) : Projection :=
  {| projProjectedOrder :=
       chooseProjectedOrder (counts entry) (latestSlot entry);
     orderCounts := counts entry;
     orderSampleSize := fold_left Z.add (map snd (counts entry)) 0%Z |}.

(** The map [projections], built for the candidates that have an entry. *)
Definition buildProjections (t : Tracking) : list (nat * Projection) :=
  flat_map
    (fun pid =>
       match getOrder (ordersByPlayer t) pid with
       | Some entry => [(pid, projectionOf entry)]
       | None => []
       end)
    (candidateBatterIds t).

(** ** Dates as strings *)

Definition digitChar (d : Z) : ascii := ascii_of_N (Z.to_N (48 + d)).

(** The decimal digits of [n] before [acc], most significant first. *)
Fixpoint digitsOf (fuel : nat) (n : Z) (acc : string) : string :=
  match fuel with
  | O => acc
  | S fuel' =>
      let acc' := String (digitChar (n mod 10)) acc in
      if (n / 10 =? 0)%Z then acc' else digitsOf fuel' (n / 10) acc'
  end.

(** [String(n)] for a whole number below 10^21 in size, as the years,
    months and days of a date are: its decimal digits, after a minus sign
    when it is negative. *)
Definition intToString (n : Z) : string :=
  if (n <? 0)%Z
  then String "-"%char (digitsOf (S (Z.to_nat (- n))) (- n) EmptyString)
  else digitsOf (S (Z.to_nat n)) n EmptyString.

(** [s.padStart(2, "0")]. *)
Definition padStart2 (s : string) : string :=
  match String.length s with
  | O => "00"%string
  | 1%nat => String "0"%char s
  | _ => s
  end.

Definition pad (n : Z) : string := padStart2 (intToString n).

(** The arrow function [fmtYMD] of [main]. *)
Definition fmtYMD (y m d : Z) : string :=
  (intToString y ++ "-" ++ pad m ++ "-" ++ pad d)%string.

(** What [fmtDate] reads of a [Date]: [getFullYear()], [getMonth()] (from 0)
    and [getDate()]. *)
Record DateParts : Type := {
  fullYear : Z;
  monthIndex : Z;
  dayOfMonth : Z
}.

Definition fmtDate (d : DateParts) : string :=
  (intToString (fullYear d) ++ "-" ++ pad (monthIndex d + 1) ++ "-"
   ++ pad (dayOfMonth d))%string.

Definition fmtUSDate (y m d : Z) : string :=
  (pad m ++ "/" ++ pad d ++ "/" ++ intToString y)%string.

(** ** The cards of the page *)

(** The key [renderCards] sorts by: the property of the hitter named by
    [sortKey] when it is a finite number, and minus infinity otherwise.
    [prop] is the reading of that property. *)
Definition cardKey (prop : OutHitter -> value) (h : OutHitter) : num :=
  if isFinite (prop h) then toNumber (prop h) else NInf.

(** The hitters [renderCards] makes cards of, in the order of the cards. *)
Definition renderCards (rawHitters : list OutHitter) (minPa : num)
    (prop : OutHitter -> value) (sortDir : string) : list OutHitter :=
  jsSort
    (fun a b =>
       let av := cardKey prop a in
       let bv := cardKey prop b in
       if String.eqb sortDir "desc" then (bv - av)%num else (av - bv)%num)
    (filter
       (fun h =>
          nge (nullish (hitter_season_pa (out_hitter h)) 0)
              (if falsyN minPa then 0 else minPa))
       rawHitters).

(** ** Vocabulary of the further statements *)

(** One signal is not lower than another: the same value, or two finite
    numbers in order. *)
Definition notLower (v1 v2 : value) : Prop :=
  v1 = v2 \/ exists x y, v1 = Some (Fin x) /\ v2 = Some (Fin y) /\ x <= y.

(** Two hitters in the same matchup situation (projected slot, site,
    at-bats and OPS against the pitcher, plate appearances of the last seven
    days), the second with signals that are not lower. *)
Definition improves (b1 b2 : SignalBundle) : Prop :=
  projectedOrder b1 = projectedOrder b2
  /\ opponentIsHome b1 = opponentIsHome b2
  /\ paLast7 b1 = paLast7 b2
  /\ ab_vs_pitcher b1 = ab_vs_pitcher b2
  /\ ops_vs_pitcher b1 = ops_vs_pitcher b2
  /\ notLower (wtb b1) (wtb b2)
  /\ notLower (season_pa b1) (season_pa b2)
  /\ notLower (opsHomeAwayForGame b1) (opsHomeAwayForGame b2)
  /\ notLower (opsVsPitcherHand b1) (opsVsPitcherHand b2)
  /\ notLower (opsLast7 b1) (opsLast7 b2)
  /\ notLower (pitcherH9VsBatterSide b1) (pitcherH9VsBatterSide b2)
  /\ notLower (hitsPer9Inn_last_28_days b1) (hitsPer9Inn_last_28_days b2).

(** The hitter of [bundleA] with a lower weighted rate over fewer plate
    appearances. *)
Definition bundleA_lower : SignalBundle :=
  {| projectedOrder := Some 5%nat;
     opponentIsHome := true;
     wtb := Some (Fin 0.25);
     season_pa := Some (Fin 90);
     opsHomeAwayForGame := None;
     opsVsPitcherHand := None;
     opsLast7 := None;
     paLast7 := None;
     pitcherH9VsBatterSide := None;
     hitsPer9Inn_last_28_days := None;
     ab_vs_pitcher := Some (Fin 20);
     ops_vs_pitcher := Some (Fin 0.20) |}.

(** A hitter with another OPS against the hand of the pitcher. *)
Definition withOpsVsPitcherHand (v : value) (b : SignalBundle) : SignalBundle :=
  {| projectedOrder := projectedOrder b;
     opponentIsHome := opponentIsHome b;
     wtb := wtb b;
     season_pa := season_pa b;
     opsHomeAwayForGame := opsHomeAwayForGame b;
     opsVsPitcherHand := v;
     opsLast7 := opsLast7 b;
     paLast7 := paLast7 b;
     pitcherH9VsBatterSide := pitcherH9VsBatterSide b;
     hitsPer9Inn_last_28_days := hitsPer9Inn_last_28_days b;
     ab_vs_pitcher := ab_vs_pitcher b;
     ops_vs_pitcher := ops_vs_pitcher b |}.

(** The players the loop reads, each with the date of its game, in reading
    order. *)
Definition readPlayers (opponentTeamId : nat) (oppGames : list OppGame)
    : list (string * BoxPlayer) :=
  flat_map
    (fun g =>
       match boxscore g with
       | Some sides =>
           flat_map
             (fun side =>
                if sideIsOpponent opponentTeamId side
                then map (fun pl => (officialDate g, pl)) (sidePlayers side)
                else [])
             sides
       | None => []
       end)
    oppGames.

(** The boxscore lines of one player, in reading order. *)
Definition linesOf (opponentTeamId : nat) (oppGames : list OppGame)
    (pid : nat) : list Observation :=
  map (fun dp => obsOf (fst dp) (snd dp))
      (filter (fun dp => Nat.eqb (playerId (snd dp)) pid)
              (readPlayers opponentTeamId oppGames)).

(** Two games of the opponent, team 7: in the first the player 10 bats
    third and the player 11 pitches, in the second the boxscore lists the
    other team first and the player 10 bats sixth. *)
Definition exampleGames : list OppGame :=
  [ {| officialDate := "2024-06-01";
       boxscore :=
         Some [ {| sideTeamId := 7;
                   sidePlayers :=
                     [ {| playerId := 10; playerSlot := 3;
                          playerIsPitcher := false |};
                       {| playerId := 11; playerSlot := 9;
                          playerIsPitcher := true |} ] |} ] |};
    {| officialDate := "2024-06-02";
       boxscore :=
         Some [ {| sideTeamId := 8;
                   sidePlayers :=
                     [ {| playerId := 20; playerSlot := 1;
                          playerIsPitcher := false |} ] |};
                {| sideTeamId := 7;
                   sidePlayers :=
                     [ {| playerId := 10; playerSlot := 6;
                          playerIsPitcher := false |} ] |} ] |} ].

(** The hitters of all the probable pitchers, each with its game, before
    [main] filters and sorts them. *)
Definition allHittersOf (perProbable : list GameResult) : list OutHitter :=
  flat_map (fun entry =>
              map (fun h => {| out_hitter := h; out_gamePk := gamePk entry |})
                  (hitters entry))
           perProbable.

(** A list in ascending order of a key. *)
Definition ascendingBy {A : Type} (key : A -> num) (l : list A) : Prop :=
  Sorted (fun a b => nle (key a) (key b) = true) l.

(** The order of the calendar on year, month and day. *)
Definition dateLe (y m d y' m' d' : Z) : Prop :=
  (y < y' \/ (y = y' /\ (m < m' \/ (m = m' /\ d <= d'))))%Z.

(** ** Vocabulary of the further proofs *)

(** Two rows over the same bins, the second with points that are not
    lower. *)
Fixpoint pointsBelow (rest rest' : list (R * Z)) : Prop :=
  match rest, rest' with
  | [], [] => True
  | (b, r) :: t, (b', r') :: t' => b = b' /\ (r <= r')%Z /\ pointsBelow t t'
  | _, _ => False
  end.

(** Two numbers in order: the same number, or two finite numbers the first
    of which is not the larger. *)
Definition numLe (n1 n2 : num) : Prop :=
  n1 = n2 \/ exists r s, n1 = Fin r /\ n2 = Fin s /\ 0 <= r <= s.

Definition recordLine (t : Tracking) (dp : string * BoxPlayer) : Tracking :=
  recordPlayer (fst dp) t (snd dp).

Definition linesIn (l : list (string * BoxPlayer)) (pid : nat)
    : list Observation :=
  map (fun dp => obsOf (fst dp) (snd dp))
      (filter (fun dp => Nat.eqb (playerId (snd dp)) pid) l).

Definition sumCounts (c : Counts) : Z := fold_left Z.add (map snd c) 0%Z.

(** ** Reasoning about numbers *)

(** Decides the comparisons of reals met in the goal, discarding the
    branches arithmetic refutes. *)
Ltac no_dec t :=
  lazymatch t with
  | context [Rle_dec _ _] => fail
  | context [Rlt_dec _ _] => fail
  | context [Req_dec_T _ _] => fail
  | _ => idtac
  end.

Ltac rdec :=
  repeat match goal with
  | |- context [Rle_dec ?a ?b] =>
      no_dec a; no_dec b; destruct (Rle_dec a b); try lra
  | |- context [Rlt_dec ?a ?b] =>
      no_dec a; no_dec b; destruct (Rlt_dec a b); try lra
  | |- context [Req_dec_T ?a ?b] =>
      no_dec a; no_dec b; destruct (Req_dec_T a b); try lra
  end.

Ltac unfold_num :=
  unfold clamp, nmin, nmax, nge, ngt, nle, nlt, neq, rle, rlt, req,
    nsub, nadd, nopp, nmul, ndiv, scale_inf, nsqrt, toNumber in *.

Ltac splits := repeat match goal with |- _ /\ _ => split end.

Lemma nadd_fin (a b : R) : nadd a b = Fin (a + b).
Proof. reflexivity. Qed.

Lemma nsub_fin (a b : R) : nsub a b = Fin (a - b).
Proof. reflexivity. Qed.

Lemma nmul_fin (a b : R) : nmul a b = Fin (a * b).
Proof. reflexivity. Qed.

Lemma ndiv_fin (a b : R) : b <> 0 -> ndiv a b = Fin (a / b).
Proof. intros H. unfold ndiv. rdec; reflexivity. Qed.

Lemma nmax_fin (a b : R) : nmax a b = Fin (Rmax a b).
Proof. unfold nmax, nle, rle, Rmax. rdec; reflexivity. Qed.

Lemma nmin_fin (a b : R) : nmin a b = Fin (Rmin a b).
Proof. unfold nmin, nle, rle, Rmin. rdec; reflexivity. Qed.

Lemma clamp_fin (x lo hi : R) : clamp x lo hi = Fin (Rmin hi (Rmax lo x)).
Proof. unfold clamp. rewrite nmax_fin, nmin_fin. reflexivity. Qed.

Lemma nsqrt_fin (x : R) : 0 <= x -> nsqrt x = Fin (sqrt x).
Proof. intros H. unfold nsqrt. rdec; reflexivity. Qed.

Lemma nround_fin (x : R) : nround x = Fin (IZR (round_half_up x)).
Proof. reflexivity. Qed.

(** Evaluates the arithmetic of finite numbers. *)
Ltac num_fin :=
  cbn [isFinite isFiniteN negb toNumber andb orb];
  repeat first
    [ rewrite nadd_fin | rewrite nsub_fin | rewrite nmul_fin
    | rewrite ndiv_fin by lra | rewrite nmax_fin | rewrite nmin_fin
    | rewrite clamp_fin | rewrite nround_fin ].

Lemma Rclamp_bounds (x lo hi : R) :
  lo <= hi -> lo <= Rmin hi (Rmax lo x) <= hi.
Proof. intros H. unfold Rmin, Rmax. rdec. Qed.

Lemma Rclamp_id (x lo hi : R) : lo <= x <= hi -> Rmin hi (Rmax lo x) = x.
Proof. intros H. unfold Rmin, Rmax. rdec. Qed.

Lemma unit_fin (r : R) : 0 <= r <= 1 -> in_unit (Fin r).
Proof. intros H. exists r. auto. Qed.

Ltac unit_fin := apply unit_fin; first [lra | apply Rclamp_bounds; lra].

Lemma normH9_unit (v : value) : in_unit (normH9 v).
Proof.
  unfold normH9. destruct v as [[x| | |]|]; num_fin; unit_fin.
Qed.

Lemma normPA_unit (v : value) : in_unit (normPA v).
Proof.
  unfold normPA. destruct v as [[x| | |]|]; num_fin; unit_fin.
Qed.

Lemma normWTB_unit (v : value) : in_unit (normWTB v).
Proof.
  unfold normWTB. destruct v as [[x| | |]|]; num_fin;
    try (apply unit_fin; lra).
  unfold nle, nge, ngt, neq, nle, nlt, rle, rlt, req.
  rdec; num_fin; apply unit_fin; lra.
Qed.

Lemma normOPS_unitOrNaN (v : value) : unitOrNaN (normOPS v).
Proof.
  unfold normOPS, unitOrNaN. destruct v as [[x| | |]|].
  - right. num_fin. unit_fin.
  - right. exists 1. split; [|lra]. unfold_num. rdec; reflexivity.
  - right. exists 0. split; [|lra]. unfold_num. rdec; reflexivity.
  - left. reflexivity.
  - right. apply unit_fin. lra.
Qed.

Lemma normOPS_finite_unit (v : value) :
  v <> Some NaN -> in_unit (normOPS v).
Proof.
  intros H. destruct v as [[x| | |]|].
  - unfold normOPS. num_fin. unit_fin.
  - exists 1. split; [|lra]. unfold normOPS. unfold_num. rdec; reflexivity.
  - exists 0. split; [|lra]. unfold normOPS. unfold_num. rdec; reflexivity.
  - congruence.
  - apply unit_fin. lra.
Qed.

(** C6: the normalisers [normH9], [normPA] and [normWTB] test
    [Number.isFinite] and return the neutral 0.5 on a missing or non-finite
    input; [normOPS] tests only [ops == null], so that on [NaN] it returns
    [NaN], which lies outside [0,1], and on the infinities it returns the
    ends 1 and 0 of the band instead of 0.5. *)
Theorem normOPS_nonfinite_not_neutral :
  normOPS (Some NaN) = NaN
  /\ normOPS (Some PInf) = Fin 1
  /\ normOPS (Some NInf) = Fin 0
  /\ normOPS None = Fin 0.5
  /\ (forall v, isFinite v = false ->
        normH9 v = Fin 0.5 /\ normPA v = Fin 0.5 /\ normWTB v = Fin 0.5)
  /\ (forall v, in_unit (normH9 v) /\ in_unit (normPA v) /\ in_unit (normWTB v))
  /\ (forall v, v <> Some NaN -> in_unit (normOPS v)).
Proof.
  splits.
  - reflexivity.
  - unfold normOPS. unfold_num. rdec; reflexivity.
  - unfold normOPS. unfold_num. rdec; reflexivity.
  - reflexivity.
  - intros v Hv. unfold normH9, normPA, normWTB. rewrite Hv. auto.
  - intros v. splits; [apply normH9_unit|apply normPA_unit|apply normWTB_unit].
  - apply normOPS_finite_unit.
Qed.

Lemma normWTB_below (w : R) : w <= 0.190 -> normWTB (Some (Fin w)) = Fin 0.
Proof.
  intros Hw. unfold normWTB. num_fin. unfold nle, rle. rdec; reflexivity.
Qed.

Lemma normWTB_above (w : R) : 0.272 <= w -> normWTB (Some (Fin w)) = Fin 1.
Proof.
  intros Hw. unfold normWTB. num_fin. unfold nge, nle, rle. rdec; reflexivity.
Qed.

Lemma normWTB_lower_segment (w : R) :
  0.190 <= w <= 0.223 ->
  normWTB (Some (Fin w)) = Fin (0.5 * ((w - 0.190) / (0.223 - 0.190))).
Proof.
  intros Hw. unfold normWTB. num_fin.
  unfold nge, ngt, neq, nle, nlt, rle, rlt, req.
  rdec; num_fin; f_equal; lra.
Qed.

Lemma normWTB_upper_segment (w : R) :
  0.223 <= w <= 0.272 ->
  normWTB (Some (Fin w)) = Fin (0.5 + 0.5 * ((w - 0.223) / (0.272 - 0.223))).
Proof.
  intros Hw. unfold normWTB. num_fin.
  unfold nge, ngt, neq, nle, nlt, rle, rlt, req.
  rdec; num_fin; f_equal; lra.
Qed.

(** C9: [normWTB] takes 0.223 to 0.5, 0.19 to 0, 0.272 to 1 and 0.30 to 1;
    it is 0 up to 0.190 and 1 from 0.272 on, and linear on each of the
    segments [0.190, 0.223] and [0.223, 0.272]. *)
Theorem normWTB_calibration :
  normWTB (Some (Fin 0.223)) = Fin 0.5
  /\ normWTB (Some (Fin 0.19)) = Fin 0
  /\ normWTB (Some (Fin 0.272)) = Fin 1
  /\ normWTB (Some (Fin 0.30)) = Fin 1
  /\ (forall w : R, w <= 0.190 -> normWTB (Some (Fin w)) = Fin 0)
  /\ (forall w : R, 0.272 <= w -> normWTB (Some (Fin w)) = Fin 1)
  /\ (forall w : R, 0.190 <= w <= 0.223 ->
        normWTB (Some (Fin w))
        = Fin (0.5 * ((w - 0.190) / (0.223 - 0.190))))
  /\ (forall w : R, 0.223 <= w <= 0.272 ->
        normWTB (Some (Fin w))
        = Fin (0.5 + 0.5 * ((w - 0.223) / (0.272 - 0.223)))).
Proof.
  splits.
  - rewrite normWTB_upper_segment by lra. f_equal. lra.
  - apply normWTB_below. lra.
  - apply normWTB_above. lra.
  - apply normWTB_above. lra.
  - exact normWTB_below.
  - exact normWTB_above.
  - exact normWTB_lower_segment.
  - exact normWTB_upper_segment.
Qed.

(** ** The lineup-slot projector *)

Lemma countOf_absent (c : Counts) (k : nat) :
  Forall (Nat.lt k) (map fst c) -> countOf c k = None.
Proof.
  induction c as [|[k' n] c IH]; simpl; intros H; [reflexivity|].
  inversion H; subst.
  destruct (Nat.eqb_spec k' k); [lia|]. auto.
Qed.

Lemma setCount_keys (c : Counts) (k : nat) (n : Z) (lo : nat) :
  Forall (Nat.lt lo) (map fst c) -> (lo < k)%nat ->
  Forall (Nat.lt lo) (map fst (setCount c k n)).
Proof.
  induction c as [|[k' m] c IH]; simpl; intros H Hk.
  - constructor; auto.
  - inversion H; subst.
    destruct (Nat.eqb_spec k k'); [constructor; auto|].
    destruct (Nat.ltb_spec k k'); simpl; constructor; auto.
Qed.

Lemma setCount_sorted (c : Counts) (k : nat) (n : Z) :
  sortedKeys c -> sortedKeys (setCount c k n).
Proof.
  unfold sortedKeys.
  induction c as [|[k' m] c IH]; simpl; intros H.
  - repeat constructor.
  - inversion H; subst.
    destruct (Nat.eqb_spec k k'); [simpl; constructor; auto|].
    destruct (Nat.ltb_spec k k'); simpl.
    + constructor; [exact H|]. constructor; [assumption|].
      eapply Forall_impl; [|eassumption]. simpl; intros; lia.
    + constructor; [auto|]. apply setCount_keys; [assumption|lia].
Qed.

Lemma countOf_setCount (c : Counts) (k k' : nat) (n : Z) :
  sortedKeys c ->
  countOf (setCount c k n) k' = if Nat.eqb k' k then Some n else countOf c k'.
Proof.
  unfold sortedKeys.
  induction c as [|[k0 m] c IH]; simpl; intros H.
  - rewrite Nat.eqb_sym. reflexivity.
  - inversion H; subst.
    destruct (Nat.eqb_spec k k0); simpl.
    + subst. destruct (Nat.eqb_spec k0 k'), (Nat.eqb_spec k' k0);
        try reflexivity; congruence.
    + destruct (Nat.ltb_spec k k0); simpl.
      * destruct (Nat.eqb_spec k k'), (Nat.eqb_spec k' k);
          try reflexivity; congruence.
      * rewrite IH by assumption.
        destruct (Nat.eqb_spec k0 k'), (Nat.eqb_spec k' k);
          try reflexivity; congruence.
Qed.

Lemma countOf_app (c d : Counts) (k : nat) :
  countOf (c ++ d) k =
  match countOf c k with Some n => Some n | None => countOf d k end.
Proof.
  induction c as [|[k' n] c IH]; simpl; [reflexivity|].
  destruct (Nat.eqb k' k); auto.
Qed.

Lemma countOf_key_lt (c : Counts) (k hi : nat) (n : Z) :
  Forall (fun a => (a < hi)%nat) (map fst c) ->
  countOf c k = Some n -> (k < hi)%nat.
Proof.
  induction c as [|[k' m] c IH]; simpl; intros H Hc; [discriminate|].
  inversion H; subst.
  destruct (Nat.eqb_spec k' k); [subst; assumption|auto].
Qed.

Lemma countOf_above (c : Counts) (hi : nat) :
  Forall (fun a => (a < hi)%nat) (map fst c) -> countOf c hi = None.
Proof.
  intros H. destruct (countOf c hi) eqn:E; [|reflexivity].
  apply countOf_key_lt with (hi := hi) in E; [lia|assumption].
Qed.

Lemma sortedKeys_snoc (c : Counts) (k : nat) (n : Z) :
  sortedKeys (c ++ [(k, n)]) ->
  sortedKeys c /\ Forall (fun a => (a < k)%nat) (map fst c).
Proof.
  unfold sortedKeys.
  induction c as [|[k' m] c IH]; simpl; intros H.
  - split; constructor.
  - inversion H; subst. destruct (IH H2) as [Hs Hf].
    split; constructor; auto.
    + rewrite map_app, Forall_app in H3. tauto.
    + rewrite map_app, Forall_app in H3. destruct H3 as [_ H3].
      inversion H3; subst. assumption.
Qed.

Lemma chooseInv_snoc (latest : option nat) (c : Counts) (k : nat) (n : Z)
    (best : option nat * Z) :
  Forall (fun a => (a < k)%nat) (map fst c) -> (0 <= n)%Z ->
  chooseInv latest c best ->
  chooseInv latest (c ++ [(k, n)]) (chooseStep latest best (k, n)).
Proof.
  intros Hk Hn Hinv.
  assert (Hnew : countOf c k = None) by (apply countOf_above; assumption).
  assert (Hlook : forall k' n', countOf (c ++ [(k, n)]) k' = Some n' ->
            countOf c k' = Some n' \/ (k' = k /\ n' = n /\ countOf c k' = None)).
  { intros k' n'. rewrite countOf_app. destruct (countOf c k') eqn:E.
    - intros H; left; assumption.
    - simpl. destruct (Nat.eqb_spec k k'); [|discriminate].
      intros H; inversion H; subst. right; auto. }
  assert (Hkk : countOf (c ++ [(k, n)]) k = Some n).
  { rewrite countOf_app, Hnew. simpl. rewrite Nat.eqb_refl. reflexivity. }
  assert (Hold : forall k' n', countOf c k' = Some n' ->
            countOf (c ++ [(k, n)]) k' = Some n').
  { intros k' n' H. rewrite countOf_app, H. reflexivity. }
  destruct c as [|kv c'].
  - simpl in Hinv. subst best. unfold chooseStep.
    destruct (Z.ltb_spec (-1) n); [|lia].
    simpl. exists k, n. rewrite Nat.eqb_refl.
    splits; auto.
    + intros k' n'. destruct (Nat.eqb_spec k k'); [|discriminate].
      intros H'; inversion H'; lia.
    + intros l _. destruct (Nat.eqb_spec k l); [auto|discriminate].
    + intros _ k'. destruct (Nat.eqb_spec k k'); [lia|discriminate].
  - remember (kv :: c') as c eqn:Ec.
    assert (Hshape : exists kv' c'', c ++ [(k, n)] = kv' :: c'').
    { subst c. simpl. eauto. }
    destruct Hshape as (kv' & c'' & Hshape).
    unfold chooseInv in Hinv. rewrite Ec in Hinv. rewrite <- Ec in Hinv.
    destruct Hinv as (s & m & Hbest & Hs & Hmax & Htie & Hmin).
    unfold chooseInv. rewrite Hshape. rewrite <- Hshape.
    subst best. unfold chooseStep.
    destruct (Z.ltb_spec m n) as [Hlt|Hge].
    + exists k, n. splits; auto.
      * intros k' n' H. apply Hlook in H. destruct H as [H|(_ & -> & _)]; [|lia].
        apply Hmax in H. lia.
      * intros l _ H. apply Hlook in H. destruct H as [H|(-> & _)]; [|reflexivity].
        apply Hmax in H. lia.
      * intros _ k' H. apply Hlook in H. destruct H as [H|(-> & _)]; [|lia].
        apply Hmax in H. lia.
    + destruct (Z.eqb_spec n m) as [Heq|Hne]; simpl.
      * destruct (slotIs k latest) eqn:Hl.
        -- exists k, m. subst n. splits; auto.
           ++ intros k' n' H. apply Hlook in H.
              destruct H as [H|(_ & -> & _)]; [eauto|lia].
           ++ intros l Hlat _. unfold slotIs in Hl. rewrite Hlat in Hl.
              apply Nat.eqb_eq in Hl. assumption.
           ++ intros Hno. exfalso. unfold slotIs in Hl.
              destruct latest as [l|]; [|discriminate].
              apply Nat.eqb_eq in Hl. subst l.
              apply (Hno k eq_refl). assumption.
        -- exists s, m. subst n. splits; auto.
           ++ intros k' n' H. apply Hlook in H.
              destruct H as [H|(_ & -> & _)]; [eauto|lia].
           ++ intros l Hlat H. apply Hlook in H.
              destruct H as [H|(-> & _)]; [eauto|].
              unfold slotIs in Hl. rewrite Hlat, Nat.eqb_refl in Hl. discriminate.
           ++ intros Hno k' H. apply Hlook in H.
              destruct H as [H|(-> & _)].
              ** apply Hmin; [|assumption].
                 intros l Hlat Hc. apply (Hno l Hlat). auto.
              ** apply countOf_key_lt with (hi := k) in Hs; [lia|assumption].
      * exists s, m. splits; auto.
        -- intros k' n' H. apply Hlook in H.
           destruct H as [H|(_ & -> & _)]; [eauto|lia].
        -- intros l Hlat H. apply Hlook in H.
           destruct H as [H|(_ & H & _)]; [eauto|congruence].
        -- intros Hno k' H. apply Hlook in H.
           destruct H as [H|(_ & H & _)]; [|congruence].
           apply Hmin; [|assumption].
           intros l Hlat Hc. apply (Hno l Hlat). auto.
Qed.

Lemma choose_fold_inv (latest : option nat) (c : Counts) :
  sortedKeys c ->
  (forall k n, countOf c k = Some n -> (0 <= n)%Z) ->
  chooseInv latest c (fold_left (chooseStep latest) c (None, (-1)%Z)).
Proof.
  induction c as [|[k n] c IH] using rev_ind; intros Hs Hpos.
  - reflexivity.
  - rewrite fold_left_app. simpl.
    apply sortedKeys_snoc in Hs. destruct Hs as [Hs Hk].
    apply chooseInv_snoc; [assumption| |].
    + apply (Hpos k). rewrite countOf_app, countOf_above by assumption.
      simpl. rewrite Nat.eqb_refl. reflexivity.
    + apply IH; [assumption|].
      intros k' n' H. apply (Hpos k'). rewrite countOf_app, H. reflexivity.
Qed.

Lemma buildEntry_snoc (obs : list Observation) (o : Observation) :
  buildEntry (obs ++ [o]) = recordSlot (buildEntry obs) o.
Proof. unfold buildEntry. rewrite fold_left_app. reflexivity. Qed.

Lemma occurrences_snoc (s : nat) (obs : list Observation) (o : Observation) :
  occurrences s (obs ++ [o]) =
  (occurrences s obs
   + if recorded o && Nat.eqb (obsSlot o) s then 1 else 0)%Z.
Proof.
  unfold occurrences. rewrite filter_app, length_app. simpl.
  destruct (recorded o && Nat.eqb (obsSlot o) s); simpl; lia.
Qed.

Lemma occurrences_nonneg (s : nat) (obs : list Observation) :
  (0 <= occurrences s obs)%Z.
Proof. unfold occurrences. lia. Qed.

Lemma recordSlot_skip (e : option Entry) (o : Observation) :
  recorded o = false -> recordSlot e o = e.
Proof.
  unfold recorded, recordSlot. intros H.
  apply negb_false_iff in H. rewrite H. reflexivity.
Qed.

Lemma entry_inv (obs : list Observation) : entryInv obs (buildEntry obs).
Proof.
  induction obs as [|o obs IH] using rev_ind.
  - simpl. intros s. reflexivity.
  - rewrite buildEntry_snoc.
    destruct (recorded o) eqn:Hrec.
    + assert (Hcount : match buildEntry obs with
                       | Some entry => countOf (counts entry) (obsSlot o)
                       | None => None
                       end = if (occurrences (obsSlot o) obs =? 0)%Z then None
                             else Some (occurrences (obsSlot o) obs)).
      { destruct (buildEntry obs) as [entry|]; simpl in IH.
        - apply IH.
        - rewrite IH. reflexivity. }
      assert (Hsorted : sortedKeys
                (counts match buildEntry obs with
                        | Some entry => entry | None => emptyEntry end)).
      { destruct (buildEntry obs) as [entry|]; simpl in IH.
        - apply IH.
        - constructor. }
      assert (Hcounts : forall s,
                countOf (counts match buildEntry obs with
                                | Some entry => entry | None => emptyEntry end) s
                = if (occurrences s obs =? 0)%Z then None
                  else Some (occurrences s obs)).
      { destruct (buildEntry obs) as [entry|]; simpl in IH.
        - apply IH.
        - intros s. rewrite IH. reflexivity. }
      unfold recordSlot. unfold recorded in Hrec.
      apply negb_true_iff in Hrec. rewrite Hrec.
      set (entry := match buildEntry obs with
                    | Some entry => entry | None => emptyEntry end) in *.
      set (cs := setCount (counts entry) (obsSlot o)
                   (match countOf (counts entry) (obsSlot o) with
                    | Some n => n | None => 0%Z end + 1)).
      assert (Hn : (match countOf (counts entry) (obsSlot o) with
                    | Some n => n | None => 0%Z end + 1
                    = occurrences (obsSlot o) (obs ++ [o]))%Z).
      { rewrite occurrences_snoc. unfold recorded. rewrite Hrec.
        simpl. rewrite Nat.eqb_refl. rewrite Hcounts.
        destruct (Z.eqb_spec (occurrences (obsSlot o) obs) 0); lia. }
      assert (Hcs : sortedKeys cs /\
                forall s, countOf cs s =
                  if (occurrences s (obs ++ [o]) =? 0)%Z then None
                  else Some (occurrences s (obs ++ [o]))).
      { split; [apply setCount_sorted; assumption|].
        intros s. unfold cs. rewrite countOf_setCount by assumption.
        rewrite Hn. pose proof (occurrences_nonneg (obsSlot o) obs) as Hp.
        rewrite !occurrences_snoc. unfold recorded. rewrite Hrec. simpl.
        rewrite (Nat.eqb_sym (obsSlot o) s).
        destruct (Nat.eqb_spec s (obsSlot o)) as [->|Hne].
        - rewrite Nat.eqb_refl.
          destruct (Z.eqb_spec (occurrences (obsSlot o) obs + 1) 0); [lia|].
          reflexivity.
        - rewrite Hcounts. rewrite Z.add_0_r. reflexivity. }
      assert (Hnew : (0 < occurrences (obsSlot o) (obs ++ [o]))%Z).
      { rewrite <- Hn. rewrite Hcounts.
        pose proof (occurrences_nonneg (obsSlot o) obs).
        destruct (Z.eqb_spec (occurrences (obsSlot o) obs) 0); lia. }
      destruct (noDate (latestGameDate entry)
                || dateGe (obsGameDate o) (latestGameDate entry)) eqn:Hd;
        simpl; (split; [apply Hcs|split; [apply Hcs|]]).
      * exists (obsSlot o). split; [reflexivity|assumption].
      * unfold entry in *. destruct (buildEntry obs) as [e0|]; simpl in *.
        -- destruct IH as (_ & _ & l & Hl & Hpos). exists l.
           split; [assumption|]. rewrite occurrences_snoc.
           destruct (recorded o && Nat.eqb (obsSlot o) l); lia.
        -- discriminate.
    + rewrite recordSlot_skip by assumption.
      destruct (buildEntry obs) as [entry|]; simpl in *.
      * destruct IH as (Hs & Hc & l & Hl & Hpos).
        split; [assumption|]. split.
        -- intros s. rewrite occurrences_snoc, Hrec. simpl.
           rewrite Z.add_0_r. apply Hc.
        -- exists l. split; [assumption|].
           rewrite occurrences_snoc, Hrec. simpl. lia.
      * intros s. rewrite occurrences_snoc, Hrec. simpl. rewrite IH. reflexivity.
Qed.

(** The projected slot has the most recorded lines; the latest slot wins a
    tie it is part of, and the lowest slot wins a tie it is not part of. *)
Lemma projectSlot_spec (obs : list Observation) :
  match projectSlot obs with
  | None => forall s, occurrences s obs = 0%Z
  | Some s =>
      tiedForMost s obs
      /\ (forall l, latestOf obs = Some l -> tiedForMost l obs -> s = l)
      /\ ((forall l, latestOf obs = Some l -> ~ tiedForMost l obs) ->
          forall s', tiedForMost s' obs -> (s <= s')%nat)
  end.
Proof.
  unfold projectSlot, latestOf.
  pose proof (entry_inv obs) as Hinv.
  destruct (buildEntry obs) as [entry|]; simpl in Hinv; [|assumption].
  destruct Hinv as (Hsorted & Hcounts & l0 & Hl0 & Hpos0).
  assert (Hpos : forall k n, countOf (counts entry) k = Some n -> (0 <= n)%Z).
  { intros k n. rewrite Hcounts. pose proof (occurrences_nonneg k obs).
    destruct (Z.eqb_spec (occurrences k obs) 0); [discriminate|].
    intros H'; inversion H'; lia. }
  assert (Hocc : forall k, (0 < occurrences k obs)%Z ->
            countOf (counts entry) k = Some (occurrences k obs)).
  { intros k Hk. rewrite Hcounts.
    destruct (Z.eqb_spec (occurrences k obs) 0); [lia|reflexivity]. }
  assert (Hocc' : forall k n, countOf (counts entry) k = Some n ->
            n = occurrences k obs /\ (0 < n)%Z).
  { intros k n. rewrite Hcounts. pose proof (occurrences_nonneg k obs).
    destruct (Z.eqb_spec (occurrences k obs) 0); [discriminate|].
    intros H'; inversion H'; lia. }
  pose proof (choose_fold_inv (latestSlot entry) (counts entry) Hsorted Hpos)
    as Hch.
  unfold chooseProjectedOrder.
  destruct (counts entry) as [|kv c] eqn:Ec.
  { specialize (Hocc l0 Hpos0). discriminate. }
  rewrite <- Ec in *. unfold chooseInv in Hch. rewrite Ec in Hch.
  rewrite <- Ec in Hch.
  destruct Hch as (s & m & -> & Hs & Hmax & Htie & Hmin). simpl.
  destruct (Hocc' s m Hs) as [Hm Hmpos].
  assert (Htied : forall k, tiedForMost k obs <-> countOf (counts entry) k = Some m).
  { intros k. split.
    - intros [Hk Hall]. rewrite (Hocc k Hk). f_equal.
      specialize (Hall s). specialize (Hmax k _ (Hocc k Hk)). lia.
    - intros Hk. destruct (Hocc' k m Hk) as [Hkm _]. split; [lia|].
      intros s'. pose proof (occurrences_nonneg s' obs).
      destruct (Z.eq_dec (occurrences s' obs) 0) as [Hz|Hz]; [lia|].
      assert (Hs' : (0 < occurrences s' obs)%Z) by lia.
      specialize (Hmax s' _ (Hocc s' Hs')). lia. }
  split; [apply Htied; assumption|]. split.
  - intros l Hl Ht. apply Htie; [assumption|]. apply Htied. assumption.
  - intros Hno s' Hs'. apply Hmin; [|apply Htied; assumption].
    intros l Hl Hc. apply (Hno l Hl). apply Htied. assumption.
Qed.

Lemma chronological_snoc (obs : list Observation) (o : Observation) :
  chronological (obs ++ [o]) ->
  chronological obs
  /\ forall o', In o' obs ->
       String.leb (obsGameDate o') (obsGameDate o) = true.
Proof.
  induction obs as [|a obs IH]; simpl.
  - intros _. split; [exact I|]. intros o' [].
  - intros [Ha Hrest]. destruct (IH Hrest) as [Hc Hle]. split.
    + split; [|assumption]. intros o' Ho'. apply Ha.
      apply in_or_app. left; assumption.
    + intros o' [<-|Ho']; [|auto].
      apply Ha. apply in_or_app. right. left. reflexivity.
Qed.

Lemma lastRecordedSlot_snoc (obs : list Observation) (o : Observation) :
  lastRecordedSlot (obs ++ [o]) =
  if recorded o then Some (obsSlot o) else lastRecordedSlot obs.
Proof.
  unfold lastRecordedSlot. rewrite filter_app. simpl.
  destruct (recorded o).
  - rewrite rev_app_distr. reflexivity.
  - rewrite app_nil_r. reflexivity.
Qed.

(** In chronological order every recorded line becomes the latest. *)
Lemma latest_chronological (obs : list Observation) :
  chronological obs ->
  match buildEntry obs with
  | None => lastRecordedSlot obs = None
  | Some entry =>
      exists o, In o obs
        /\ latestGameDate entry = Some (obsGameDate o)
        /\ latestSlot entry = Some (obsSlot o)
        /\ lastRecordedSlot obs = Some (obsSlot o)
  end.
Proof.
  induction obs as [|o obs IH] using rev_ind; intros Hc.
  - reflexivity.
  - apply chronological_snoc in Hc. destruct Hc as [Hc Hle].
    specialize (IH Hc). rewrite buildEntry_snoc, lastRecordedSlot_snoc.
    destruct (recorded o) eqn:Hrec.
    + unfold recordSlot. unfold recorded in Hrec.
      apply negb_true_iff in Hrec. rewrite Hrec.
      assert (Hupd : noDate (latestGameDate
                       match buildEntry obs with
                       | Some entry => entry | None => emptyEntry end)
                     || dateGe (obsGameDate o) (latestGameDate
                          match buildEntry obs with
                          | Some entry => entry | None => emptyEntry end)
                     = true).
      { destruct (buildEntry obs) as [entry|]; [|reflexivity].
        destruct IH as (o' & Hin & Hd & _). rewrite Hd. simpl.
        rewrite (Hle o' Hin). apply orb_true_r. }
      rewrite Hupd. exists o. simpl. repeat split; auto.
      apply in_or_app. right. left. reflexivity.
    + rewrite recordSlot_skip by assumption.
      destruct (buildEntry obs) as [entry|]; [|assumption].
      destruct IH as (o' & Hin & Hd & Hs & Hl). exists o'.
      repeat split; auto. apply in_or_app. left; assumption.
Qed.

Lemma latestOf_chronological (obs : list Observation) :
  chronological obs -> latestOf obs = lastRecordedSlot obs.
Proof.
  intros Hc. apply latest_chronological in Hc. unfold latestOf.
  destruct (buildEntry obs) as [entry|]; [|symmetry; assumption].
  destruct Hc as (o & _ & _ & Hs & Hl). congruence.
Qed.

Lemma occurrences_zero (obs : list Observation) :
  (forall o, In o obs -> recorded o = false) ->
  forall s, occurrences s obs = 0%Z.
Proof.
  intros H s. unfold occurrences.
  induction obs as [|o obs IH]; [reflexivity|]. simpl.
  rewrite (H o (or_introl eq_refl)). simpl. apply IH.
  intros o' Ho'. apply H. right; assumption.
Qed.

Lemma occurrences_pos (obs : list Observation) (o : Observation) :
  In o obs -> recorded o = true -> (0 < occurrences (obsSlot o) obs)%Z.
Proof.
  intros Hin Hrec. unfold occurrences.
  assert (Hf : In o (filter
             (fun o' => recorded o' && Nat.eqb (obsSlot o') (obsSlot o)) obs)).
  { apply filter_In. split; [assumption|].
    rewrite Hrec, Nat.eqb_refl. reflexivity. }
  destruct (filter _ obs); [destruct Hf|]. simpl. lia.
Qed.

(** C7: the projector returns a slot with the highest number of recorded
    lines; when the slot of the most recent line is among the slots tied for
    that number it is the one returned (counts {3:4, 5:4} with latest slot 5
    give 5, counts {2:5, 4:2} give 2); without a recorded line the result
    is null.  For lines in chronological order the latest slot of the fold
    is the slot of the last recorded line. *)
Theorem projectSlot_mode_latest :
  (forall obs, (forall o, In o obs -> recorded o = false) ->
     projectSlot obs = None)
  /\ (forall obs, (exists o, In o obs /\ recorded o = true) ->
        exists s, projectSlot obs = Some s
          /\ tiedForMost s obs
          /\ forall l, latestOf obs = Some l -> tiedForMost l obs -> s = l)
  /\ (forall obs, chronological obs -> latestOf obs = lastRecordedSlot obs)
  /\ chooseProjectedOrder [(3%nat, 4%Z); (5%nat, 4%Z)] (Some 5%nat) = Some 5%nat
  /\ (forall latest,
        chooseProjectedOrder [(2%nat, 5%Z); (4%nat, 2%Z)] latest = Some 2%nat)
  /\ (option_map counts (buildEntry obsTieLatest)
        = Some [(3%nat, 4%Z); (5%nat, 4%Z)]
      /\ latestOf obsTieLatest = Some 5%nat
      /\ projectSlot obsTieLatest = Some 5%nat)
  /\ (option_map counts (buildEntry obsClearMode)
        = Some [(2%nat, 5%Z); (4%nat, 2%Z)]
      /\ projectSlot obsClearMode = Some 2%nat)
  /\ projectSlot [] = None.
Proof.
  split; [|split; [|split; [|split; [|split; [|split; [|split]]]]]].
  - intros obs Hnone. pose proof (projectSlot_spec obs) as H.
    destruct (projectSlot obs) as [s|]; [|reflexivity].
    destruct H as [[Hpos _] _].
    rewrite (occurrences_zero obs Hnone s) in Hpos. lia.
  - intros obs (o & Hin & Hrec). pose proof (projectSlot_spec obs) as H.
    destruct (projectSlot obs) as [s|].
    + exists s. destruct H as (Ht & Hl & _). auto.
    + pose proof (occurrences_pos obs o Hin Hrec) as Hp.
      rewrite H in Hp. lia.
  - apply latestOf_chronological.
  - reflexivity.
  - intros latest. unfold chooseProjectedOrder. simpl.
    destruct latest as [l|]; simpl; [|reflexivity].
    destruct l as [|[|[|[|[|l]]]]]; reflexivity.
  - repeat split; reflexivity.
  - repeat split; reflexivity.
  - reflexivity.
Qed.

Lemma obsTieOther_occurrences (s : nat) :
  occurrences s obsTieOther =
  match s with
  | 2%nat | 3%nat => 2%Z
  | 5%nat => 1%Z
  | _ => 0%Z
  end.
Proof. do 6 (destruct s as [|s]; [reflexivity|]). reflexivity. Qed.

Lemma obsTieOther_tied (s : nat) :
  tiedForMost s obsTieOther <-> s = 2%nat \/ s = 3%nat.
Proof.
  unfold tiedForMost. split.
  - intros [Hpos Hmax]. specialize (Hmax 2%nat).
    rewrite !obsTieOther_occurrences in *.
    do 6 (destruct s as [|s]; [simpl in *; lia|]). simpl in *. lia.
  - intros [->| ->]; (split; [reflexivity|]); intros s';
      rewrite !obsTieOther_occurrences;
      do 6 (destruct s' as [|s']; [simpl; lia|]); simpl; lia.
Qed.

Lemma obsTieOther_tie : tieWithoutLatest obsTieOther.
Proof.
  split.
  - exists 2%nat, 3%nat. split; [discriminate|].
    split; apply obsTieOther_tied; auto.
  - intros l Hl. assert (l = 5%nat) by (vm_compute in Hl; congruence).
    subst l. rewrite obsTieOther_tied. intros [H|H]; discriminate.
Qed.

(** C8, as the specification states it: with a tie for the highest count
    that the latest slot is not part of, the projector would return the tied
    slot met last in the chronological reading of the lines.  It does not:
    for the slots 2, 2, 3, 3, 5 that slot is 3 and the projector returns 2. *)
Lemma projectSlot_not_last_tied :
  ~ (forall obs s,
       chronological obs -> tieWithoutLatest obs -> lastTiedSlot obs s ->
       projectSlot obs = Some s).
Proof.
  intros H. specialize (H obsTieOther 3%nat).
  assert (Hp : projectSlot obsTieOther = Some 2%nat) by reflexivity.
  rewrite Hp in H. enough (Some 2%nat = Some 3%nat) by discriminate.
  apply H.
  - simpl. repeat split;
      intros o' Ho'; simpl in Ho';
      repeat (destruct Ho' as [<-|Ho']; [reflexivity|]); destruct Ho'.
  - apply obsTieOther_tie.
  - exists [line 2 "2024-06-01"; line 2 "2024-06-02"; line 3 "2024-06-03"],
      [line 5 "2024-06-05"], (line 3 "2024-06-04").
    split; [reflexivity|]. split; [reflexivity|]. split; [reflexivity|].
    split; [apply obsTieOther_tied; auto|].
    intros o' [<-|[]] _. simpl. rewrite obsTieOther_tied.
    intros [H'|H']; discriminate.
Qed.

(** C8, amended: with a tie for the highest count that the latest slot is
    not part of, the projector returns the lowest-numbered tied slot, the
    first one in the ascending key order of the counts. *)
Theorem projectSlot_tie_lowest (obs : list Observation) :
  tieWithoutLatest obs ->
  exists s, projectSlot obs = Some s
    /\ tiedForMost s obs
    /\ forall s', tiedForMost s' obs -> (s <= s')%nat.
Proof.
  intros [(s1 & _ & _ & [Hpos _] & _) Hno].
  pose proof (projectSlot_spec obs) as H.
  destruct (projectSlot obs) as [s|].
  - exists s. destruct H as (Ht & _ & Hmin). auto.
  - rewrite H in Hpos. lia.
Qed.

Lemma projectSlot_tie_lowest_witness :
  tieWithoutLatest obsTieOther
  /\ exists s, projectSlot obsTieOther = Some s
       /\ tiedForMost s obsTieOther
       /\ forall s', tiedForMost s' obsTieOther -> (s <= s')%nat.
Proof.
  split; [apply obsTieOther_tie|].
  apply (projectSlot_tie_lowest obsTieOther). apply obsTieOther_tie.
Defined.

(** ** The head-to-head grid *)

Lemma Rmax_IZR (a b : Z) : Rmax (IZR a) (IZR b) = IZR (Z.max a b).
Proof.
  unfold Rmax. destruct (Rle_dec (IZR a) (IZR b)) as [H|H].
  - apply le_IZR in H. rewrite Z.max_r by assumption. reflexivity.
  - rewrite Z.max_l; [reflexivity|].
    apply Z.lt_le_incl. apply lt_IZR. lra.
Qed.

Lemma Rmin_IZR (a b : Z) : Rmin (IZR a) (IZR b) = IZR (Z.min a b).
Proof.
  unfold Rmin. destruct (Rle_dec (IZR a) (IZR b)) as [H|H].
  - apply le_IZR in H. rewrite Z.min_l by assumption. reflexivity.
  - rewrite Z.min_r; [reflexivity|].
    apply Z.lt_le_incl. apply lt_IZR. lra.
Qed.

Lemma indexOf_IZR (k : Z) : (0 <= k)%Z -> indexOf (IZR k) = Some (Z.to_nat k).
Proof.
  intros H. unfold indexOf. rewrite ZfloorZ.
  destruct (Req_dec_T (IZR k) (IZR k)) as [_|Hn]; [|congruence].
  destruct (Z.leb_spec 0 k); [reflexivity|lia].
Qed.

Lemma h2h_unfold (ab ops : value) :
  h2hWeightFromGrid ab ops =
  clamp (pointsOf (nth (Z.to_nat (atBatsRow ab - 1)) H2H_GRID_POINTS [])
                  (Fin (Rmin 2.0 (Rmax 0.2 (opsOf ops)))) / 100) 0 0.30.
Proof.
  assert (Hrow : gridRow (clamp (nround (if negb (isFinite ab) then 0
                                         else toNumber ab)) 1 25 - 1)
                 = nth (Z.to_nat (atBatsRow ab - 1)) H2H_GRID_POINTS []).
  { unfold gridRow, atBatsRow, atBatsOf.
    assert (E : (if negb (isFinite ab) then Fin 0 else toNumber ab)
                = Fin (if isFinite ab then finPart (toNumber ab) else 0)).
    { destruct ab as [[x| | |]|]; reflexivity. }
    rewrite E. num_fin.
    rewrite Rmax_IZR, Rmin_IZR, <- minus_IZR.
    rewrite indexOf_IZR by lia. reflexivity. }
  assert (Hops : clamp (if negb (isFinite ops) then OPS_BASELINE
                        else toNumber ops) (binAt 0)
                   (binAt (List.length H2H_OPS_BINS - 1))
                 = Fin (Rmin 2.0 (Rmax 0.2 (opsOf ops)))).
  { unfold opsOf, OPS_BASELINE.
    destruct ops as [[x| | |]|]; cbn; apply clamp_fin. }
  unfold h2hWeightFromGrid. cbv zeta. rewrite Hrow, Hops. reflexivity.
Qed.

Lemma pointsOf_interp (r0 r1 r2 r3 r4 r5 r6 r7 r8 r9 r10 r11 : Z) (x : R) :
  0.2 <= x <= 2.0 ->
  pointsOf [r0; r1; r2; r3; r4; r5; r6; r7; r8; r9; r10; r11] (Fin x)
  = Fin (interpRow [r0; r1; r2; r3; r4; r5; r6; r7; r8; r9; r10; r11] x).
Proof.
  intros Hx. unfold pointsOf, interpRow.
  cbn [List.length H2H_OPS_BINS Nat.sub combine interpFrom].
  cbn [findBin binAt nth_error H2H_OPS_BINS Nat.add].
  unfold nge, nle, rle.
  rdec; cbn [andb];
    cbn [cell binAt nth_error H2H_OPS_BINS Nat.add Nat.min List.length Nat.sub];
    unfold ngt, nlt, rlt; rdec; num_fin; f_equal; try lra.
Qed.

Lemma interp_step_bounds (b0 b1 x a b : R) :
  b0 < b1 -> b0 <= x <= b1 ->
  Rmin a b <= a + (x - b0) / (b1 - b0) * (b - a) <= Rmax a b.
Proof.
  intros Hb Hx.
  assert (Hu : 0 <= (x - b0) / (b1 - b0) <= 1).
  { assert (Hi : 0 < / (b1 - b0)) by (apply Rinv_0_lt_compat; lra).
    assert (H1 : (b1 - b0) * / (b1 - b0) = 1) by (apply Rinv_r; lra).
    unfold Rdiv. nra. }
  set (u := (x - b0) / (b1 - b0)) in *.
  unfold Rmin, Rmax. destruct (Rle_dec a b); nra.
Qed.

Lemma interpFrom_bounds (lo hi : Z) (rest : list (R * Z)) :
  forall (b0 : R) (r0 : Z) (x : R),
    binsIncreasing b0 rest -> b0 <= x ->
    (lo <= r0 <= hi)%Z ->
    Forall (fun br => (lo <= snd br <= hi)%Z) rest ->
    IZR lo <= interpFrom b0 r0 rest x <= IZR hi.
Proof.
  induction rest as [|[b1 r1] rest IH]; intros b0 r0 x Hb Hx Hr Hall; simpl.
  - split; apply IZR_le; lia.
  - destruct Hb as [Hb Hrest]. inversion Hall as [|? ? Hr1 Hall']; subst.
    simpl in Hr1. destruct (Rle_dec x b1) as [Hle|Hgt].
    + pose proof (interp_step_bounds b0 b1 x (IZR r0) (IZR r1) Hb
                    (conj Hx Hle)) as Hs.
      assert (IZR lo <= Rmin (IZR r0) (IZR r1)).
      { rewrite Rmin_IZR. apply IZR_le. lia. }
      assert (Rmax (IZR r0) (IZR r1) <= IZR hi).
      { rewrite Rmax_IZR. apply IZR_le. lia. }
      lra.
    + apply IH; auto. lra.
Qed.

Lemma interpFrom_lower (rest : list (R * Z)) :
  forall (b0 : R) (r0 : Z) (x : R),
    binsIncreasing b0 rest -> pointsIncreasing r0 rest -> b0 <= x ->
    IZR r0 <= interpFrom b0 r0 rest x.
Proof.
  induction rest as [|[b1 r1] rest IH]; intros b0 r0 x Hb Hp Hx; simpl.
  - lra.
  - destruct Hb as [Hb Hrest]. destruct Hp as [Hr Hp].
    apply IZR_le in Hr. destruct (Rle_dec x b1) as [Hle|Hgt].
    + pose proof (interp_step_bounds b0 b1 x (IZR r0) (IZR r1) Hb
                    (conj Hx Hle)) as Hs.
      rewrite Rmin_left in Hs by assumption. lra.
    + specialize (IH b1 r1 x Hrest Hp). lra.
Qed.

Lemma interpFrom_mono (rest : list (R * Z)) :
  forall (b0 : R) (r0 : Z) (x y : R),
    binsIncreasing b0 rest -> pointsIncreasing r0 rest ->
    b0 <= x -> x <= y ->
    interpFrom b0 r0 rest x <= interpFrom b0 r0 rest y.
Proof.
  induction rest as [|[b1 r1] rest IH]; intros b0 r0 x y Hb Hp Hx Hxy; simpl.
  - lra.
  - destruct Hb as [Hb Hrest]. destruct Hp as [Hr Hp].
    pose proof (IZR_le _ _ Hr) as Hr'.
    destruct (Rle_dec x b1) as [Hle|Hgt], (Rle_dec y b1) as [Hle'|Hgt'];
      try lra.
    + assert (Hu : (x - b0) / (b1 - b0) <= (y - b0) / (b1 - b0)).
      { apply Rmult_le_compat_r; [|lra].
        apply Rlt_le, Rinv_0_lt_compat. lra. }
      nra.
    + pose proof (interp_step_bounds b0 b1 x (IZR r0) (IZR r1) Hb
                    (conj Hx Hle)) as Hs.
      rewrite Rmax_right in Hs by assumption.
      pose proof (interpFrom_lower rest b1 r1 y Hrest Hp). lra.
    + apply IH; auto. lra.
Qed.

Lemma pointsOf_grid (n : nat) (x : R) :
  (n < 25)%nat -> 0.2 <= x <= 2.0 ->
  pointsOf (nth n H2H_GRID_POINTS []) (Fin x)
  = Fin (interpRow (nth n H2H_GRID_POINTS []) x).
Proof.
  intros Hn Hx.
  do 25 (destruct n as [|n]; [apply pointsOf_interp; assumption|]). lia.
Qed.

Lemma interpRow_grid_bounds (n : nat) (x : R) :
  (n < 25)%nat -> 0.2 <= x ->
  1 <= interpRow (nth n H2H_GRID_POINTS []) x <= 30.
Proof.
  intros Hn Hx.
  do 25 (destruct n as [|n];
         [ unfold interpRow; cbn [nth H2H_GRID_POINTS H2H_OPS_BINS combine];
           apply (interpFrom_bounds 1 30);
           [ cbn; repeat split; lra | lra | lia
           | repeat constructor; cbn; lia ] |]).
  lia.
Qed.

Lemma interpRow_grid_mono (n : nat) (x y : R) :
  (n < 25)%nat -> n <> 3%nat -> 0.2 <= x -> x <= y ->
  interpRow (nth n H2H_GRID_POINTS []) x
  <= interpRow (nth n H2H_GRID_POINTS []) y.
Proof.
  intros Hn H3 Hx Hxy.
  do 3 (destruct n as [|n];
        [ unfold interpRow; cbn [nth H2H_GRID_POINTS H2H_OPS_BINS combine];
          apply interpFrom_mono;
          [ cbn; repeat split; lra | cbn; repeat split; lia | lra | lra ] |]).
  destruct n as [|n]; [congruence|].
  do 21 (destruct n as [|n];
         [ unfold interpRow; cbn [nth H2H_GRID_POINTS H2H_OPS_BINS combine];
           apply interpFrom_mono;
           [ cbn; repeat split; lra | cbn; repeat split; lia | lra | lra ] |]).
  lia.
Qed.

Lemma atBatsRow_range (ab : value) : (1 <= atBatsRow ab <= 25)%Z.
Proof. unfold atBatsRow. lia. Qed.

Lemma round_half_up_IZR (z : Z) : round_half_up (IZR z) = z.
Proof. unfold round_half_up. apply Zfloor_eq. lra. Qed.

(** The share read off the grid: the interpolated points of the row, over
    100. *)
Lemma h2h_value (ab ops : value) :
  h2hWeightFromGrid ab ops =
  Fin (interpRow (nth (Z.to_nat (atBatsRow ab - 1)) H2H_GRID_POINTS [])
                 (Rmin 2.0 (Rmax 0.2 (opsOf ops))) / 100).
Proof.
  pose proof (atBatsRow_range ab) as Hr.
  pose proof (Rclamp_bounds (opsOf ops) 0.2 2.0 ltac:(lra)) as Hx.
  rewrite h2h_unfold, pointsOf_grid by (try lia; lra).
  pose proof (interpRow_grid_bounds (Z.to_nat (atBatsRow ab - 1))
                (Rmin 2.0 (Rmax 0.2 (opsOf ops))) ltac:(lia) ltac:(lra)) as Hp.
  num_fin. f_equal. apply Rclamp_id. lra.
Qed.

Lemma h2h_range (ab ops : value) :
  exists h, h2hWeightFromGrid ab ops = Fin h /\ 0.01 <= h <= 0.30.
Proof.
  pose proof (atBatsRow_range ab) as Hr.
  pose proof (Rclamp_bounds (opsOf ops) 0.2 2.0 ltac:(lra)) as Hx.
  pose proof (interpRow_grid_bounds (Z.to_nat (atBatsRow ab - 1))
                (Rmin 2.0 (Rmax 0.2 (opsOf ops))) ltac:(lia) ltac:(lra)) as Hp.
  rewrite h2h_value. eexists; split; [reflexivity|]. lra.
Qed.

Lemma atBatsRow_IZR (z : Z) :
  atBatsRow (Some (Fin (IZR z))) = Z.min 25 (Z.max 1 z).
Proof.
  unfold atBatsRow, atBatsOf. cbn. rewrite round_half_up_IZR. reflexivity.
Qed.

(** Evaluates the grid lookup at given at-bats and OPS. *)
Ltac h2h_eval :=
  rewrite h2h_value, atBatsRow_IZR;
  match goal with
  | |- context [Z.to_nat ?z] =>
      let n := eval vm_compute in (Z.to_nat z) in change (Z.to_nat z) with n
  end;
  unfold opsOf, interpRow;
  cbn [nth H2H_GRID_POINTS H2H_OPS_BINS combine interpFrom
       isFinite isFiniteN toNumber finPart];
  unfold Rmin, Rmax; rdec; f_equal; lra.

(** Row 4 of the grid, 6 7 11 11 14 17 20 19 20 22 28 30: the points grow
    up to the bin 0.90, fall by one to the bin 0.95 and grow from there
    on. *)
Lemma row4_low (x y : R) :
  0.2 <= x -> x <= y -> y <= 0.90 ->
  interpRow (nth 3 H2H_GRID_POINTS []) x
  <= interpRow (nth 3 H2H_GRID_POINTS []) y.
Proof.
  intros Hx Hxy Hy. unfold interpRow.
  cbn [nth H2H_GRID_POINTS H2H_OPS_BINS combine interpFrom].
  rdec.
Qed.

Lemma row4_high (x y : R) :
  0.95 <= x -> x <= y ->
  interpRow (nth 3 H2H_GRID_POINTS []) x
  <= interpRow (nth 3 H2H_GRID_POINTS []) y.
Proof.
  intros Hx Hxy. unfold interpRow.
  cbn [nth H2H_GRID_POINTS H2H_OPS_BINS combine interpFrom].
  rdec.
Qed.

Lemma row4_peak (x y : R) :
  0.2 <= x -> x <= 1.0 -> 1.0 <= y ->
  interpRow (nth 3 H2H_GRID_POINTS []) x <= 20
  /\ 20 <= interpRow (nth 3 H2H_GRID_POINTS []) y.
Proof.
  intros Hx Hx1 Hy. unfold interpRow.
  cbn [nth H2H_GRID_POINTS H2H_OPS_BINS combine interpFrom].
  split; rdec.
Qed.

Lemma row4_dip (x y : R) :
  0.90 <= x -> x <= y -> y <= 0.95 ->
  interpRow (nth 3 H2H_GRID_POINTS []) y
  <= interpRow (nth 3 H2H_GRID_POINTS []) x.
Proof.
  intros Hx Hxy Hy. unfold interpRow.
  cbn [nth H2H_GRID_POINTS H2H_OPS_BINS combine interpFrom].
  rdec.
Qed.

(** C3, as the specification states it, fails on the grid of the code: row 4
    holds 20 points at OPS 0.90 and 19 at OPS 0.95, so that with 4 at-bats
    the share falls from 0.20 to 0.19 while the OPS grows. *)
Lemma h2hWeight_not_monotone :
  h2hWeightFromGrid (Some (Fin 4)) (Some (Fin 0.90)) = Fin 0.20
  /\ h2hWeightFromGrid (Some (Fin 4)) (Some (Fin 0.95)) = Fin 0.19
  /\ ~ (forall (ab : value) (ops1 ops2 : R),
          ops1 <= ops2 ->
          nle (h2hWeightFromGrid ab (Some (Fin ops1)))
              (h2hWeightFromGrid ab (Some (Fin ops2))) = true).
Proof.
  assert (H1 : h2hWeightFromGrid (Some (Fin 4)) (Some (Fin 0.90)) = Fin 0.20)
    by h2h_eval.
  assert (H2 : h2hWeightFromGrid (Some (Fin 4)) (Some (Fin 0.95)) = Fin 0.19)
    by h2h_eval.
  splits; auto.
  intros H. specialize (H (Some (Fin 4)) 0.90 0.95 ltac:(lra)).
  rewrite H1, H2 in H. unfold nle, rle in H.
  destruct (Rle_dec 0.20 0.19) as [Hn|_]; [lra|discriminate].
Qed.

(** C3: the share lies in [0, 0.30] for all inputs.  For at-bats that do
    not select row 4 of the grid it never decreases when a finite OPS grows.
    In row 4 it never decreases either as long as both OPS values are at
    most 0.90, or both at least 0.95, or the higher one at least 1.0; from
    0.90 to 0.95 it goes down, from 0.20 to 0.19, the one place where the
    code departs from the claim. *)
Theorem h2hWeight_monotone_except_one_cell :
  (forall ab ops,
     exists h, h2hWeightFromGrid ab ops = Fin h /\ 0 <= h <= 0.30)
  /\ (forall (ab : value) (ops1 ops2 : R),
        atBatsRow ab <> 4%Z -> ops1 <= ops2 ->
        nle (h2hWeightFromGrid ab (Some (Fin ops1)))
            (h2hWeightFromGrid ab (Some (Fin ops2))) = true)
  /\ (forall (ab : value) (ops1 ops2 : R),
        atBatsRow ab = 4%Z -> ops1 <= ops2 ->
        ops2 <= 0.90 \/ 0.95 <= ops1 \/ 1.0 <= ops2 ->
        nle (h2hWeightFromGrid ab (Some (Fin ops1)))
            (h2hWeightFromGrid ab (Some (Fin ops2))) = true)
  /\ (forall ab : value,
        atBatsRow ab = 4%Z ->
        h2hWeightFromGrid ab (Some (Fin 0.90)) = Fin 0.20
        /\ h2hWeightFromGrid ab (Some (Fin 0.95)) = Fin 0.19)
  /\ (forall (ab : value) (ops1 ops2 : R),
        atBatsRow ab = 4%Z -> 0.90 <= ops1 -> ops1 <= ops2 -> ops2 <= 0.95 ->
        nle (h2hWeightFromGrid ab (Some (Fin ops2)))
            (h2hWeightFromGrid ab (Some (Fin ops1))) = true).
Proof.
  splits.
  - intros ab ops. destruct (h2h_range ab ops) as (h & Hh & Hb).
    exists h. split; [assumption|lra].
  - intros ab ops1 ops2 Hrow Hle. rewrite !h2h_value.
    pose proof (atBatsRow_range ab) as Hr.
    unfold nle, rle. unfold opsOf. cbn [isFinite isFiniteN toNumber finPart].
    match goal with
    | |- (if Rle_dec ?a ?b then _ else _) = _ =>
        destruct (Rle_dec a b) as [|Hn]; [reflexivity|exfalso; apply Hn]
    end.
    apply Rmult_le_compat_r; [lra|].
    apply interpRow_grid_mono; [lia|lia| |].
    + apply (Rclamp_bounds ops1 0.2 2.0). lra.
    + unfold Rmin, Rmax. rdec.
  - intros ab ops1 ops2 Hrow Hle Hcase. rewrite !h2h_value, Hrow.
    change (Z.to_nat (4 - 1)) with 3%nat.
    unfold nle, rle. unfold opsOf. cbn [isFinite isFiniteN toNumber finPart].
    match goal with
    | |- (if Rle_dec ?a ?b then _ else _) = _ =>
        destruct (Rle_dec a b) as [|Hn]; [reflexivity|exfalso; apply Hn]
    end.
    apply Rmult_le_compat_r; [lra|].
    pose proof (Rclamp_bounds ops1 0.2 2.0 ltac:(lra)) as B1.
    pose proof (Rclamp_bounds ops2 0.2 2.0 ltac:(lra)) as B2.
    assert (Hxy : Rmin 2.0 (Rmax 0.2 ops1) <= Rmin 2.0 (Rmax 0.2 ops2))
      by (unfold Rmin, Rmax; rdec).
    destruct Hcase as [H|[H|H]].
    + apply row4_low; [lra|assumption|unfold Rmin, Rmax; rdec].
    + apply row4_high; [unfold Rmin, Rmax; rdec|assumption].
    + assert (Hy : 1.0 <= Rmin 2.0 (Rmax 0.2 ops2))
        by (unfold Rmin, Rmax; rdec).
      destruct (Rle_dec (Rmin 2.0 (Rmax 0.2 ops1)) 1.0) as [Hx|Hx].
      * destruct (row4_peak _ _ (proj1 B1) Hx Hy). lra.
      * apply row4_high; [lra|assumption].
  - intros ab Hrow. rewrite !h2h_value, Hrow.
    change (Z.to_nat (4 - 1)) with 3%nat.
    unfold opsOf, interpRow.
    cbn [nth H2H_GRID_POINTS H2H_OPS_BINS combine interpFrom
         isFinite isFiniteN toNumber finPart].
    unfold Rmin, Rmax. split; rdec; f_equal; lra.
  - intros ab ops1 ops2 Hrow H1 Hlt H2. rewrite !h2h_value, Hrow.
    change (Z.to_nat (4 - 1)) with 3%nat.
    unfold nle, rle. unfold opsOf. cbn [isFinite isFiniteN toNumber finPart].
    match goal with
    | |- (if Rle_dec ?a ?b then _ else _) = _ =>
        destruct (Rle_dec a b) as [|Hn]; [reflexivity|exfalso; apply Hn]
    end.
    apply Rmult_le_compat_r; [lra|].
    replace (Rmin 2.0 (Rmax 0.2 ops1)) with ops1 by (unfold Rmin, Rmax; rdec).
    replace (Rmin 2.0 (Rmax 0.2 ops2)) with ops2 by (unfold Rmin, Rmax; rdec).
    apply row4_dip; assumption.
Qed.

(** ** The composite scorer: the weights *)

Lemma sqrt_unit (x : R) : 0 <= x <= 1 -> 0 <= sqrt x <= 1.
Proof.
  intros [H0 H1]. split; [apply sqrt_pos|].
  rewrite <- sqrt_1. apply sqrt_le_1_alt. assumption.
Qed.

Lemma last7_range (b : SignalBundle) :
  exists l, last7Dynamic SCORE_WEIGHTS b = Fin l /\ 0.05 <= l <= 0.10.
Proof.
  unfold last7Dynamic. cbn [SCORE_WEIGHTS w_last7].
  assert (Hhalf : exists l, (Fin 0.10 * Fin 0.50)%num = Fin l /\ 0.05 <= l <= 0.10).
  { num_fin. eexists; split; [reflexivity|lra]. }
  destruct (paLast7 b) as [[p| | |]|]; try exact Hhalf.
  - destruct (nge p 3 && isFinite (opsLast7 b)); [|exact Hhalf].
    num_fin.
    pose proof (Rclamp_bounds ((p - 3) / (20 - 3)) 0 1 ltac:(lra)) as Hc.
    rewrite nsqrt_fin by lra. num_fin.
    pose proof (sqrt_unit _ Hc) as Hs.
    eexists; split; [reflexivity|]. nra.
  - cbn [nge nle andb]. destruct (isFinite (opsLast7 b)); [|exact Hhalf].
    assert (E : clamp ((PInf - 3) / (20 - 3)) 0 1 = Fin 1).
    { unfold_num. rdec; reflexivity. }
    rewrite E. rewrite nsqrt_fin by lra. rewrite sqrt_1. num_fin.
    eexists; split; [reflexivity|lra].
Qed.

Lemma sumFinite_fin_from (l : list R) (a : R) :
  fold_left (fun a b => (a + (if isFiniteN b then b else 0))%num)
            (map Fin l) (Fin a)
  = Fin (fold_left Rplus l a).
Proof.
  revert a. induction l as [|x l IH]; intros a.
  - reflexivity.
  - simpl. apply IH.
Qed.

Lemma sumFinite_fin (l : list R) :
  sumFinite (map Fin l) = Fin (fold_left Rplus l 0).
Proof. apply sumFinite_fin_from. Qed.

(** The resolved weights, by the two dynamic weights. *)
Lemma resolveWeights_value (h l : R) :
  0.01 <= h <= 0.30 -> 0.05 <= l <= 0.10 ->
  let sc := (0.65 - h) / (0.25 + l) in
  resolveWeights SCORE_WEIGHTS (Fin h) (Fin l) =
  {| w_wtb := 0.30;
     w_h9_side := Fin (0.04 * sc);
     w_h9_28 := Fin (0.02 * sc);
     w_ops_hand := Fin (0.15 * sc);
     w_ops_site := Fin (0.04 * sc);
     w_last7 := Fin (Rmin (l * sc) 0.10);
     w_opp := 0.05;
     w_h2h := Fin h |}.
Proof.
  intros Hh Hl sc. unfold resolveWeights.
  cbn [SCORE_WEIGHTS w_wtb w_h9_side w_h9_28 w_ops_hand w_ops_site w_last7
       w_opp w_h2h].
  change [Fin 0.04; Fin 0.02; Fin 0.15; Fin 0.04; Fin l]
    with (map Fin [0.04; 0.02; 0.15; 0.04; l]).
  rewrite sumFinite_fin. cbn [fold_left].
  assert (Hgt : ngt (Fin (0 + 0.04 + 0.02 + 0.15 + 0.04 + l)) 0 = true).
  { unfold ngt, nlt, rlt. rdec; reflexivity. }
  rewrite Hgt. num_fin.
  assert (Hsc : Rmax 0 (1 - (0.30 + 0.05 + h))
                / (0 + 0.04 + 0.02 + 0.15 + 0.04 + l) = sc).
  { rewrite Rmax_right by lra. unfold sc. f_equal; lra. }
  rewrite Hsc. reflexivity.
Qed.

Lemma scale_pos (h l : R) :
  0.01 <= h <= 0.30 -> 0.05 <= l <= 0.10 ->
  0 < (0.65 - h) / (0.25 + l) /\ (0.25 + l) * ((0.65 - h) / (0.25 + l)) = 0.65 - h.
Proof.
  intros Hh Hl. split.
  - apply Rdiv_lt_0_compat; lra.
  - field. lra.
Qed.

Lemma h2hDynamic_range (b : SignalBundle) :
  exists h, h2hDynamic b = Fin h /\ 0.01 <= h <= 0.30.
Proof. unfold h2hDynamic. apply h2h_range. Qed.

Lemma weightsOf_value (b : SignalBundle) :
  exists h l,
    0.01 <= h <= 0.30 /\ 0.05 <= l <= 0.10
    /\ h2hDynamic b = Fin h
    /\ last7Dynamic SCORE_WEIGHTS b = Fin l
    /\ weightsOf b =
       {| w_wtb := 0.30;
          w_h9_side := Fin (0.04 * ((0.65 - h) / (0.25 + l)));
          w_h9_28 := Fin (0.02 * ((0.65 - h) / (0.25 + l)));
          w_ops_hand := Fin (0.15 * ((0.65 - h) / (0.25 + l)));
          w_ops_site := Fin (0.04 * ((0.65 - h) / (0.25 + l)));
          w_last7 := Fin (Rmin (l * ((0.65 - h) / (0.25 + l))) 0.10);
          w_opp := 0.05;
          w_h2h := Fin h |}.
Proof.
  destruct (h2hDynamic_range b) as (h & Hh & Hhb).
  destruct (last7_range b) as (l & Hl & Hlb).
  exists h, l.
  split; [exact Hhb|]. split; [exact Hlb|].
  split; [exact Hh|]. split; [exact Hl|].
  unfold weightsOf. rewrite Hh, Hl.
  apply resolveWeights_value; assumption.
Qed.

Lemma bundleCapped_h2h : h2hDynamic bundleCapped = Fin 0.01.
Proof. unfold h2hDynamic. cbn [bundleCapped ab_vs_pitcher ops_vs_pitcher]. h2h_eval. Qed.

Lemma bundleCapped_weights :
  weightsOf bundleCapped =
  {| w_wtb := 0.30;
     w_h9_side := Fin (0.04 * ((0.65 - 0.01) / (0.25 + 0.05)));
     w_h9_28 := Fin (0.02 * ((0.65 - 0.01) / (0.25 + 0.05)));
     w_ops_hand := Fin (0.15 * ((0.65 - 0.01) / (0.25 + 0.05)));
     w_ops_site := Fin (0.04 * ((0.65 - 0.01) / (0.25 + 0.05)));
     w_last7 := Fin (Rmin (0.05 * ((0.65 - 0.01) / (0.25 + 0.05))) 0.10);
     w_opp := 0.05;
     w_h2h := Fin 0.01 |}.
Proof.
  unfold weightsOf. rewrite bundleCapped_h2h.
  replace (last7Dynamic SCORE_WEIGHTS bundleCapped) with (Fin 0.05).
  - apply resolveWeights_value; lra.
  - unfold last7Dynamic. cbn [bundleCapped paLast7 SCORE_WEIGHTS w_last7].
    num_fin. f_equal. lra.
Qed.

(** C4, as the specification states it: the eight resolved weights would
    always sum to exactly 1.  For 20 at-bats at an OPS of 0.20 and no data on
    the last seven days the rescaled last7 weight 0.05 * 0.64 / 0.30 exceeds
    0.10, the cap cuts it, and the weights sum to 149/150. *)
Lemma weights_sum_below_one :
  weightSum (weightsOf bundleCapped) = Fin (149 / 150)
  /\ ~ (forall b, weightSum (weightsOf b) = Fin 1).
Proof.
  assert (H : weightSum (weightsOf bundleCapped) = Fin (149 / 150)).
  { rewrite bundleCapped_weights. unfold weightSum.
    cbn [w_wtb w_h9_side w_h9_28 w_ops_hand w_ops_site w_last7 w_opp w_h2h].
    num_fin. f_equal. rewrite Rmin_right by lra. lra. }
  split; [exact H|].
  intros Hall. rewrite (Hall bundleCapped) in H.
  inversion H. lra.
Qed.

(** C4, amended: after redistribution the weight of [wtb] is 0.30 and the
    weight of [opp] is 0.05, the head-to-head weight is the share [h] of the
    grid, the weights of h9_side, h9_28, ops_hand and ops_site are their base
    values times the one factor [sc] = (0.65 - h) / (0.25 + l), and the
    last7 weight is its rescaled value [l * sc] capped at its base value
    0.10.  The eight weights sum to 1 minus the part the cap cuts off, which
    no other weight receives: to exactly 1 when the rescaled last7 weight is
    at most 0.10, to less than 1 when it is more. *)
Theorem resolved_weights_invariant (b : SignalBundle) :
  w_wtb (weightsOf b) = Fin 0.30
  /\ w_opp (weightsOf b) = Fin 0.05
  /\ exists h l sc l7 s : R,
       h2hDynamic b = Fin h
       /\ last7Dynamic SCORE_WEIGHTS b = Fin l
       /\ sc = (0.65 - h) / (0.25 + l)
       /\ w_h2h (weightsOf b) = Fin h
       /\ w_h9_side (weightsOf b) = Fin (0.04 * sc)
       /\ w_h9_28 (weightsOf b) = Fin (0.02 * sc)
       /\ w_ops_hand (weightsOf b) = Fin (0.15 * sc)
       /\ w_ops_site (weightsOf b) = Fin (0.04 * sc)
       /\ w_last7 (weightsOf b) = Fin l7
       /\ l7 = Rmin (l * sc) 0.10 /\ 0 < l7 <= 0.10
       /\ weightSum (weightsOf b) = Fin s
       /\ s = 1 - (l * sc - l7)
       /\ (l * sc <= 0.10 -> s = 1)
       /\ (0.10 < l * sc -> s < 1).
Proof.
  destruct (weightsOf_value b) as (h & l & Hh & Hl & Hhd & Hld & Hw).
  rewrite Hw. unfold weightSum.
  cbn [w_wtb w_h9_side w_h9_28 w_ops_hand w_ops_site w_last7 w_opp w_h2h].
  destruct (scale_pos h l Hh Hl) as [Hpos Hsc].
  set (sc := (0.65 - h) / (0.25 + l)) in *.
  split; [reflexivity|]. split; [reflexivity|].
  exists h, l, sc, (Rmin (l * sc) 0.10). eexists.
  split; [exact Hhd|]. split; [exact Hld|]. split; [reflexivity|].
  do 6 (split; [reflexivity|]). split; [reflexivity|].
  split; [unfold Rmin; destruct (Rle_dec (l * sc) 0.10); nra|].
  split; [num_fin; reflexivity|].
  unfold Rmin. destruct (Rle_dec (l * sc) 0.10); splits; intros; nra.
Qed.

(** ** The composite scorer: the contributions *)

Lemma wtbPAConfidence_range (pa : value) :
  exists c, wtbPAConfidence pa = Fin c /\ 0.65 <= c <= 1.
Proof.
  unfold wtbPAConfidence, WTB_PA_FLOOR, WTB_PA_MIN, WTB_PA_MAX.
  destruct pa as [[p| | |]|]; num_fin;
    try (eexists; split; [reflexivity|lra]).
  pose proof (Rclamp_bounds ((p - 150) / (500 - 150)) 0 1 ltac:(lra)) as Hc.
  rewrite nsqrt_fin by lra. num_fin.
  pose proof (sqrt_unit _ Hc) as Hs.
  eexists; split; [reflexivity|]. nra.
Qed.

Lemma oppShare_range (w : Weights) (b : SignalBundle) :
  w_opp w = Fin 0.05 ->
  exists o, oppShareOf w b = Fin o /\ 0.025 <= o <= 0.05.
Proof.
  intros Hw. unfold oppShareOf. rewrite Hw.
  assert (Hpa : forall pa : R,
            exists o, (Fin 0.05 * (0.5 + 0.5
                         * clamp ((Fin pa - 4.10) / (4.69 - 4.10)) 0 1))%num
                      = Fin o /\ 0.025 <= o <= 0.05).
  { intros pa. num_fin.
    pose proof (Rclamp_bounds ((pa - 4.10) / (4.69 - 4.10)) 0 1 ltac:(lra)).
    eexists; split; [reflexivity|]. nra. }
  assert (Hnone : exists o, (Fin 0.05 * (0.5 + 0.5 * Fin 0.5))%num = Fin o
                            /\ 0.025 <= o <= 0.05).
  { num_fin. eexists; split; [reflexivity|]. lra. }
  unfold projectedPAFor.
  destruct (projectedOrder b) as [s|]; [|exact Hnone].
  destruct (PROJECTED_PA_TABLE (opponentIsHome b) s) as [pa|];
    [apply Hpa|exact Hnone].
Qed.

Lemma contribution_unit (n : num) (w : R) :
  unitOrNaN n -> 0 <= w -> contribution (n * Fin w)%num w.
Proof.
  intros [->|(r & -> & Hr)] Hw.
  - split; [left; reflexivity|]. simpl. lra.
  - num_fin. split; [right; eauto|]. simpl. nra.
Qed.

Lemma in_unit_unitOrNaN (n : num) : in_unit n -> unitOrNaN n.
Proof. intros H. right. assumption. Qed.

(** The eight contributions of a hitter. *)
Lemma compOf_shape (b : SignalBundle) :
  exists (v1 v2 v3 v4 v5 v6 : num) (o h : R),
    compOf b =
      [ ("wtb"%string, v1); ("h9_side"%string, v2); ("h9_28"%string, v3);
        ("ops_hand"%string, v4); ("ops_site"%string, v5);
        ("last7"%string, v6); ("opp"%string, Fin o); ("h2h"%string, Fin h) ]
    /\ h2hDynamic b = Fin h
    /\ 0.01 <= h <= 0.30 /\ 0.025 <= o <= 0.05
    /\ (exists b1 b2 b3 b4 b5 b6,
          contribution v1 b1 /\ contribution v2 b2 /\ contribution v3 b3
          /\ contribution v4 b4 /\ contribution v5 b5 /\ contribution v6 b6
          /\ b1 + b2 + b3 + b4 + b5 + b6 + 0.05 + h <= 1).
Proof.
  destruct (weightsOf_value b) as (h & l & Hh & Hl & Hhd & _ & Hw).
  destruct (oppShare_range (weightsOf b) b) as (o & Ho & Hob).
  { rewrite Hw. reflexivity. }
  destruct (scale_pos h l Hh Hl) as [Hpos Hsc].
  destruct (wtbPAConfidence_range (season_pa b)) as (cf & Hcf & Hcfb).
  destruct (normWTB_unit (wtb b)) as (n & Hn & Hnb).
  unfold compOf. rewrite Ho. rewrite Hw.
  cbn [w_wtb w_h9_side w_h9_28 w_ops_hand w_ops_site w_last7 w_opp w_h2h].
  set (sc := (0.65 - h) / (0.25 + l)) in *.
  do 6 eexists. exists o, h.
  split; [reflexivity|]. split; [exact Hhd|]. split; [exact Hh|].
  split; [exact Hob|].
  exists 0.30, (0.04 * sc), (0.02 * sc), (0.15 * sc), (0.04 * sc),
    (Rmin (l * sc) 0.10).
  splits.
  - rewrite Hn, Hcf. num_fin. split; [right; eauto|]. simpl. nra.
  - apply contribution_unit; [|nra].
    apply in_unit_unitOrNaN, normH9_unit.
  - apply contribution_unit; [|nra].
    apply in_unit_unitOrNaN, normH9_unit.
  - apply contribution_unit; [|nra]. apply normOPS_unitOrNaN.
  - apply contribution_unit; [|nra]. apply normOPS_unitOrNaN.
  - apply contribution_unit; [apply normOPS_unitOrNaN|].
    unfold Rmin. destruct (Rle_dec (l * sc) 0.10); nra.
  - unfold Rmin. destruct (Rle_dec (l * sc) 0.10); nra.
Qed.

(** ** The composite scorer: sums, rounding and the largest contribution *)

Lemma fold_left_Rplus (l : list R) (a : R) :
  fold_left Rplus l a = a + Rsum l.
Proof.
  revert a. induction l as [|x l IH]; intros a; simpl.
  - lra.
  - rewrite IH. lra.
Qed.

Lemma sumFinite_from (l : list num) (a : R) :
  fold_left (fun a b => (a + (if isFiniteN b then b else 0))%num) l (Fin a)
  = Fin (a + Rsum (map finPart l)).
Proof.
  revert a. induction l as [|v l IH]; intros a; simpl.
  - f_equal. lra.
  - destruct v as [x| | |]; simpl; rewrite IH; f_equal; lra.
Qed.

(** The sum that skips what is not finite is the sum of the finite parts. *)
Lemma sumFinite_finPart (l : list num) :
  sumFinite l = Fin (Rsum (map finPart l)).
Proof. unfold sumFinite. rewrite sumFinite_from. f_equal. lra. Qed.

Lemma round_half_up_le (x : R) : IZR (round_half_up x) <= x + 1 / 2.
Proof. unfold round_half_up. apply Zfloor_bound. Qed.

Lemma round_half_up_gt (x : R) : x - 1 / 2 < IZR (round_half_up x).
Proof.
  unfold round_half_up. pose proof (Zfloor_bound (x + 1 / 2)). lra.
Qed.

Lemma round_half_up_mono (x y : R) :
  x <= y -> (round_half_up x <= round_half_up y)%Z.
Proof. intros H. unfold round_half_up. apply Zfloor_le. lra. Qed.

Lemma round_half_up_nonneg (x : R) : 0 <= x -> (0 <= round_half_up x)%Z.
Proof. intros H. unfold round_half_up. apply Zfloor_lub. simpl. lra. Qed.

Lemma round_half_up_double (x : R) :
  0 <= x -> IZR (round_half_up x) <= 2 * x.
Proof.
  intros H. destruct (Rlt_dec x (1 / 2)) as [Hlt|Hge].
  - assert (Hz : (round_half_up x <= 0)%Z).
    { assert (Hlt1 : (round_half_up x < 1)%Z).
      { apply lt_IZR. pose proof (round_half_up_le x). simpl. lra. }
      lia. }
    apply IZR_le in Hz. simpl in Hz. lra.
  - pose proof (round_half_up_le x). lra.
Qed.

Lemma sharePoints_bounds (R0 : Z) (D c : R) :
  (0 <= R0)%Z -> 0 < D -> 0 <= c ->
  (0 <= sharePoints R0 D c)%Z
  /\ IZR (sharePoints R0 D c) <= IZR R0 * (c / D) + 1 / 2
  /\ IZR (sharePoints R0 D c) <= 2 * (IZR R0 * (c / D)).
Proof.
  intros HR HD Hc. unfold sharePoints.
  assert (Hx : 0 <= IZR R0 * (c / D)).
  { apply Rmult_le_pos; [apply IZR_le in HR; exact HR|].
    apply Rmult_le_pos; [assumption|]. apply Rlt_le, Rinv_0_lt_compat. assumption. }
  pose proof (round_half_up_nonneg _ Hx) as Hn.
  rewrite Z.max_r by assumption.
  split; [assumption|]. split.
  - apply round_half_up_le.
  - apply round_half_up_double. assumption.
Qed.

(** The points of the six contributions other than the largest never exceed
    the points to share, so that the correction of the largest one is never
    cut at zero. *)
Lemma others_fit (R0 : Z) (xm a1 a2 a3 a4 a5 a6 : R) (z1 z2 z3 z4 z5 z6 : Z) :
  (0 <= R0)%Z ->
  0 <= xm ->
  xm + a1 + a2 + a3 + a4 + a5 + a6 = IZR R0 ->
  2.5 * IZR R0 <= xm * (IZR R0 + 1) ->
  IZR z1 <= a1 + 1 / 2 -> IZR z1 <= 2 * a1 ->
  IZR z2 <= a2 + 1 / 2 -> IZR z2 <= 2 * a2 ->
  IZR z3 <= a3 + 1 / 2 -> IZR z3 <= 2 * a3 ->
  IZR z4 <= a4 + 1 / 2 -> IZR z4 <= 2 * a4 ->
  IZR z5 <= a5 + 1 / 2 -> IZR z5 <= 2 * a5 ->
  IZR z6 <= a6 + 1 / 2 -> IZR z6 <= 2 * a6 ->
  (z1 + z2 + z3 + z4 + z5 + z6 <= R0)%Z.
Proof.
  intros HR Hxm Hsum Hopp H1 H1' H2 H2' H3 H3' H4 H4' H5 H5' H6 H6'.
  destruct (Z_le_gt_dec (z1 + z2 + z3 + z4 + z5 + z6) R0) as [|Hgt];
    [assumption|exfalso].
  assert (HT : IZR R0 + 1 <= IZR (z1 + z2 + z3 + z4 + z5 + z6)).
  { rewrite <- plus_IZR. apply IZR_le. lia. }
  rewrite !plus_IZR in HT.
  apply IZR_le in HR. simpl in HR.
  set (r := IZR R0) in *.
  assert (Hm2 : xm <= 2) by lra.
  assert (Hr4 : 2 * xm + 1 <= r) by lra.
  nra.
Qed.

Lemma insertSorted_head (x : nat * R) (S0 L : list (nat * R)) :
  match S0 with
  | [] => L = []
  | (i, t) :: _ => In (i, t) L /\ forall j u, In (j, u) L -> u <= t
  end ->
  exists i t rest,
    insertSorted byTagDesc (tagged x) (map tagged S0) = tagged (i, t) :: rest
    /\ In (i, t) (x :: L)
    /\ forall j u, In (j, u) (x :: L) -> u <= t.
Proof.
  destruct x as [k s]. destruct S0 as [|[i t] S0]; simpl.
  - intros ->. exists k, s, []. split; [reflexivity|]. split; [left; reflexivity|].
    intros j u [E|[]]. inversion E. lra.
  - intros [Hin Hmax]. unfold byTagDesc, tagged. simpl.
    unfold ngt, nlt, rlt. destruct (Rlt_dec 0 (t + - s)) as [Hlt|Hge].
    + exists i, t. eexists. split; [reflexivity|]. split; [right; assumption|].
      intros j u [E|Hj]; [inversion E; lra|eauto].
    + exists k, s. eexists. split; [reflexivity|]. split; [left; reflexivity|].
      intros j u [E|Hj]; [inversion E; lra|].
      specialize (Hmax j u Hj). lra.
Qed.

Lemma insertSorted_tagged (x : nat * R) (S0 : list (nat * R)) :
  exists S1,
    insertSorted byTagDesc (tagged x) (map tagged S0) = map tagged S1.
Proof.
  induction S0 as [|y S0 IH].
  - exists [x]. reflexivity.
  - cbn [map insertSorted].
    destruct (ngt (byTagDesc (tagged x) (tagged y)) 0).
    + destruct IH as (S1 & HS1). exists (y :: S1). cbn [map]. rewrite HS1.
      reflexivity.
    + exists (x :: y :: S0). reflexivity.
Qed.

(** The sort of [maxIdxOf] puts a largest tag first. *)
Lemma jsSort_head_max (L : list (nat * R)) :
  match jsSort byTagDesc (map tagged L) with
  | [] => L = []
  | (i, v) :: _ =>
      exists t, v = Fin t /\ In (i, t) L /\ forall j u, In (j, u) L -> u <= t
  end.
Proof.
  assert (H : exists S0, jsSort byTagDesc (map tagged L) = map tagged S0
              /\ match S0 with
                 | [] => L = []
                 | (i, t) :: _ => In (i, t) L /\ forall j u, In (j, u) L -> u <= t
                 end).
  { unfold jsSort. induction L as [|x L IH].
    - exists []. split; reflexivity.
    - destruct IH as (S0 & HS & Hinv). cbn [map fold_right]. rewrite HS.
      destruct (insertSorted_head x S0 L Hinv) as (i & t & rest & Hins & Hin & Hmax).
      destruct (insertSorted_tagged x S0) as (S1 & HS1).
      exists S1. split; [exact HS1|].
      rewrite HS1 in Hins. destruct S1 as [|[i' t'] S1]; [discriminate|].
      simpl in Hins. inversion Hins. subst. split; assumption. }
  destruct H as (S0 & HS & Hinv). rewrite HS.
  destruct S0 as [|[i t] S0]; simpl; [assumption|].
  exists t. split; [reflexivity|]. assumption.
Qed.

(** ** The composite scorer: the score and its breakdown *)

Lemma base_fin (v : num) :
  (if isFiniteN v then v else Fin 0) = Fin (finPart v).
Proof. destruct v; reflexivity. Qed.

Lemma tag_fin (v : num) :
  (if isFiniteN v then v else Fin (-1)) = Fin (tagOf v).
Proof. destruct v; reflexivity. Qed.

Lemma contribution_tag (v : num) (bound : R) :
  contribution v bound ->
  0 <= finPart v /\ tagOf v <= finPart v /\ (0 <= tagOf v -> tagOf v = finPart v).
Proof.
  unfold contribution, tagOf.
  intros [[->|(c & ->)] Hb]; simpl in *; lra.
Qed.

Lemma scaledScoreOf_value (comp : list (string * num)) :
  scaledScoreOf comp
  = Fin (IZR (scoreOfSum (Rsum (map finPart (map snd comp))))).
Proof.
  unfold scaledScoreOf, scoreOfSum. rewrite sumFinite_finPart. num_fin.
  change 1 with (IZR 1) at 1. rewrite Rmax_IZR. reflexivity.
Qed.

Lemma scoreOfSum_range (sr : R) : (1 <= scoreOfSum sr <= 100)%Z.
Proof.
  unfold scoreOfSum.
  pose proof (Rclamp_bounds sr 0 1 ltac:(lra)) as Hc.
  assert (H : (round_half_up (Rmin 1 (Rmax 0 sr) * 100) <= 100)%Z).
  { apply Z.le_trans with (round_half_up (IZR 100)).
    - apply round_half_up_mono. lra.
    - rewrite round_half_up_IZR. lia. }
  lia.
Qed.

Lemma remaining_points (sr h D : R) :
  sr = D + h -> 0 <= h -> 0 <= D -> sr <= 1 ->
  (round_half_up (h * 100) <= scoreOfSum sr)%Z
  /\ 100 * D <= IZR (scoreOfSum sr - round_half_up (h * 100)) + 1.
Proof.
  intros Hsr Hh HD H1. unfold scoreOfSum.
  rewrite Rclamp_id by lra.
  assert (Hmono : (round_half_up (h * 100) <= round_half_up (sr * 100))%Z).
  { apply round_half_up_mono. lra. }
  split; [lia|].
  rewrite minus_IZR.
  assert (Hge : IZR (round_half_up (sr * 100))
                <= IZR (Z.max 1 (round_half_up (sr * 100)))).
  { apply IZR_le. lia. }
  pose proof (round_half_up_gt (sr * 100)).
  pose proof (round_half_up_le (h * 100)).
  lra.
Qed.

Lemma others_fit_share (R0 : Z) (D cm a1 a2 a3 a4 a5 a6 : R) :
  (0 <= R0)%Z -> 0 < D -> 0.025 <= cm ->
  0 <= a1 -> 0 <= a2 -> 0 <= a3 -> 0 <= a4 -> 0 <= a5 -> 0 <= a6 ->
  cm + a1 + a2 + a3 + a4 + a5 + a6 = D ->
  100 * D <= IZR R0 + 1 ->
  (sharePoints R0 D a1 + sharePoints R0 D a2 + sharePoints R0 D a3
   + sharePoints R0 D a4 + sharePoints R0 D a5 + sharePoints R0 D a6
   <= R0)%Z.
Proof.
  intros HR HD Hcm H1 H2 H3 H4 H5 H6 Hsum Hrel.
  pose proof (IZR_le _ _ HR) as HR'. simpl in HR'.
  assert (Hi : 0 < / D) by (apply Rinv_0_lt_compat; assumption).
  assert (HDi : D * / D = 1) by (apply Rinv_r; lra).
  destruct (sharePoints_bounds R0 D a1 HR HD H1) as (_ & ? & ?).
  destruct (sharePoints_bounds R0 D a2 HR HD H2) as (_ & ? & ?).
  destruct (sharePoints_bounds R0 D a3 HR HD H3) as (_ & ? & ?).
  destruct (sharePoints_bounds R0 D a4 HR HD H4) as (_ & ? & ?).
  destruct (sharePoints_bounds R0 D a5 HR HD H5) as (_ & ? & ?).
  destruct (sharePoints_bounds R0 D a6 HR HD H6) as (_ & ? & ?).
  apply (others_fit R0 (IZR R0 * (cm / D))
           (IZR R0 * (a1 / D)) (IZR R0 * (a2 / D)) (IZR R0 * (a3 / D))
           (IZR R0 * (a4 / D)) (IZR R0 * (a5 / D)) (IZR R0 * (a6 / D)));
    try assumption.
  - apply Rmult_le_pos; [assumption|]. unfold Rdiv. nra.
  - replace (IZR R0 * (cm / D) + IZR R0 * (a1 / D) + IZR R0 * (a2 / D)
             + IZR R0 * (a3 / D) + IZR R0 * (a4 / D) + IZR R0 * (a5 / D)
             + IZR R0 * (a6 / D))
      with (IZR R0 * ((cm + a1 + a2 + a3 + a4 + a5 + a6) * / D))
      by (unfold Rdiv; ring).
    rewrite Hsum, HDi. ring.
  - assert (Hq : 100 <= (IZR R0 + 1) * / D).
    { replace 100 with (100 * D * / D) by (rewrite Rmult_assoc, HDi; ring).
      apply Rmult_le_compat_r; lra. }
    assert (Hc : 2.5 <= cm * ((IZR R0 + 1) * / D)) by nra.
    replace (IZR R0 * (cm / D) * (IZR R0 + 1))
      with (IZR R0 * (cm * ((IZR R0 + 1) * / D))) by (unfold Rdiv; ring).
    nra.
Qed.

Lemma sumValues_points_from (l : list (string * Z)) (a : Z) :
  fold_left (fun a kv => (a + snd kv)%num) (map pointsEntry l) (Fin (IZR a))
  = Fin (IZR (a + Zsum (map snd l))).
Proof.
  revert a. induction l as [|[k z] l IH]; intros a; cbn [map fold_left].
  - simpl. rewrite Z.add_0_r. reflexivity.
  - cbn [pointsEntry snd fst]. rewrite nadd_fin, <- plus_IZR, IH.
    cbn [map snd Zsum fold_right]. f_equal. f_equal. unfold Zsum. lia.
Qed.

Lemma sumValues_points (l : list (string * Z)) :
  sumValues (map pointsEntry l) = Fin (IZR (Zsum (map snd l))).
Proof. apply (sumValues_points_from l 0). Qed.

Lemma share_entry (R0 : Z) (D : R) (v : num) :
  D <> 0 ->
  nmax 0 (nround (Fin (IZR R0) * ((if isFiniteN v then v else Fin 0) / Fin D)))
  = Fin (IZR (sharePoints R0 D (finPart v))).
Proof.
  intros HD. rewrite base_fin. rewrite ndiv_fin by assumption. num_fin.
  change 0 with (IZR 0) at 1. rewrite Rmax_IZR. reflexivity.
Qed.

Lemma neq_IZR (d : Z) : neq (Fin (IZR d)) (Fin 0) = Z.eqb d 0.
Proof.
  unfold neq, req. destruct (Req_dec_T (IZR d) 0) as [H|H].
  - apply eq_IZR_R0 in H. subst. reflexivity.
  - destruct (Z.eqb_spec d 0); [subst; simpl in H; lra|reflexivity].
Qed.

(** The index [maxIdxOf] picks among seven contributions carries a largest
    tag. *)
Lemma maxIdx_seven (k1 k2 k3 k4 k5 k6 k7 : string) (v1 v2 v3 v4 v5 v6 v7 : num) :
  exists m,
    maxIdxOf [(k1, v1); (k2, v2); (k3, v3); (k4, v4); (k5, v5); (k6, v6);
              (k7, v7)] = m
    /\ (m < 7)%nat
    /\ Forall (fun t => t <= nth m [tagOf v1; tagOf v2; tagOf v3; tagOf v4;
                                     tagOf v5; tagOf v6; tagOf v7] 0)
         [tagOf v1; tagOf v2; tagOf v3; tagOf v4; tagOf v5; tagOf v6; tagOf v7].
Proof.
  unfold maxIdxOf.
  cbn [List.length seq combine map fst snd].
  rewrite !tag_fin.
  change [(0%nat, Fin (tagOf v1)); (1%nat, Fin (tagOf v2));
          (2%nat, Fin (tagOf v3)); (3%nat, Fin (tagOf v4));
          (4%nat, Fin (tagOf v5)); (5%nat, Fin (tagOf v6));
          (6%nat, Fin (tagOf v7))]
    with (map tagged [(0%nat, tagOf v1); (1%nat, tagOf v2); (2%nat, tagOf v3);
                      (3%nat, tagOf v4); (4%nat, tagOf v5); (5%nat, tagOf v6);
                      (6%nat, tagOf v7)]).
  pose proof (jsSort_head_max
                [(0%nat, tagOf v1); (1%nat, tagOf v2); (2%nat, tagOf v3);
                 (3%nat, tagOf v4); (4%nat, tagOf v5); (5%nat, tagOf v6);
                 (6%nat, tagOf v7)]) as H.
  fold byTagDesc.
  destruct (jsSort byTagDesc _) as [|[i v] rest]; [discriminate|].
  destruct H as (t & _ & Hin & Hall).
  assert (H1 := Hall _ _ (or_introl eq_refl)).
  assert (H2 := Hall _ _ (or_intror (or_introl eq_refl))).
  assert (H3 := Hall _ _ (or_intror (or_intror (or_introl eq_refl)))).
  assert (H4 := Hall _ _ (or_intror (or_intror (or_intror (or_introl eq_refl))))).
  assert (H5 := Hall _ _ (or_intror (or_intror (or_intror (or_intror
                                (or_introl eq_refl)))))).
  assert (H6 := Hall _ _ (or_intror (or_intror (or_intror (or_intror
                                (or_intror (or_introl eq_refl))))))).
  assert (H7 := Hall _ _ (or_intror (or_intror (or_intror (or_intror
                                (or_intror (or_intror (or_introl eq_refl)))))))).
  exists i. split; [reflexivity|].
  simpl in Hin.
  destruct Hin as [E|[E|[E|[E|[E|[E|[E|[]]]]]]]]; inversion E; subst i t;
    (split; [lia|]); cbn [nth];
    repeat (apply Forall_cons; [assumption|]); apply Forall_nil.
Qed.

(** The breakdown of eight contributions shaped as [compOf] builds them. *)
Lemma breakdown_value (v1 v2 v3 v4 v5 v6 : num) (o h b1 b2 b3 b4 b5 b6 : R) :
  contribution v1 b1 -> contribution v2 b2 -> contribution v3 b3 ->
  contribution v4 b4 -> contribution v5 b5 -> contribution v6 b6 ->
  0.025 <= o <= 0.05 -> 0.01 <= h <= 0.30 ->
  b1 + b2 + b3 + b4 + b5 + b6 + 0.05 + h <= 1 ->
  let comp :=
    [ ("wtb"%string, v1); ("h9_side"%string, v2); ("h9_28"%string, v3);
      ("ops_hand"%string, v4); ("ops_site"%string, v5);
      ("last7"%string, v6); ("opp"%string, Fin o); ("h2h"%string, Fin h) ] in
  let S0 := scoreOfSum (Rsum (map finPart (map snd comp))) in
  let A := round_half_up (h * 100) in
  exists n1 n2 n3 n4 n5 n6 n7 : Z,
    breakdownOf comp (Fin (IZR S0)) =
      map pointsEntry
        [ ("wtb"%string, n1); ("h9_side"%string, n2); ("h9_28"%string, n3);
          ("ops_hand"%string, n4); ("ops_site"%string, n5);
          ("last7"%string, n6); ("opp"%string, n7); ("h2h"%string, A) ]
    /\ (0 <= n1 /\ 0 <= n2 /\ 0 <= n3 /\ 0 <= n4 /\ 0 <= n5 /\ 0 <= n6
        /\ 0 <= n7)%Z
    /\ (n1 + n2 + n3 + n4 + n5 + n6 + n7 + A = S0)%Z.
Proof.
  intros C1 C2 C3 C4 C5 C6 Ho Hh Hsum comp S0 A.
  destruct (contribution_tag _ _ C1) as (P1 & T1 & T1').
  destruct (contribution_tag _ _ C2) as (P2 & T2 & T2').
  destruct (contribution_tag _ _ C3) as (P3 & T3 & T3').
  destruct (contribution_tag _ _ C4) as (P4 & T4 & T4').
  destruct (contribution_tag _ _ C5) as (P5 & T5 & T5').
  destruct (contribution_tag _ _ C6) as (P6 & T6 & T6').
  destruct C1 as [_ B1], C2 as [_ B2], C3 as [_ B3], C4 as [_ B4],
    C5 as [_ B5], C6 as [_ B6].
  set (c1 := finPart v1) in *. set (c2 := finPart v2) in *.
  set (c3 := finPart v3) in *. set (c4 := finPart v4) in *.
  set (c5 := finPart v5) in *. set (c6 := finPart v6) in *.
  set (D := c1 + c2 + c3 + c4 + c5 + c6 + o).
  assert (HD : 0 < D) by (unfold D; lra).
  assert (Hsr : Rsum (map finPart (map snd comp)) = D + h).
  { unfold comp, D. cbn [map snd finPart Rsum fold_right].
    fold c1 c2 c3 c4 c5 c6. lra. }
  assert (Hle1 : Rsum (map finPart (map snd comp)) <= 1)
    by (rewrite Hsr; unfold D; lra).
  destruct (remaining_points (Rsum (map finPart (map snd comp))) h D Hsr
              ltac:(lra) ltac:(lra) Hle1) as [HA Hrel].
  fold S0 A in HA, Hrel.
  set (R0 := (S0 - A)%Z) in *.
  assert (HR0 : (0 <= R0)%Z) by (unfold R0; lia).
  (* the head-to-head entry and the other entries *)
  unfold breakdownOf.
  change (field "h2h" comp) with (Some (Fin h)).
  change (filter (fun kv => negb (String.eqb (fst kv) "h2h")) comp)
    with [ ("wtb"%string, v1); ("h9_side"%string, v2); ("h9_28"%string, v3);
           ("ops_hand"%string, v4); ("ops_site"%string, v5);
           ("last7"%string, v6); ("opp"%string, Fin o) ].
  cbn [isFinite isFiniteN toNumber].
  rewrite sumFinite_finPart.
  replace (Rsum (map finPart (map snd
             [ ("wtb"%string, v1); ("h9_side"%string, v2); ("h9_28"%string, v3);
               ("ops_hand"%string, v4); ("ops_site"%string, v5);
               ("last7"%string, v6); ("opp"%string, Fin o) ]))) with D
    by (unfold D; cbn [map snd finPart Rsum fold_right];
        fold c1 c2 c3 c4 c5 c6; lra).
  assert (Hrem : nmax 0 (Fin (IZR S0) - nround (Fin h * 100)) = Fin (IZR R0)).
  { num_fin. fold A. rewrite <- minus_IZR. fold R0.
    change 0 with (IZR 0) at 1. rewrite Rmax_IZR. f_equal. f_equal. lia. }
  rewrite Hrem.
  assert (Hgt : ngt (Fin D) 0 = true).
  { unfold ngt, nlt, rlt. rdec; reflexivity. }
  rewrite Hgt.
  cbn [map fst snd]. rewrite !share_entry by lra.
  cbn [finPart]. fold c1 c2 c3 c4 c5 c6.
  set (z1 := sharePoints R0 D c1). set (z2 := sharePoints R0 D c2).
  set (z3 := sharePoints R0 D c3). set (z4 := sharePoints R0 D c4).
  set (z5 := sharePoints R0 D c5). set (z6 := sharePoints R0 D c6).
  set (z7 := sharePoints R0 D o).
  destruct (sharePoints_bounds R0 D c1 HR0 HD P1) as (N1 & _).
  destruct (sharePoints_bounds R0 D c2 HR0 HD P2) as (N2 & _).
  destruct (sharePoints_bounds R0 D c3 HR0 HD P3) as (N3 & _).
  destruct (sharePoints_bounds R0 D c4 HR0 HD P4) as (N4 & _).
  destruct (sharePoints_bounds R0 D c5 HR0 HD P5) as (N5 & _).
  destruct (sharePoints_bounds R0 D c6 HR0 HD P6) as (N6 & _).
  destruct (sharePoints_bounds R0 D o HR0 HD ltac:(lra)) as (N7 & _).
  fold z1 z2 z3 z4 z5 z6 z7 in N1, N2, N3, N4, N5, N6, N7.
  assert (Hsum7 :
    fold_left (fun (a : num) (kv : string * num) => (a + snd kv)%num)
      [ ("wtb"%string, Fin (IZR z1)); ("h9_side"%string, Fin (IZR z2));
        ("h9_28"%string, Fin (IZR z3)); ("ops_hand"%string, Fin (IZR z4));
        ("ops_site"%string, Fin (IZR z5)); ("last7"%string, Fin (IZR z6));
        ("opp"%string, Fin (IZR z7)) ] (Fin 0)
    = Fin (IZR (z1 + z2 + z3 + z4 + z5 + z6 + z7))).
  { cbn [fold_left snd]. rewrite !nadd_fin. f_equal. rewrite !plus_IZR. lra. }
  rewrite Hsum7. rewrite nsub_fin, <- minus_IZR, neq_IZR.
  rewrite nmul_fin, nround_fin. fold A.
  set (d := (R0 - (z1 + z2 + z3 + z4 + z5 + z6 + z7))%Z).
  destruct (Z.eqb_spec d 0) as [Hd|Hd].
  { cbn [negb andb]. exists z1, z2, z3, z4, z5, z6, z7.
    split; [reflexivity|]. unfold d, R0 in Hd. split; lia. }
  cbn [negb andb List.length Nat.ltb Nat.leb].
  destruct (maxIdx_seven "wtb" "h9_side" "h9_28" "ops_hand" "ops_site"
              "last7" "opp" v1 v2 v3 v4 v5 v6 (Fin o))
    as (m & Hm & Hlt & Hall).
  rewrite Hm. clear Hm.
  assert (Hto : tagOf (Fin o) = o) by reflexivity.
  inversion Hall as [|? ? M1 Hall1]; subst.
  inversion Hall1 as [|? ? M2 Hall2]; subst.
  inversion Hall2 as [|? ? M3 Hall3]; subst.
  inversion Hall3 as [|? ? M4 Hall4]; subst.
  inversion Hall4 as [|? ? M5 Hall5]; subst.
  inversion Hall5 as [|? ? M6 Hall6]; subst.
  inversion Hall6 as [|? ? M7 _]; subst.
  clear Hall Hall1 Hall2 Hall3 Hall4 Hall5 Hall6.
  rewrite Hto in *.
  assert (Hfix : forall zm : Z, (0 <= zm + d)%Z ->
            nmax 0 (Fin (IZR zm) + Fin (IZR d)) = Fin (IZR (zm + d))).
  { intros zm Hzm. rewrite nadd_fin, <- plus_IZR, nmax_fin.
    change 0 with (IZR 0) at 1. rewrite Rmax_IZR. f_equal. f_equal. lia. }
  destruct m as [|[|[|[|[|[|[|m]]]]]]]; [| | | | | | |lia];
    cbn [nth] in M1, M2, M3, M4, M5, M6, M7; cbn [updateAt fst snd app].
  - assert (Hfit : (z2 + z3 + z4 + z5 + z6 + z7 <= R0)%Z).
    { apply (others_fit_share R0 D c1 c2 c3 c4 c5 c6 o); try assumption;
        try lra. unfold D. lra. }
    rewrite Hfix by (unfold d; lia).
    exists (z1 + d)%Z, z2, z3, z4, z5, z6, z7.
    split; [reflexivity|]. unfold d, R0 in *. split; lia.
  - assert (Hfit : (z1 + z3 + z4 + z5 + z6 + z7 <= R0)%Z).
    { apply (others_fit_share R0 D c2 c1 c3 c4 c5 c6 o); try assumption;
        try lra. unfold D. lra. }
    rewrite Hfix by (unfold d; lia).
    exists z1, (z2 + d)%Z, z3, z4, z5, z6, z7.
    split; [reflexivity|]. unfold d, R0 in *. split; lia.
  - assert (Hfit : (z1 + z2 + z4 + z5 + z6 + z7 <= R0)%Z).
    { apply (others_fit_share R0 D c3 c1 c2 c4 c5 c6 o); try assumption;
        try lra. unfold D. lra. }
    rewrite Hfix by (unfold d; lia).
    exists z1, z2, (z3 + d)%Z, z4, z5, z6, z7.
    split; [reflexivity|]. unfold d, R0 in *. split; lia.
  - assert (Hfit : (z1 + z2 + z3 + z5 + z6 + z7 <= R0)%Z).
    { apply (others_fit_share R0 D c4 c1 c2 c3 c5 c6 o); try assumption;
        try lra. unfold D. lra. }
    rewrite Hfix by (unfold d; lia).
    exists z1, z2, z3, (z4 + d)%Z, z5, z6, z7.
    split; [reflexivity|]. unfold d, R0 in *. split; lia.
  - assert (Hfit : (z1 + z2 + z3 + z4 + z6 + z7 <= R0)%Z).
    { apply (others_fit_share R0 D c5 c1 c2 c3 c4 c6 o); try assumption;
        try lra. unfold D. lra. }
    rewrite Hfix by (unfold d; lia).
    exists z1, z2, z3, z4, (z5 + d)%Z, z6, z7.
    split; [reflexivity|]. unfold d, R0 in *. split; lia.
  - assert (Hfit : (z1 + z2 + z3 + z4 + z5 + z7 <= R0)%Z).
    { apply (others_fit_share R0 D c6 c1 c2 c3 c4 c5 o); try assumption;
        try lra. unfold D. lra. }
    rewrite Hfix by (unfold d; lia).
    exists z1, z2, z3, z4, z5, (z6 + d)%Z, z7.
    split; [reflexivity|]. unfold d, R0 in *. split; lia.
  - assert (Hfit : (z1 + z2 + z3 + z4 + z5 + z6 <= R0)%Z).
    { apply (others_fit_share R0 D o c1 c2 c3 c4 c5 c6); try assumption;
        try lra. unfold D. lra. }
    rewrite Hfix by (unfold d; lia).
    exists z1, z2, z3, z4, z5, z6, (z7 + d)%Z.
    split; [reflexivity|]. unfold d, R0 in *. split; lia.
Qed.

Lemma sumValues_finite (l : list (string * num)) :
  (forall kv, In kv l -> isFiniteN (snd kv) = true) ->
  sumValues l = Fin (contributionSum l).
Proof.
  intros Hall. unfold sumValues, contributionSum.
  assert (H : forall a,
            fold_left (fun a kv => (a + snd kv)%num) l (Fin a)
            = Fin (a + Rsum (map finPart (map snd l)))).
  { induction l as [|[k v] l IH]; intros a; cbn [fold_left map snd].
    - cbn [Rsum fold_right]. f_equal. lra.
    - assert (Hv : isFiniteN v = true) by (apply (Hall (k, v)); left; reflexivity).
      destruct v as [x| | |]; try discriminate.
      rewrite nadd_fin, IH.
      + cbn [finPart Rsum fold_right]. f_equal. unfold Rsum. lra.
      + intros kv Hkv. apply Hall. right; assumption. }
  rewrite H. f_equal. lra.
Qed.

(** The result of the scorer, by its contributions. *)
Lemma scoreHitter_value (b : SignalBundle) :
  exists (o h : R) (n1 n2 n3 n4 n5 n6 n7 : Z),
    0.025 <= o <= 0.05 /\ 0.01 <= h <= 0.30
    /\ field "opp" (compOf b) = Some (Fin o)
    /\ denomOthersOf (compOf b) = Fin (contributionSum (compOf b) - h)
    /\ o <= contributionSum (compOf b) - h
    /\ h2hDynamic b = Fin h
    /\ h2h_share (scoreHitter b) = Fin h
    /\ score (scoreHitter b) = Fin (IZR (scoreOfSum (contributionSum (compOf b))))
    /\ score_breakdown (scoreHitter b) =
         map pointsEntry
           [ ("wtb"%string, n1); ("h9_side"%string, n2); ("h9_28"%string, n3);
             ("ops_hand"%string, n4); ("ops_site"%string, n5);
             ("last7"%string, n6); ("opp"%string, n7);
             ("h2h"%string, round_half_up (h * 100)) ]
    /\ (n1 + n2 + n3 + n4 + n5 + n6 + n7 + round_half_up (h * 100)
        = scoreOfSum (contributionSum (compOf b)))%Z.
Proof.
  destruct (compOf_shape b)
    as (v1 & v2 & v3 & v4 & v5 & v6 & o & h & Hcomp & Hhd & Hh & Ho
        & b1 & b2 & b3 & b4 & b5 & b6 & C1 & C2 & C3 & C4 & C5 & C6 & Hsum).
  destruct (breakdown_value v1 v2 v3 v4 v5 v6 o h b1 b2 b3 b4 b5 b6
              C1 C2 C3 C4 C5 C6 Ho Hh Hsum)
    as (n1 & n2 & n3 & n4 & n5 & n6 & n7 & Hbd & _ & Htot).
  exists o, h, n1, n2, n3, n4, n5, n6, n7.
  unfold scoreHitter. cbn [score score_breakdown h2h_share].
  rewrite scaledScoreOf_value. fold (contributionSum (compOf b)).
  destruct (weightsOf_value b) as (h' & l & _ & _ & Hhd' & _ & Hw).
  assert (h' = h) by congruence. subst h'.
  rewrite Hw. cbn [w_h2h]. rewrite Hcomp.
  destruct (contribution_tag _ _ C1) as (P1 & _).
  destruct (contribution_tag _ _ C2) as (P2 & _).
  destruct (contribution_tag _ _ C3) as (P3 & _).
  destruct (contribution_tag _ _ C4) as (P4 & _).
  destruct (contribution_tag _ _ C5) as (P5 & _).
  destruct (contribution_tag _ _ C6) as (P6 & _).
  split; [exact Ho|]. split; [exact Hh|]. split; [reflexivity|].
  split; [|split; [|split; [exact Hhd|split; [reflexivity|split;
    [reflexivity|split; [exact Hbd|exact Htot]]]]]].
  - unfold denomOthersOf.
    change (filter _ _)
      with [ ("wtb"%string, v1); ("h9_side"%string, v2); ("h9_28"%string, v3);
             ("ops_hand"%string, v4); ("ops_site"%string, v5);
             ("last7"%string, v6); ("opp"%string, Fin o) ].
    rewrite sumFinite_finPart. f_equal. unfold contributionSum.
    cbn [map snd finPart Rsum fold_right]. lra.
  - unfold contributionSum. cbn [map snd finPart Rsum fold_right]. lra.
Qed.

(** C1: for every bundle the score is an integer between 1 and 100, equal
    to max(1, round(clamp(sum of the eight contributions, 0, 1) * 100)), a
    contribution that is not finite counting for nothing in the sum (the sum
    is the plain one when the eight are finite), and the values of the
    breakdown add up to the score. *)
Theorem score_range_and_breakdown_sum (b : SignalBundle) :
  (exists n : Z, score (scoreHitter b) = Fin (IZR n) /\ (1 <= n <= 100)%Z)
  /\ score (scoreHitter b)
     = nmax 1 (nround (clamp (Fin (contributionSum (compOf b))) 0 1 * 100))
  /\ ((forall kv, In kv (compOf b) -> isFiniteN (snd kv) = true) ->
      sumValues (compOf b) = Fin (contributionSum (compOf b)))
  /\ sumValues (score_breakdown (scoreHitter b)) = score (scoreHitter b).
Proof.
  destruct (scoreHitter_value b)
    as (o & h & n1 & n2 & n3 & n4 & n5 & n6 & n7 & _ & _ & _ & _ & _ & _ & _
        & Hscore & Hbd & Htot).
  split; [|split; [|split]].
  - exists (scoreOfSum (contributionSum (compOf b))).
    split; [exact Hscore|apply scoreOfSum_range].
  - rewrite Hscore. unfold scoreOfSum. num_fin.
    change 1 with (IZR 1) at 3. rewrite Rmax_IZR. reflexivity.
  - apply sumValues_finite.
  - rewrite Hbd, Hscore, sumValues_points. f_equal. f_equal.
    rewrite <- Htot. cbn [map snd Zsum fold_right]. lia.
Qed.

(** C2: for every bundle the head-to-head entry of the breakdown is
    round(h2hShare * 100), where h2hShare is the weight read off the grid,
    whatever the other seven signals are. *)
Theorem breakdown_h2h_pinned (b : SignalBundle) :
  h2h_share (scoreHitter b) = h2hDynamic b
  /\ field "h2h" (score_breakdown (scoreHitter b))
     = Some (nround (h2h_share (scoreHitter b) * 100)).
Proof.
  destruct (scoreHitter_value b)
    as (o & h & n1 & n2 & n3 & n4 & n5 & n6 & n7 & _ & _ & _ & _ & _ & Hhd
        & Hshare & _ & Hbd & _).
  split; [congruence|].
  rewrite Hbd, Hshare. num_fin. reflexivity.
Qed.

(** C10: for every bundle the opportunity contribution is at least 0.025,
    so that the sum of the seven contributions other than the head-to-head
    one is positive and the breakdown never falls back to the single
    head-to-head entry: it has its eight entries. *)
Theorem opportunity_keeps_breakdown (b : SignalBundle) :
  (exists o, field "opp" (compOf b) = Some (Fin o) /\ 0.025 <= o)
  /\ (exists d, denomOthersOf (compOf b) = Fin d /\ 0.025 <= d)
  /\ ngt (denomOthersOf (compOf b)) 0 = true
  /\ map fst (score_breakdown (scoreHitter b))
     = [ "wtb"; "h9_side"; "h9_28"; "ops_hand"; "ops_site"; "last7"; "opp";
         "h2h" ]%string.
Proof.
  destruct (scoreHitter_value b)
    as (o & h & n1 & n2 & n3 & n4 & n5 & n6 & n7 & Ho & _ & Hopp & Hden & Hod
        & _ & _ & _ & Hbd & _).
  split; [|split; [|split]].
  - exists o. split; [exact Hopp|lra].
  - eexists. split; [exact Hden|lra].
  - rewrite Hden. unfold ngt, nlt, rlt.
    destruct (Rlt_dec 0 (contributionSum (compOf b) - h)); [reflexivity|lra].
  - rewrite Hbd. reflexivity.
Qed.

(** ** The lists of hitters *)

Lemma insertSorted_perm {A : Type} (cmp : A -> A -> num) (x : A) (l : list A) :
  Permutation (insertSorted cmp x l) (x :: l).
Proof.
  induction l as [|y l IH]; cbn [insertSorted]; [reflexivity|].
  destruct (ngt (cmp x y) 0); [|reflexivity].
  rewrite IH. apply perm_swap.
Qed.

Lemma jsSort_perm {A : Type} (cmp : A -> A -> num) (l : list A) :
  Permutation (jsSort cmp l) l.
Proof.
  unfold jsSort. induction l as [|x l IH]; cbn [fold_right]; [reflexivity|].
  rewrite insertSorted_perm. constructor. assumption.
Qed.



Lemma wtbKey_finite (h : OutHitter) : isFiniteN (wtbKey h) = true.
Proof.
  unfold wtbKey. destruct (wtb_percent (out_hitter h)) as [[x| | |]|];
    reflexivity.
Qed.

Lemma score_finite (b : SignalBundle) : isFiniteN (score (scoreHitter b)) = true.
Proof.
  destruct (scoreHitter_value b)
    as (o & h & n1 & n2 & n3 & n4 & n5 & n6 & n7 & _ & _ & _ & _ & _ & _ & _
        & Hscore & _).
  rewrite Hscore. reflexivity.
Qed.


Lemma wtbPAConfidence_floor (p : R) :
  p <= 150 -> wtbPAConfidence (Some (Fin p)) = Fin 0.65.
Proof.
  intros Hp. unfold wtbPAConfidence, WTB_PA_FLOOR, WTB_PA_MIN, WTB_PA_MAX.
  num_fin.
  replace (Rmin 1 (Rmax 0 ((p - 150) / (500 - 150)))) with 0
    by (unfold Rmin, Rmax; rdec).
  rewrite nsqrt_fin by lra. rewrite sqrt_0. num_fin. f_equal. lra.
Qed.

Lemma wtbPAConfidence_full (p : R) :
  500 <= p -> wtbPAConfidence (Some (Fin p)) = Fin 1.
Proof.
  intros Hp. unfold wtbPAConfidence, WTB_PA_FLOOR, WTB_PA_MIN, WTB_PA_MAX.
  num_fin.
  replace (Rmin 1 (Rmax 0 ((p - 150) / (500 - 150)))) with 1
    by (unfold Rmin, Rmax; rdec).
  rewrite nsqrt_fin by lra. rewrite sqrt_1. num_fin. f_equal. lra.
Qed.


Lemma last7Dynamic_no_data (b : SignalBundle) :
  paLast7 b = None -> last7Dynamic SCORE_WEIGHTS b = Fin 0.05.
Proof.
  intros H. unfold last7Dynamic. rewrite H. cbn [SCORE_WEIGHTS w_last7].
  num_fin. f_equal. lra.
Qed.






Lemma eligible_scoreHitter (b : SignalBundle) :
  eligible (scoreHitter b)
  = nge (toNumber (ab_vs_pitcher b)) 1
    && match projectedOrder b with Some s => Nat.leb s 5 | None => false end.
Proof. reflexivity. Qed.






(** * Further properties of the program *)

(** ** The normalisers, monotone *)

Lemma Rclamp_mono (x y lo hi : R) :
  x <= y -> Rmin hi (Rmax lo x) <= Rmin hi (Rmax lo y).
Proof. intros H. unfold Rmin, Rmax. rdec. Qed.

Lemma nle_fin (x y : R) : x <= y -> nle (Fin x) (Fin y) = true.
Proof. intros H. unfold nle, rle. destruct (Rle_dec x y); [reflexivity|lra]. Qed.

Lemma normOPS_fin (x : R) :
  normOPS (Some (Fin x)) = Fin (Rmin 1 (Rmax 0 ((x - 0.40) / (1.050 - 0.40)))).
Proof. unfold normOPS. num_fin. reflexivity. Qed.

Lemma normH9_fin (x : R) :
  normH9 (Some (Fin x)) = Fin (Rmin 1 (Rmax 0 ((x - 6.0) / (12.0 - 6.0)))).
Proof. unfold normH9. num_fin. reflexivity. Qed.

Lemma normPA_fin (x : R) :
  normPA (Some (Fin x)) = Fin (Rmin 1 (Rmax 0 ((x - 3.8) / (4.8 - 3.8)))).
Proof. unfold normPA. num_fin. reflexivity. Qed.

(** X1: the three band normalisers never decrease when their input grows,
    and saturate at the ends of their bands. *)
Theorem band_normalizers_monotone :
  (forall x y : R, x <= y ->
     nle (normOPS (Some (Fin x))) (normOPS (Some (Fin y))) = true
     /\ nle (normH9 (Some (Fin x))) (normH9 (Some (Fin y))) = true
     /\ nle (normPA (Some (Fin x))) (normPA (Some (Fin y))) = true)
  /\ (forall x : R,
        (x <= 0.40 -> normOPS (Some (Fin x)) = Fin 0)
        /\ (1.050 <= x -> normOPS (Some (Fin x)) = Fin 1)
        /\ (x <= 6.0 -> normH9 (Some (Fin x)) = Fin 0)
        /\ (12.0 <= x -> normH9 (Some (Fin x)) = Fin 1)
        /\ (x <= 3.8 -> normPA (Some (Fin x)) = Fin 0)
        /\ (4.8 <= x -> normPA (Some (Fin x)) = Fin 1)).
Proof.
  split.
  - intros x y Hxy. rewrite !normOPS_fin, !normH9_fin, !normPA_fin.
    splits; apply nle_fin; apply Rclamp_mono; lra.
  - intros x. rewrite normOPS_fin, normH9_fin, normPA_fin.
    splits; intros H; f_equal; unfold Rmin, Rmax; rdec.
Qed.

Lemma normWTB_fin (w : R) :
  exists r, normWTB (Some (Fin w)) = Fin r /\ 0 <= r <= 1
    /\ (w <= 0.190 -> r = 0)
    /\ (0.190 <= w <= 0.223 -> r = 0.5 * ((w - 0.190) / (0.223 - 0.190)))
    /\ (0.223 <= w <= 0.272 -> r = 0.5 + 0.5 * ((w - 0.223) / (0.272 - 0.223)))
    /\ (0.272 <= w -> r = 1).
Proof.
  destruct (Rle_dec w 0.190) as [H1|H1].
  { exists 0. rewrite normWTB_below by assumption. splits; auto; lra. }
  destruct (Rle_dec 0.272 w) as [H2|H2].
  { exists 1. rewrite normWTB_above by assumption. splits; auto; lra. }
  destruct (Rle_dec w 0.223) as [H3|H3].
  - eexists. rewrite normWTB_lower_segment by lra.
    split; [reflexivity|]. splits; auto; lra.
  - eexists. rewrite normWTB_upper_segment by lra.
    split; [reflexivity|]. splits; auto; lra.
Qed.

Lemma normWTB_mono (x y : R) :
  x <= y ->
  exists r s, normWTB (Some (Fin x)) = Fin r /\ normWTB (Some (Fin y)) = Fin s
    /\ 0 <= r /\ r <= s /\ s <= 1.
Proof.
  intros Hxy.
  destruct (normWTB_fin x) as (r & Hr & Hrb & R1 & R2 & R3 & R4).
  destruct (normWTB_fin y) as (s & Hs & Hsb & S1 & S2 & S3 & S4).
  exists r, s. split; [assumption|]. split; [assumption|].
  split; [lra|]. split; [|lra].
  destruct (Rle_dec x 0.190); [rewrite R1 by assumption; lra|].
  destruct (Rle_dec 0.272 y); [rewrite S4 by assumption; lra|].
  destruct (Rle_dec x 0.223), (Rle_dec y 0.223).
  - rewrite R2, S2 by lra. lra.
  - rewrite R2, S3 by lra. lra.
  - lra.
  - rewrite R3, S3 by lra. lra.
Qed.

(** X2: [normWTB] never decreases when the weighted rate grows. *)
Theorem normWTB_monotone (x y : R) :
  x <= y -> nle (normWTB (Some (Fin x))) (normWTB (Some (Fin y))) = true.
Proof.
  intros Hxy. destruct (normWTB_mono x y Hxy) as (r & s & -> & -> & _ & H & _).
  apply nle_fin. assumption.
Qed.

Lemma normWTB_monotone_witness :
  0.20 <= 0.25
  /\ nle (normWTB (Some (Fin 0.20))) (normWTB (Some (Fin 0.25))) = true.
Proof. split; [lra|]. apply (normWTB_monotone 0.20 0.25). lra. Defined.

Lemma wtbPAConfidence_fin (p : R) :
  wtbPAConfidence (Some (Fin p))
  = Fin (0.65 + (1 - 0.65) * sqrt (Rmin 1 (Rmax 0 ((p - 150) / (500 - 150))))).
Proof.
  unfold wtbPAConfidence, WTB_PA_FLOOR, WTB_PA_MIN, WTB_PA_MAX. num_fin.
  pose proof (Rclamp_bounds ((p - 150) / (500 - 150)) 0 1 ltac:(lra)) as Hc.
  rewrite nsqrt_fin by lra. num_fin. reflexivity.
Qed.

Lemma wtbPAConfidence_mono (p q : R) :
  p <= q ->
  exists c d, wtbPAConfidence (Some (Fin p)) = Fin c
    /\ wtbPAConfidence (Some (Fin q)) = Fin d /\ 0.65 <= c /\ c <= d /\ d <= 1.
Proof.
  intros Hpq. rewrite !wtbPAConfidence_fin.
  pose proof (Rclamp_bounds ((p - 150) / (500 - 150)) 0 1 ltac:(lra)) as Hp.
  pose proof (Rclamp_bounds ((q - 150) / (500 - 150)) 0 1 ltac:(lra)) as Hq.
  pose proof (Rclamp_mono ((p - 150) / (500 - 150)) ((q - 150) / (500 - 150))
                0 1 ltac:(lra)) as Hm.
  pose proof (sqrt_unit _ Hp) as Sp. pose proof (sqrt_unit _ Hq) as Sq.
  pose proof (sqrt_le_1_alt _ _ Hm) as Sm.
  do 2 eexists. split; [reflexivity|]. split; [reflexivity|]. lra.
Qed.

(** X3: the confidence by which the season plate appearances weigh the WTB
    contribution lies between 0.65 and 1; it is 0.65 without a finite count
    and up to 150 plate appearances, 1 from 500 on, and never decreases in
    between. *)
Theorem wtbPAConfidence_ramp :
  (forall pa, exists c, wtbPAConfidence pa = Fin c /\ 0.65 <= c <= 1)
  /\ (forall pa, isFinite pa = false -> wtbPAConfidence pa = Fin 0.65)
  /\ (forall p : R, p <= 150 -> wtbPAConfidence (Some (Fin p)) = Fin 0.65)
  /\ (forall p : R, 500 <= p -> wtbPAConfidence (Some (Fin p)) = Fin 1)
  /\ (forall p q : R, p <= q ->
        nle (wtbPAConfidence (Some (Fin p))) (wtbPAConfidence (Some (Fin q)))
        = true).
Proof.
  splits.
  - apply wtbPAConfidence_range.
  - intros pa H. unfold wtbPAConfidence. rewrite H. reflexivity.
  - apply wtbPAConfidence_floor.
  - apply wtbPAConfidence_full.
  - intros p q Hpq.
    destruct (wtbPAConfidence_mono p q Hpq) as (c & d & -> & -> & _ & H & _).
    apply nle_fin. assumption.
Qed.

(** ** The head-to-head grid: cells, borders and sample size *)

Lemma bins_nth_ge (rest : list (R * Z)) :
  forall (b0 : R) (k : nat),
    binsIncreasing b0 rest -> (k <= List.length rest)%nat ->
    b0 <= nth k (b0 :: map fst rest) 0
    /\ (nth k (b0 :: map fst rest) 0 = b0 -> k = O).
Proof.
  induction rest as [|[b1 r1] rest IH]; intros b0 k Hb Hk.
  - simpl in Hk. assert (k = O) by lia. subst. simpl. split; [lra|auto].
  - destruct Hb as [Hb Hrest]. destruct k as [|k]; [simpl; split; [lra|auto]|].
    simpl in Hk. destruct (IH b1 k Hrest ltac:(lia)) as [Hge _].
    change (nth (S k) (b0 :: map fst ((b1, r1) :: rest)) 0)
      with (nth k (b1 :: map fst rest) 0).
    split; [lra|]. intros E. lra.
Qed.

(** At a bin edge the interpolation gives the points of that edge. *)
Lemma interpFrom_knot (rest : list (R * Z)) :
  forall (b0 : R) (r0 : Z) (k : nat),
    binsIncreasing b0 rest -> (k <= List.length rest)%nat ->
    interpFrom b0 r0 rest (nth k (b0 :: map fst rest) 0)
    = IZR (nth k (r0 :: map snd rest) 0%Z).
Proof.
  induction rest as [|[b1 r1] rest IH]; intros b0 r0 k Hb Hk.
  - simpl in Hk. assert (k = O) by lia. subst. reflexivity.
  - destruct Hb as [Hb Hrest]. destruct k as [|k].
    + cbn [nth map fst snd interpFrom].
      destruct (Rle_dec b0 b1); [|lra].
      replace (b0 - b0) with 0 by lra. unfold Rdiv. ring.
    + simpl in Hk.
      change (nth (S k) (b0 :: map fst ((b1, r1) :: rest)) 0)
        with (nth k (b1 :: map fst rest) 0).
      change (nth (S k) (r0 :: map snd ((b1, r1) :: rest)) 0%Z)
        with (nth k (r1 :: map snd rest) 0%Z).
      destruct (bins_nth_ge rest b1 k Hrest ltac:(lia)) as [Hge Heq].
      cbn [interpFrom].
      destruct (Rle_dec (nth k (b1 :: map fst rest) 0) b1) as [Hle|Hgt].
      * assert (E : nth k (b1 :: map fst rest) 0 = b1) by lra.
        rewrite E. assert (Hk0 : k = O) by auto. subst k. cbn [nth].
        replace ((b1 - b0) / (b1 - b0)) with 1 by (field; lra). ring.
      * apply IH; [assumption|lia].
Qed.

Lemma combine_bins (r0 r1 r2 r3 r4 r5 r6 r7 r8 r9 r10 r11 : Z) :
  combine H2H_OPS_BINS [r0; r1; r2; r3; r4; r5; r6; r7; r8; r9; r10; r11]
  = [ (0.2, r0); (0.4, r1); (0.6, r2); (0.7, r3); (0.8, r4); (0.85, r5);
      (0.9, r6); (0.95, r7); (1.0, r8); (1.2, r9); (1.4, r10); (2.0, r11) ].
Proof. reflexivity. Qed.

Lemma bins_increasing (r1 r2 r3 r4 r5 r6 r7 r8 r9 r10 r11 : Z) :
  binsIncreasing 0.2
    [ (0.4, r1); (0.6, r2); (0.7, r3); (0.8, r4); (0.85, r5);
      (0.9, r6); (0.95, r7); (1.0, r8); (1.2, r9); (1.4, r10); (2.0, r11) ].
Proof. cbn. repeat split; lra. Qed.

Lemma interpRow_knot (r0 r1 r2 r3 r4 r5 r6 r7 r8 r9 r10 r11 : Z) (c : nat) :
  (c < 12)%nat ->
  interpRow [r0; r1; r2; r3; r4; r5; r6; r7; r8; r9; r10; r11]
            (nth c H2H_OPS_BINS 0)
  = IZR (nth c [r0; r1; r2; r3; r4; r5; r6; r7; r8; r9; r10; r11] 0%Z).
Proof.
  intros Hc. unfold interpRow. rewrite combine_bins.
  apply (interpFrom_knot
           [ (0.4, r1); (0.6, r2); (0.7, r3); (0.8, r4); (0.85, r5);
             (0.9, r6); (0.95, r7); (1.0, r8); (1.2, r9); (1.4, r10);
             (2.0, r11) ] 0.2 r0 c).
  - apply bins_increasing.
  - simpl. lia.
Qed.

Lemma grid_row_shape (n : nat) :
  (n < 25)%nat ->
  exists r0 r1 r2 r3 r4 r5 r6 r7 r8 r9 r10 r11,
    nth n H2H_GRID_POINTS [] = [r0; r1; r2; r3; r4; r5; r6; r7; r8; r9; r10; r11].
Proof.
  intros Hn.
  do 25 (destruct n as [|n]; [cbn; do 12 eexists; reflexivity|]). lia.
Qed.

Lemma bins_range (c : nat) :
  (c < 12)%nat -> 0.2 <= nth c H2H_OPS_BINS 0 <= 2.0.
Proof.
  intros Hc. do 12 (destruct c as [|c]; [cbn; lra|]). lia.
Qed.

Lemma atBatsRow_in_range (z : Z) :
  (1 <= z <= 25)%Z -> atBatsRow (Some (Fin (IZR z))) = z.
Proof. intros H. rewrite atBatsRow_IZR. lia. Qed.

(** X4: at the at-bats and the OPS of a cell of the calibration grid the
    share is the points of that cell over 100. *)
Theorem h2hWeight_at_knots (ab : Z) (c : nat) :
  (1 <= ab <= 25)%Z -> (c < 12)%nat ->
  h2hWeightFromGrid (Some (Fin (IZR ab))) (Some (Fin (nth c H2H_OPS_BINS 0)))
  = Fin (IZR (nth c (nth (Z.to_nat (ab - 1)) H2H_GRID_POINTS []) 0%Z) / 100).
Proof.
  intros Hab Hc. rewrite h2h_value. rewrite atBatsRow_in_range by assumption.
  unfold opsOf. cbn [isFinite isFiniteN toNumber finPart].
  rewrite Rclamp_id by (apply bins_range; assumption).
  destruct (grid_row_shape (Z.to_nat (ab - 1)) ltac:(lia))
    as (r0 & r1 & r2 & r3 & r4 & r5 & r6 & r7 & r8 & r9 & r10 & r11 & ->).
  rewrite interpRow_knot by assumption. reflexivity.
Qed.

Lemma h2hWeight_at_knots_witness :
  ((1 <= 4 <= 25)%Z /\ (7 < 12)%nat)
  /\ h2hWeightFromGrid (Some (Fin (IZR 4))) (Some (Fin (nth 7 H2H_OPS_BINS 0)))
     = Fin (IZR (nth 7 (nth (Z.to_nat (4 - 1)) H2H_GRID_POINTS []) 0%Z) / 100).
Proof.
  split; [split; lia|]. apply (h2hWeight_at_knots 4 7); lia.
Defined.

(** The share depends on the at-bats through the row and on the OPS through
    its clamped value. *)
Lemma h2h_same (ab ab' ops ops' : value) :
  atBatsRow ab = atBatsRow ab' ->
  Rmin 2.0 (Rmax 0.2 (opsOf ops)) = Rmin 2.0 (Rmax 0.2 (opsOf ops')) ->
  h2hWeightFromGrid ab ops = h2hWeightFromGrid ab' ops'.
Proof. intros Ha Ho. rewrite !h2h_value, Ha, Ho. reflexivity. Qed.

Lemma round_half_up_low (x : R) : x < 3 / 2 -> (round_half_up x <= 1)%Z.
Proof.
  intros H. assert (Hlt : (round_half_up x < 2)%Z); [|lia].
  apply lt_IZR. pose proof (round_half_up_le x). simpl. lra.
Qed.

Lemma round_half_up_high (x : R) : 49 / 2 <= x -> (25 <= round_half_up x)%Z.
Proof.
  intros H. unfold round_half_up. apply Zfloor_lub. simpl. lra.
Qed.

(** X5: outside the grid the lookup reads its border.  At-bats that are
    missing, not finite or below 1.5 read row 1 and at-bats from 24.5 on read
    row 25; an OPS up to 0.2 reads the first column and an OPS from 2.0 on
    the last one; an OPS that is missing or not finite reads the baseline
    0.72. *)
Theorem h2hWeight_saturates :
  (forall ab ops, isFinite ab = false ->
     h2hWeightFromGrid ab ops = h2hWeightFromGrid (Some (Fin 1)) ops)
  /\ (forall (a : R) ops, a < 3 / 2 ->
        h2hWeightFromGrid (Some (Fin a)) ops
        = h2hWeightFromGrid (Some (Fin 1)) ops)
  /\ (forall (a : R) ops, 49 / 2 <= a ->
        h2hWeightFromGrid (Some (Fin a)) ops
        = h2hWeightFromGrid (Some (Fin 25)) ops)
  /\ (forall ab (x : R), x <= 0.2 ->
        h2hWeightFromGrid ab (Some (Fin x))
        = h2hWeightFromGrid ab (Some (Fin 0.2)))
  /\ (forall ab (x : R), 2.0 <= x ->
        h2hWeightFromGrid ab (Some (Fin x))
        = h2hWeightFromGrid ab (Some (Fin 2.0)))
  /\ (forall ab ops, isFinite ops = false ->
        h2hWeightFromGrid ab ops
        = h2hWeightFromGrid ab (Some (Fin 0.72))).
Proof.
  assert (H1 : atBatsRow (Some (Fin 1)) = 1%Z) by (apply (atBatsRow_IZR 1)).
  assert (H25 : atBatsRow (Some (Fin 25)) = 25%Z) by (apply (atBatsRow_IZR 25)).
  splits.
  - intros ab ops Hab. apply h2h_same; [|reflexivity].
    rewrite H1. unfold atBatsRow, atBatsOf. rewrite Hab.
    replace 0 with (IZR 0) by reflexivity. rewrite round_half_up_IZR. lia.
  - intros a ops Ha. apply h2h_same; [|reflexivity].
    rewrite H1. unfold atBatsRow, atBatsOf.
    cbn [isFinite isFiniteN toNumber finPart].
    pose proof (round_half_up_low a Ha). lia.
  - intros a ops Ha. apply h2h_same; [|reflexivity].
    rewrite H25. unfold atBatsRow, atBatsOf.
    cbn [isFinite isFiniteN toNumber finPart].
    pose proof (round_half_up_high a Ha). lia.
  - intros ab x Hx. apply h2h_same; [reflexivity|]. unfold opsOf.
    cbn [isFinite isFiniteN toNumber finPart]. unfold Rmin, Rmax. rdec.
  - intros ab x Hx. apply h2h_same; [reflexivity|]. unfold opsOf.
    cbn [isFinite isFiniteN toNumber finPart]. unfold Rmin, Rmax. rdec.
  - intros ab ops Hops. apply h2h_same; [reflexivity|]. unfold opsOf.
    rewrite Hops. reflexivity.
Qed.

(* ----- more at-bats sharpen the reading ----- *)

Lemma interp_step_le (u a b a' b' : R) :
  0 <= u <= 1 -> a <= a' -> b <= b' ->
  a + u * (b - a) <= a' + u * (b' - a').
Proof. intros Hu Ha Hb. nra. Qed.

Lemma interp_unit (b0 b1 x : R) :
  b0 < b1 -> b0 <= x <= b1 -> 0 <= (x - b0) / (b1 - b0) <= 1.
Proof.
  intros Hb Hx.
  assert (Hi : 0 < / (b1 - b0)) by (apply Rinv_0_lt_compat; lra).
  assert (H1 : (b1 - b0) * / (b1 - b0) = 1) by (apply Rinv_r; lra).
  unfold Rdiv. nra.
Qed.

(** Rows over the same bins, compared point by point. *)
Lemma interpFrom_pointwise (rest : list (R * Z)) :
  forall (rest' : list (R * Z)) (b0 : R) (r0 r0' : Z) (x : R),
    binsIncreasing b0 rest -> b0 <= x -> (r0 <= r0')%Z ->
    pointsBelow rest rest' ->
    interpFrom b0 r0 rest x <= interpFrom b0 r0' rest' x.
Proof.
  induction rest as [|[b1 r1] rest IH]; intros rest' b0 r0 r0' x Hb Hx Hr Hp.
  - destruct rest' as [|[b' r'] rest']; [|destruct Hp].
    simpl. apply IZR_le. assumption.
  - destruct rest' as [|[b' r1'] rest']; [destruct Hp|].
    destruct Hp as (<- & Hr1 & Hp). destruct Hb as [Hb Hrest].
    cbn [interpFrom]. destruct (Rle_dec x b1) as [Hle|Hgt].
    + rewrite (Rmult_comm _ (IZR r1 - IZR r0)).
      rewrite (Rmult_comm _ (IZR r1' - IZR r0')).
      rewrite !(Rmult_comm (_ - _) ((x - b0) / (b1 - b0))).
      apply interp_step_le.
      * apply interp_unit; lra.
      * apply IZR_le; assumption.
      * apply IZR_le; assumption.
    + apply IH; auto. lra.
Qed.

(** From a bin edge on, the bins before it play no part. *)
Lemma interpFrom_skip (b0 b1 : R) (r0 r1 : Z) (rest : list (R * Z)) (x : R) :
  b0 < b1 -> binsIncreasing b1 rest -> b1 <= x ->
  interpFrom b0 r0 ((b1, r1) :: rest) x = interpFrom b1 r1 rest x.
Proof.
  intros Hb Hrest Hx. cbn [interpFrom].
  destruct (Rle_dec x b1) as [Hle|Hgt]; [|reflexivity].
  assert (E : x = b1) by lra. subst x.
  replace ((b1 - b0) / (b1 - b0)) with 1 by (field; lra).
  destruct rest as [|[b2 r2] rest]; cbn [interpFrom]; [ring|].
  destruct Hrest as [Hb2 _]. destruct (Rle_dec b1 b2); [|lra].
  replace (b1 - b1) with 0 by lra. unfold Rdiv. ring.
Qed.

(** Up to a bin edge, the bins after it play no part. *)
Lemma interpFrom_upto (l1 : list (R * Z)) :
  forall (l2 : list (R * Z)) (b0 : R) (r0 : Z) (bk : R) (rk : Z) (x : R),
    x <= bk ->
    interpFrom b0 r0 (l1 ++ (bk, rk) :: l2) x
    = interpFrom b0 r0 (l1 ++ [(bk, rk)]) x.
Proof.
  induction l1 as [|[b1 r1] l1 IH]; intros l2 b0 r0 bk rk x Hx;
    cbn [app interpFrom].
  - destruct (Rle_dec x bk); [reflexivity|lra].
  - destruct (Rle_dec x b1); [reflexivity|]. apply IH. assumption.
Qed.

(** The points of one row are not above those of another row from the
    column of OPS 0.8 on, and not below them up to that column. *)
Lemma interpRow_sharpen (r0 r1 r2 r3 r4 r5 r6 r7 r8 r9 r10 r11
                         s0 s1 s2 s3 s4 s5 s6 s7 s8 s9 s10 s11 : Z) (x : R) :
  (s0 <= r0 /\ s1 <= r1 /\ s2 <= r2 /\ s3 <= r3 /\ s4 = r4
   /\ r5 <= s5 /\ r6 <= s6 /\ r7 <= s7 /\ r8 <= s8 /\ r9 <= s9
   /\ r10 <= s10 /\ r11 <= s11)%Z ->
  0.2 <= x ->
  (0.8 <= x ->
   interpRow [r0; r1; r2; r3; r4; r5; r6; r7; r8; r9; r10; r11] x
   <= interpRow [s0; s1; s2; s3; s4; s5; s6; s7; s8; s9; s10; s11] x)
  /\ (x <= 0.8 ->
      interpRow [s0; s1; s2; s3; s4; s5; s6; s7; s8; s9; s10; s11] x
      <= interpRow [r0; r1; r2; r3; r4; r5; r6; r7; r8; r9; r10; r11] x).
Proof.
  intros H Hx0. unfold interpRow. rewrite !combine_bins. split; intros Hx.
  - rewrite (interpFrom_skip 0.2 0.4 r0 r1), (interpFrom_skip 0.4 0.6 r1 r2),
      (interpFrom_skip 0.6 0.7 r2 r3), (interpFrom_skip 0.7 0.8 r3 r4),
      (interpFrom_skip 0.2 0.4 s0 s1), (interpFrom_skip 0.4 0.6 s1 s2),
      (interpFrom_skip 0.6 0.7 s2 s3), (interpFrom_skip 0.7 0.8 s3 s4);
      try lra; try (cbn; repeat split; lra).
    apply interpFrom_pointwise; [cbn; repeat split; lra|lra|lia|].
    cbn. repeat split; lia.
  - pose proof (interpFrom_upto [(0.4, s1); (0.6, s2); (0.7, s3)]
                  [ (0.85, s5); (0.9, s6); (0.95, s7); (1.0, s8); (1.2, s9);
                    (1.4, s10); (2.0, s11) ] 0.2 s0 0.8 s4 x Hx) as Es.
    pose proof (interpFrom_upto [(0.4, r1); (0.6, r2); (0.7, r3)]
                  [ (0.85, r5); (0.9, r6); (0.95, r7); (1.0, r8); (1.2, r9);
                    (1.4, r10); (2.0, r11) ] 0.2 r0 0.8 r4 x Hx) as Er.
    cbn [app] in Es, Er. rewrite Es, Er.
    apply interpFrom_pointwise; [cbn; repeat split; lra|lra|lia|].
    cbn. repeat split; lia.
Qed.

Lemma grid_rows_sharpen (n : nat) (x : R) :
  (S n < 25)%nat -> 0.2 <= x ->
  (0.8 <= x ->
   interpRow (nth n H2H_GRID_POINTS []) x
   <= interpRow (nth (S n) H2H_GRID_POINTS []) x)
  /\ (x <= 0.8 ->
      interpRow (nth (S n) H2H_GRID_POINTS []) x
      <= interpRow (nth n H2H_GRID_POINTS []) x).
Proof.
  intros Hn Hx.
  do 24 (destruct n as [|n];
         [ cbn [nth H2H_GRID_POINTS]; apply interpRow_sharpen; [lia|assumption] |]).
  lia.
Qed.

Lemma grid_rows_sharpen_le (n m : nat) (x : R) :
  (n <= m)%nat -> (m < 25)%nat -> 0.2 <= x ->
  (0.8 <= x ->
   interpRow (nth n H2H_GRID_POINTS []) x
   <= interpRow (nth m H2H_GRID_POINTS []) x)
  /\ (x <= 0.8 ->
      interpRow (nth m H2H_GRID_POINTS []) x
      <= interpRow (nth n H2H_GRID_POINTS []) x).
Proof.
  intros Hnm. induction Hnm as [|m Hnm IH]; intros Hm Hx.
  - split; intros _; lra.
  - destruct (IH ltac:(lia) Hx) as [IH1 IH2].
    destruct (grid_rows_sharpen m x Hm Hx) as [S1 S2].
    split; intros H; [specialize (IH1 H); specialize (S1 H)
                     |specialize (IH2 H); specialize (S2 H)]; lra.
Qed.

Lemma atBatsRow_mono (a1 a2 : R) :
  a1 <= a2 -> (atBatsRow (Some (Fin a1)) <= atBatsRow (Some (Fin a2)))%Z.
Proof.
  intros H. unfold atBatsRow, atBatsOf.
  cbn [isFinite isFiniteN toNumber finPart].
  pose proof (round_half_up_mono a1 a2 H). lia.
Qed.

(** X6: more at-bats sharpen the head-to-head reading.  At an OPS of 0.8
    the share is 0.14 whatever the at-bats; at an OPS above 0.8 the share
    never decreases when the at-bats grow, and at an OPS below 0.8 it never
    increases. *)
Theorem h2hWeight_sample_size :
  (forall ab, h2hWeightFromGrid ab (Some (Fin 0.8)) = Fin 0.14)
  /\ (forall a1 a2 ops : R, a1 <= a2 -> 0.8 <= ops ->
        nle (h2hWeightFromGrid (Some (Fin a1)) (Some (Fin ops)))
            (h2hWeightFromGrid (Some (Fin a2)) (Some (Fin ops))) = true)
  /\ (forall a1 a2 ops : R, a1 <= a2 -> ops <= 0.8 ->
        nle (h2hWeightFromGrid (Some (Fin a2)) (Some (Fin ops)))
            (h2hWeightFromGrid (Some (Fin a1)) (Some (Fin ops))) = true).
Proof.
  assert (Hrows : forall (a1 a2 x : R), a1 <= a2 -> 0.2 <= x ->
            (0.8 <= x ->
             interpRow (nth (Z.to_nat (atBatsRow (Some (Fin a1)) - 1))
                            H2H_GRID_POINTS []) x
             <= interpRow (nth (Z.to_nat (atBatsRow (Some (Fin a2)) - 1))
                               H2H_GRID_POINTS []) x)
            /\ (x <= 0.8 ->
                interpRow (nth (Z.to_nat (atBatsRow (Some (Fin a2)) - 1))
                               H2H_GRID_POINTS []) x
                <= interpRow (nth (Z.to_nat (atBatsRow (Some (Fin a1)) - 1))
                                  H2H_GRID_POINTS []) x)).
  { intros a1 a2 x Ha Hx.
    pose proof (atBatsRow_mono a1 a2 Ha) as Hm.
    pose proof (atBatsRow_range (Some (Fin a1))) as R1.
    pose proof (atBatsRow_range (Some (Fin a2))) as R2.
    apply grid_rows_sharpen_le; [lia|lia|assumption]. }
  splits.
  - intros ab. rewrite h2h_value.
    pose proof (atBatsRow_range ab) as Hr.
    unfold opsOf. cbn [isFinite isFiniteN toNumber finPart].
    rewrite Rclamp_id by lra.
    destruct (grid_rows_sharpen_le 0 (Z.to_nat (atBatsRow ab - 1)) 0.8
                ltac:(lia) ltac:(lia) ltac:(lra)) as [H1 H2].
    specialize (H1 ltac:(lra)). specialize (H2 ltac:(lra)).
    assert (H0 : interpRow (nth 0 H2H_GRID_POINTS []) 0.8 = 14).
    { change 0.8 with (nth 4 H2H_OPS_BINS 0).
      cbn [nth H2H_GRID_POINTS]. rewrite interpRow_knot by lia. reflexivity. }
    f_equal. lra.
  - intros a1 a2 ops Ha Hops. rewrite !h2h_value. apply nle_fin.
    unfold opsOf. cbn [isFinite isFiniteN toNumber finPart].
    apply Rmult_le_compat_r; [lra|].
    pose proof (Rclamp_bounds ops 0.2 2.0 ltac:(lra)) as Hc.
    destruct (Hrows a1 a2 _ Ha (proj1 Hc)) as [H1 _].
    apply H1. unfold Rmin, Rmax. rdec.
  - intros a1 a2 ops Ha Hops. rewrite !h2h_value. apply nle_fin.
    unfold opsOf. cbn [isFinite isFiniteN toNumber finPart].
    apply Rmult_le_compat_r; [lra|].
    pose proof (Rclamp_bounds ops 0.2 2.0 ltac:(lra)) as Hc.
    destruct (Hrows a1 a2 _ Ha (proj1 Hc)) as [_ H2].
    apply H2. unfold Rmin, Rmax. rdec.
Qed.

(** ** The weight of the last seven days *)

Lemma last7Dynamic_half (b : SignalBundle) :
  (Fin 0.10 * Fin 0.50)%num = Fin 0.05.
Proof. num_fin. f_equal. lra. Qed.

Lemma last7Dynamic_fin (b : SignalBundle) (p : R) :
  paLast7 b = Some (Fin p) -> 3 <= p -> isFinite (opsLast7 b) = true ->
  last7Dynamic SCORE_WEIGHTS b
  = Fin (0.10 * (0.50 + 0.50 * sqrt (Rmin 1 (Rmax 0 ((p - 3) / (20 - 3)))))).
Proof.
  intros Hp H3 Hops. unfold last7Dynamic. rewrite Hp, Hops.
  cbn [SCORE_WEIGHTS w_last7].
  assert (Hge : nge (Fin p) 3 = true).
  { unfold nge, nle, rle. destruct (Rle_dec 3 p); [reflexivity|lra]. }
  rewrite Hge. cbn [andb]. num_fin.
  pose proof (Rclamp_bounds ((p - 3) / (20 - 3)) 0 1 ltac:(lra)) as Hc.
  rewrite nsqrt_fin by lra. num_fin. reflexivity.
Qed.

Lemma last7Dynamic_below (b : SignalBundle) (p : R) :
  paLast7 b = Some (Fin p) -> p < 3 -> last7Dynamic SCORE_WEIGHTS b = Fin 0.05.
Proof.
  intros Hp H3. unfold last7Dynamic. rewrite Hp.
  cbn [SCORE_WEIGHTS w_last7].
  assert (Hge : nge (Fin p) 3 = false).
  { unfold nge, nle, rle. destruct (Rle_dec 3 p); [lra|reflexivity]. }
  rewrite Hge. cbn [andb]. num_fin. f_equal. lra.
Qed.

Lemma last7Dynamic_no_ops (b : SignalBundle) :
  isFinite (opsLast7 b) = false -> last7Dynamic SCORE_WEIGHTS b = Fin 0.05.
Proof.
  intros Hops. unfold last7Dynamic. rewrite Hops.
  cbn [SCORE_WEIGHTS w_last7].
  destruct (paLast7 b) as [pa|]; [rewrite andb_false_r|];
    num_fin; f_equal; lra.
Qed.

(** X7: the weight of the last seven days before the redistribution lies
    between half of its base value and the base value 0.10.  It is the half
    without an OPS of the last seven days, without a count of plate
    appearances and below 3 plate appearances; it is the base value from 20
    plate appearances on, and never decreases with the plate appearances. *)
Theorem last7_weight_ramp :
  (forall b, exists l,
     last7Dynamic SCORE_WEIGHTS b = Fin l /\ 0.05 <= l <= 0.10)
  /\ (forall b, isFinite (opsLast7 b) = false ->
        last7Dynamic SCORE_WEIGHTS b = Fin 0.05)
  /\ (forall b, paLast7 b = None -> last7Dynamic SCORE_WEIGHTS b = Fin 0.05)
  /\ (forall b (p : R), paLast7 b = Some (Fin p) -> p < 3 ->
        last7Dynamic SCORE_WEIGHTS b = Fin 0.05)
  /\ (forall b (p : R), paLast7 b = Some (Fin p) -> 20 <= p ->
        isFinite (opsLast7 b) = true ->
        last7Dynamic SCORE_WEIGHTS b = Fin 0.10)
  /\ (forall b1 b2 (p q : R),
        paLast7 b1 = Some (Fin p) -> paLast7 b2 = Some (Fin q) -> p <= q ->
        isFinite (opsLast7 b1) = isFinite (opsLast7 b2) ->
        nle (last7Dynamic SCORE_WEIGHTS b1) (last7Dynamic SCORE_WEIGHTS b2)
        = true).
Proof.
  splits.
  - apply last7_range.
  - apply last7Dynamic_no_ops.
  - apply last7Dynamic_no_data.
  - apply last7Dynamic_below.
  - intros b p Hp H20 Hops. rewrite (last7Dynamic_fin b p) by (auto; lra).
    replace (Rmin 1 (Rmax 0 ((p - 3) / (20 - 3)))) with 1
      by (unfold Rmin, Rmax; rdec).
    rewrite sqrt_1. f_equal. lra.
  - intros b1 b2 p q Hp Hq Hpq Hops.
    destruct (isFinite (opsLast7 b2)) eqn:Hf.
    + destruct (Rlt_dec p 3) as [Hlt|Hge].
      * rewrite (last7Dynamic_below b1 p) by assumption.
        destruct (last7_range b2) as (l & -> & Hl). apply nle_fin. lra.
      * rewrite (last7Dynamic_fin b1 p), (last7Dynamic_fin b2 q)
          by (auto; lra).
        apply nle_fin.
        pose proof (Rclamp_bounds ((p - 3) / (20 - 3)) 0 1 ltac:(lra)) as Hc.
        pose proof (Rclamp_mono ((p - 3) / (20 - 3)) ((q - 3) / (20 - 3))
                      0 1 ltac:(lra)) as Hm.
        pose proof (sqrt_le_1_alt _ _ Hm). lra.
    + rewrite (last7Dynamic_no_ops b1), (last7Dynamic_no_ops b2) by assumption.
      apply nle_fin. lra.
Qed.

(** ** The redistribution *)

(** X8: the redistribution never shrinks.  The four weights it rescales
    together with the last7 weight (h9_side, h9_28, ops_hand, ops_site) are
    multiplied by one factor between 1 and 32/15, the share 0.65 - h2h left
    by the fixed weights over 0.25 plus the last7 weight, so that each of
    them is at least its base value and they keep their proportions; the
    head-to-head weight is the share read off the grid, at least 0.01. *)
Theorem redistribution_scales_up (b : SignalBundle) :
  exists h l sc : R,
    h2hDynamic b = Fin h /\ 0.01 <= h <= 0.30
    /\ last7Dynamic SCORE_WEIGHTS b = Fin l /\ 0.05 <= l <= 0.10
    /\ sc = (0.65 - h) / (0.25 + l) /\ 1 <= sc <= 32 / 15
    /\ w_h2h (weightsOf b) = Fin h
    /\ w_h9_side (weightsOf b) = Fin (0.04 * sc)
    /\ w_h9_28 (weightsOf b) = Fin (0.02 * sc)
    /\ w_ops_hand (weightsOf b) = Fin (0.15 * sc)
    /\ w_ops_site (weightsOf b) = Fin (0.04 * sc)
    /\ w_last7 (weightsOf b) = Fin (Rmin (l * sc) 0.10).
Proof.
  destruct (weightsOf_value b) as (h & l & Hh & Hl & Hhd & Hld & Hw).
  exists h, l, ((0.65 - h) / (0.25 + l)).
  rewrite Hw. cbn [w_h9_side w_h9_28 w_ops_hand w_ops_site w_last7 w_h2h].
  splits; auto; try lra.
  - apply Rmult_le_reg_r with (0.25 + l); [lra|].
    unfold Rdiv. rewrite Rmult_assoc, Rinv_l by lra. lra.
  - apply Rmult_le_reg_r with (0.25 + l); [lra|].
    unfold Rdiv. rewrite Rmult_assoc, Rinv_l by lra. nra.
Qed.

(** ** The raw score *)

Lemma contributionSum_range (b : SignalBundle) :
  0.035 <= contributionSum (compOf b) <= 1.
Proof.
  destruct (compOf_shape b)
    as (v1 & v2 & v3 & v4 & v5 & v6 & o & h & Hcomp & Hhd & Hh & Ho
        & b1 & b2 & b3 & b4 & b5 & b6 & C1 & C2 & C3 & C4 & C5 & C6 & Hsum).
  rewrite Hcomp. unfold contributionSum. cbn [map snd finPart Rsum fold_right].
  destruct C1 as [_ B1], C2 as [_ B2], C3 as [_ B3], C4 as [_ B4],
    C5 as [_ B5], C6 as [_ B6].
  lra.
Qed.

Lemma round_half_up_ge (x : R) (n : Z) :
  IZR n - 1 / 2 <= x -> (n <= round_half_up x)%Z.
Proof. intros H. unfold round_half_up. apply Zfloor_lub. lra. Qed.

(** X9: the floor of 1 on the score never decides.  The sum of the eight
    contributions of a hitter is at least 0.035, the least opportunity
    share 0.025 and the least head-to-head share 0.01, so that the lower
    end of the clamp is idle and the score is the rounded hundredfold of the
    smaller of 1 and the sum, a whole number from 4 to 100. *)
Theorem score_floor_never_decides (b : SignalBundle) :
  sumFinite (map snd (compOf b)) = Fin (contributionSum (compOf b))
  /\ 0.035 <= contributionSum (compOf b)
  /\ score (scoreHitter b)
     = Fin (IZR (round_half_up (Rmin 1 (contributionSum (compOf b)) * 100)))
  /\ (4 <= round_half_up (Rmin 1 (contributionSum (compOf b)) * 100)
       <= 100)%Z.
Proof.
  pose proof (contributionSum_range b) as Hr.
  assert (Hmin : 0.035 <= Rmin 1 (contributionSum (compOf b)) <= 1).
  { unfold Rmin. destruct (Rle_dec 1 (contributionSum (compOf b))); lra. }
  assert (Hlo : (4 <= round_half_up
                        (Rmin 1 (contributionSum (compOf b)) * 100))%Z).
  { apply round_half_up_ge. simpl. lra. }
  assert (Hhi : (round_half_up (Rmin 1 (contributionSum (compOf b)) * 100)
                 <= 100)%Z).
  { apply Z.le_trans with (round_half_up (IZR 100)).
    - apply round_half_up_mono. lra.
    - rewrite round_half_up_IZR. lia. }
  splits; try lra; try lia.
  - apply sumFinite_finPart.
  - unfold scoreHitter. cbn [score]. rewrite scaledScoreOf_value.
    fold (contributionSum (compOf b)). unfold scoreOfSum.
    rewrite (Rmax_right 0 (contributionSum (compOf b))) by lra.
    f_equal. f_equal. lia.
Qed.

(** ** The score grows with the signals *)

Lemma notLower_isFinite (v1 v2 : value) :
  notLower v1 v2 -> isFinite v1 = isFinite v2.
Proof. intros [->|(x & y & -> & -> & _)]; reflexivity. Qed.

Lemma numLe_refl_unitOrNaN (n : num) : unitOrNaN n -> numLe n n.
Proof. intros _. left. reflexivity. Qed.

Lemma normWTB_notLower (v1 v2 : value) :
  notLower v1 v2 ->
  exists r s, normWTB v1 = Fin r /\ normWTB v2 = Fin s /\ 0 <= r <= s.
Proof.
  intros [->|(x & y & -> & -> & Hxy)].
  - destruct (normWTB_unit v2) as (r & Hr & Hb). exists r, r.
    repeat split; auto; lra.
  - destruct (normWTB_mono x y Hxy) as (r & s & Hr & Hs & H0 & H1 & _).
    exists r, s. repeat split; auto.
Qed.

Lemma wtbPAConfidence_notLower (v1 v2 : value) :
  notLower v1 v2 ->
  exists c d, wtbPAConfidence v1 = Fin c /\ wtbPAConfidence v2 = Fin d
    /\ 0 <= c <= d.
Proof.
  intros [->|(x & y & -> & -> & Hxy)].
  - destruct (wtbPAConfidence_range v2) as (c & Hc & Hb). exists c, c.
    repeat split; auto; lra.
  - destruct (wtbPAConfidence_mono x y Hxy) as (c & d & Hc & Hd & H0 & H1 & _).
    exists c, d. repeat split; auto; lra.
Qed.

Lemma normH9_notLower (v1 v2 : value) :
  notLower v1 v2 -> numLe (normH9 v1) (normH9 v2).
Proof.
  intros [->|(x & y & -> & -> & Hxy)]; [left; reflexivity|].
  right. rewrite !normH9_fin. do 2 eexists.
  split; [reflexivity|]. split; [reflexivity|].
  pose proof (Rclamp_bounds ((x - 6.0) / (12.0 - 6.0)) 0 1 ltac:(lra)).
  pose proof (Rclamp_mono ((x - 6.0) / (12.0 - 6.0))
                ((y - 6.0) / (12.0 - 6.0)) 0 1 ltac:(lra)).
  lra.
Qed.

Lemma normOPS_notLower (v1 v2 : value) :
  notLower v1 v2 -> numLe (normOPS v1) (normOPS v2).
Proof.
  intros [->|(x & y & -> & -> & Hxy)]; [left; reflexivity|].
  right. rewrite !normOPS_fin. do 2 eexists.
  split; [reflexivity|]. split; [reflexivity|].
  pose proof (Rclamp_bounds ((x - 0.40) / (1.050 - 0.40)) 0 1 ltac:(lra)).
  pose proof (Rclamp_mono ((x - 0.40) / (1.050 - 0.40))
                ((y - 0.40) / (1.050 - 0.40)) 0 1 ltac:(lra)).
  lra.
Qed.

Lemma numLe_contribution (n1 n2 : num) (w : R) :
  numLe n1 n2 -> 0 <= w ->
  finPart (n1 * Fin w)%num <= finPart (n2 * Fin w)%num.
Proof.
  intros [->|(r & s & -> & -> & Hrs)] Hw; [lra|].
  rewrite !nmul_fin. cbn [finPart]. nra.
Qed.

Lemma weightsOf_improves (b1 b2 : SignalBundle) :
  improves b1 b2 -> weightsOf b1 = weightsOf b2.
Proof.
  intros (_ & _ & Hpa & Hab & Hops & _ & _ & _ & _ & Hl7 & _).
  apply notLower_isFinite in Hl7.
  unfold weightsOf, h2hDynamic, last7Dynamic. rewrite Hpa, Hab, Hops, Hl7.
  reflexivity.
Qed.

Lemma contributionSum_improves (b1 b2 : SignalBundle) :
  improves b1 b2 ->
  contributionSum (compOf b1) <= contributionSum (compOf b2).
Proof.
  intros Himp. pose proof (weightsOf_improves b1 b2 Himp) as Hw.
  destruct Himp as (Hpo & Hhome & _ & _ & _ & Hwtb & Hspa & Hsite & Hhand
                    & Hl7 & Hside & H28).
  destruct (weightsOf_value b2) as (h & l & Hh & Hl & _ & _ & Hw2).
  destruct (scale_pos h l Hh Hl) as [Hpos _].
  unfold compOf, oppShareOf. rewrite Hw, Hpo, Hhome. rewrite Hw2.
  cbn [w_wtb w_h9_side w_h9_28 w_ops_hand w_ops_site w_last7 w_opp w_h2h].
  set (sc := (0.65 - h) / (0.25 + l)) in *.
  unfold contributionSum. cbn [map snd Rsum fold_right].
  destruct (normWTB_notLower _ _ Hwtb) as (r & s & -> & -> & Hrs).
  destruct (wtbPAConfidence_notLower _ _ Hspa) as (c & d & -> & -> & Hcd).
  pose proof (numLe_contribution _ _ (0.04 * sc) (normH9_notLower _ _ Hside)
                ltac:(nra)) as E2.
  pose proof (numLe_contribution _ _ (0.02 * sc) (normH9_notLower _ _ H28)
                ltac:(nra)) as E3.
  pose proof (numLe_contribution _ _ (0.15 * sc) (normOPS_notLower _ _ Hhand)
                ltac:(nra)) as E4.
  pose proof (numLe_contribution _ _ (0.04 * sc) (normOPS_notLower _ _ Hsite)
                ltac:(nra)) as E5.
  assert (Hcap : 0 <= Rmin (l * sc) 0.10).
  { unfold Rmin. destruct (Rle_dec (l * sc) 0.10); nra. }
  pose proof (numLe_contribution _ _ (Rmin (l * sc) 0.10)
                (normOPS_notLower _ _ Hl7) Hcap) as E6.
  rewrite !nmul_fin. cbn [finPart] in *.
  assert (E1 : r * 0.30 * c <= s * 0.30 * d) by nra.
  lra.
Qed.

(** X10: a hitter whose signals are not lower does not score lower.  Of two
    hitters with the same projected slot and site, the same at-bats and OPS
    against the pitcher and the same plate appearances over the last seven
    days, the one whose weighted rate, season plate appearances, OPS splits,
    OPS of the last seven days and hits per nine innings allowed by the
    pitcher are each the same or higher has a score that is the same or
    higher. *)
Theorem score_monotone (b1 b2 : SignalBundle) :
  improves b1 b2 ->
  nle (score (scoreHitter b1)) (score (scoreHitter b2)) = true.
Proof.
  intros Himp. pose proof (contributionSum_improves b1 b2 Himp) as Hle.
  pose proof (contributionSum_range b1) as R1.
  pose proof (contributionSum_range b2) as R2.
  unfold scoreHitter. cbn [score]. rewrite !scaledScoreOf_value.
  fold (contributionSum (compOf b1)). fold (contributionSum (compOf b2)).
  apply nle_fin. apply IZR_le. unfold scoreOfSum.
  rewrite !Rclamp_id by lra.
  pose proof (round_half_up_mono (contributionSum (compOf b1) * 100)
                (contributionSum (compOf b2) * 100) ltac:(lra)).
  lia.
Qed.

Lemma score_monotone_witness :
  improves bundleA_lower bundleA
  /\ nle (score (scoreHitter bundleA_lower)) (score (scoreHitter bundleA)) = true.
Proof.
  assert (H : improves bundleA_lower bundleA).
  { unfold improves, notLower. cbn.
    repeat split; try (left; reflexivity).
    - right. exists 0.25, 0.30. repeat split; lra.
    - right. exists 90, 100. repeat split; lra. }
  split; [exact H|]. apply (score_monotone bundleA_lower bundleA H).
Defined.

(** ** The entries of the breakdown *)

Lemma scoreHitter_breakdown (b : SignalBundle) :
  exists (h : R) (n1 n2 n3 n4 n5 n6 n7 : Z),
    0.01 <= h <= 0.30
    /\ score (scoreHitter b) = Fin (IZR (scoreOfSum (contributionSum (compOf b))))
    /\ score_breakdown (scoreHitter b) =
         map pointsEntry
           [ ("wtb"%string, n1); ("h9_side"%string, n2); ("h9_28"%string, n3);
             ("ops_hand"%string, n4); ("ops_site"%string, n5);
             ("last7"%string, n6); ("opp"%string, n7);
             ("h2h"%string, round_half_up (h * 100)) ]
    /\ (0 <= n1 /\ 0 <= n2 /\ 0 <= n3 /\ 0 <= n4 /\ 0 <= n5 /\ 0 <= n6
        /\ 0 <= n7)%Z
    /\ (n1 + n2 + n3 + n4 + n5 + n6 + n7 + round_half_up (h * 100)
        = scoreOfSum (contributionSum (compOf b)))%Z.
Proof.
  destruct (compOf_shape b)
    as (v1 & v2 & v3 & v4 & v5 & v6 & o & h & Hcomp & Hhd & Hh & Ho
        & b1 & b2 & b3 & b4 & b5 & b6 & C1 & C2 & C3 & C4 & C5 & C6 & Hsum).
  destruct (breakdown_value v1 v2 v3 v4 v5 v6 o h b1 b2 b3 b4 b5 b6
              C1 C2 C3 C4 C5 C6 Ho Hh Hsum)
    as (n1 & n2 & n3 & n4 & n5 & n6 & n7 & Hbd & Hpos & Htot).
  exists h, n1, n2, n3, n4, n5, n6, n7.
  unfold scoreHitter. cbn [score score_breakdown].
  rewrite scaledScoreOf_value. fold (contributionSum (compOf b)).
  rewrite Hcomp. split; [exact Hh|]. split; [reflexivity|].
  split; [exact Hbd|]. split; [exact Hpos|exact Htot].
Qed.

(** X11: every entry of the breakdown is a whole number of points between 0
    and the score; the head-to-head entry is at least 1. *)
Theorem breakdown_entries_are_points (b : SignalBundle) :
  exists total : Z,
    score (scoreHitter b) = Fin (IZR total)
    /\ (forall k v, In (k, v) (score_breakdown (scoreHitter b)) ->
          exists n : Z, v = Fin (IZR n) /\ (0 <= n <= total)%Z)
    /\ exists n : Z,
         field "h2h" (score_breakdown (scoreHitter b)) = Some (Fin (IZR n))
         /\ (1 <= n <= 30)%Z.
Proof.
  destruct (scoreHitter_breakdown b)
    as (h & n1 & n2 & n3 & n4 & n5 & n6 & n7 & Hh & Hscore & Hbd
        & (P1 & P2 & P3 & P4 & P5 & P6 & P7) & Htot).
  assert (Hlo : (1 <= round_half_up (h * 100))%Z).
  { apply round_half_up_ge. simpl. lra. }
  assert (Hhi : (round_half_up (h * 100) <= 30)%Z).
  { apply Z.le_trans with (round_half_up (IZR 30)).
    - apply round_half_up_mono. simpl. lra.
    - rewrite round_half_up_IZR. lia. }
  exists (scoreOfSum (contributionSum (compOf b))).
  split; [exact Hscore|]. split.
  - intros k v Hin. rewrite Hbd in Hin. cbn [map pointsEntry fst snd] in Hin.
    destruct Hin as [E|[E|[E|[E|[E|[E|[E|[E|[]]]]]]]]]; inversion E; subst;
      eexists; (split; [reflexivity|lia]).
  - exists (round_half_up (h * 100)). rewrite Hbd. split; [reflexivity|lia].
Qed.

(** ** Listed hitters and their projected plate appearances *)

Lemma occurrences_slot0 (obs : list Observation) : occurrences 0 obs = 0%Z.
Proof.
  unfold occurrences.
  induction obs as [|o obs IH]; [reflexivity|]. cbn [filter].
  unfold recorded at 1. destruct (Nat.eqb_spec (obsSlot o) 0) as [E|E].
  - cbn [orb negb andb]. exact IH.
  - rewrite andb_false_r. exact IH.
Qed.

Lemma projectSlot_positive (obs : list Observation) (s : nat) :
  projectSlot obs = Some s -> (1 <= s)%nat /\ (0 < occurrences s obs)%Z.
Proof.
  intros H. pose proof (projectSlot_spec obs) as Hs. rewrite H in Hs.
  destruct Hs as [[Hpos _] _]. split; [|assumption].
  destruct s as [|s]; [|lia]. rewrite occurrences_slot0 in Hpos. lia.
Qed.

Lemma table_range (home : bool) (s : nat) :
  (1 <= s <= 5)%nat ->
  exists pa, PROJECTED_PA_TABLE home s = Some pa /\ 4.10 <= pa <= 4.69.
Proof.
  intros Hs. destruct home;
    do 6 (destruct s as [|s];
          [first [lia | cbn; eexists; split; [reflexivity|lra]]|]);
    lia.
Qed.

(** X12: a hitter listed for a probable pitcher has projected plate
    appearances.  When the projected slot of the bundle is the projection of
    the hitter's boxscore lines and the hitter passes the filter of
    [analyzeProbable], the slot is one of 1 to 5 in which the hitter has a
    recorded line, [projected_pa] is the entry of the table for that slot
    and site, between 4.10 and 4.69, and the opportunity share is computed
    from it with no clamping. *)
Theorem listed_hitter_has_projected_pa (obs : list Observation)
    (b : SignalBundle) :
  projectedOrder b = projectSlot obs ->
  eligible (scoreHitter b) = true ->
  exists (s : nat) (pa : R),
    projectSlot obs = Some s /\ (1 <= s <= 5)%nat
    /\ (0 < occurrences s obs)%Z
    /\ PROJECTED_PA_TABLE (opponentIsHome b) s = Some pa
    /\ projected_pa (scoreHitter b) = Some (Fin pa)
    /\ 4.10 <= pa <= 4.69
    /\ field "opp" (compOf b)
       = Some (Fin (0.05 * (0.5 + 0.5 * ((pa - 4.10) / (4.69 - 4.10))))).
Proof.
  intros Hproj Hel. rewrite eligible_scoreHitter in Hel.
  apply andb_true_iff in Hel. destruct Hel as [_ Hslot].
  destruct (projectedOrder b) as [s|] eqn:Es; [|discriminate].
  apply Nat.leb_le in Hslot. symmetry in Hproj.
  destruct (projectSlot_positive obs s Hproj) as [H1 Hocc].
  destruct (table_range (opponentIsHome b) s ltac:(lia)) as (pa & Hpa & Hb).
  exists s, pa. splits; auto; try lia; try lra.
  - unfold scoreHitter. cbn [projected_pa]. unfold projectedPAFor.
    rewrite Es, Hpa. reflexivity.
  - destruct (weightsOf_value b) as (h & l & _ & _ & _ & _ & Hw).
    unfold compOf. cbn [field String.eqb Ascii.eqb Bool.eqb].
    unfold oppShareOf, projectedPAFor. rewrite Es, Hpa, Hw. cbn [w_opp].
    num_fin. rewrite Rclamp_id; [reflexivity|].
    assert (Hi : 0 < / (4.69 - 4.10)) by (apply Rinv_0_lt_compat; lra).
    assert (H1' : (4.69 - 4.10) * / (4.69 - 4.10) = 1) by (apply Rinv_r; lra).
    unfold Rdiv. nra.
Qed.

Lemma bundleA_eligible : eligible (scoreHitter bundleA) = true.
Proof.
  rewrite eligible_scoreHitter.
  cbn [bundleA ab_vs_pitcher projectedOrder toNumber Nat.leb].
  unfold nge, nle, rle. destruct (Rle_dec 1 20); [reflexivity|lra].
Qed.

Lemma listed_hitter_has_projected_pa_witness :
  (projectedOrder bundleA = projectSlot [line 5 "2024-06-01"]
   /\ eligible (scoreHitter bundleA) = true)
  /\ exists (s : nat) (pa : R),
       projectSlot [line 5 "2024-06-01"] = Some s /\ (1 <= s <= 5)%nat
       /\ (0 < occurrences s [line 5 "2024-06-01"])%Z
       /\ PROJECTED_PA_TABLE (opponentIsHome bundleA) s = Some pa
       /\ projected_pa (scoreHitter bundleA) = Some (Fin pa)
       /\ 4.10 <= pa <= 4.69
       /\ field "opp" (compOf bundleA)
          = Some (Fin (0.05 * (0.5 + 0.5 * ((pa - 4.10) / (4.69 - 4.10))))).
Proof.
  split.
  - split; [reflexivity|apply bundleA_eligible].
  - apply (listed_hitter_has_projected_pa [line 5 "2024-06-01"] bundleA);
      [reflexivity|apply bundleA_eligible].
Defined.

(** ** Decoding the batting order *)

Lemma Zfloor_hundredth (k j : Z) :
  (0 <= j < 100)%Z -> Zfloor (IZR (100 * k + j) / 100) = k.
Proof.
  intros Hj. apply Zfloor_eq.
  rewrite plus_IZR, mult_IZR.
  assert (H0 : 0 <= IZR j) by (apply (IZR_le 0); lia).
  assert (H1 : IZR j <= 99) by (apply (IZR_le j 99); lia).
  lra.
Qed.

Lemma falsyN_IZR (k : Z) : falsyN (Fin (IZR k)) = (k =? 0)%Z.
Proof.
  unfold falsyN, req. destruct (Req_dec_T (IZR k) 0) as [H|H].
  - apply eq_IZR_R0 in H. subst. reflexivity.
  - destruct (Z.eqb_spec k 0); [subst; simpl in H; lra|reflexivity].
Qed.

Lemma slot_of_number (n : R) :
  (if negb (isFiniteN (Fin n)) then None
   else if falsyN (nfloor (Fin n / 100)) then None
        else Some (nfloor (Fin n / 100)))
  = if (Zfloor (n / 100) =? 0)%Z then None
    else Some (Fin (IZR (Zfloor (n / 100)))).
Proof.
  cbn [isFiniteN negb]. rewrite ndiv_fin by lra. cbn [nfloor].
  rewrite falsyN_IZR. reflexivity.
Qed.

(** X13: the slot decoded from a batting-order code is never 0, [NaN] or a
    fraction: it is null or a whole number other than 0, the number of
    hundreds of the code. *)
Theorem battingOrderSlot_never_zero (stringToNumber : string -> num)
    (bo : jsval) :
  battingOrderSlot stringToNumber bo = None
  \/ exists (n : R) (k : Z),
       jsNumber stringToNumber bo = Fin n
       /\ k = Zfloor (n / 100) /\ k <> 0%Z
       /\ battingOrderSlot stringToNumber bo = Some (Fin (IZR k)).
Proof.
  unfold battingOrderSlot. destruct (falsy bo); [left; reflexivity|].
  cbv zeta. destruct (jsNumber stringToNumber bo) as [n| | |] eqn:En;
    try (left; reflexivity).
  rewrite slot_of_number.
  destruct (Z.eqb_spec (Zfloor (n / 100)) 0) as [E|E]; [left; reflexivity|].
  right. exists n, (Zfloor (n / 100)). auto.
Qed.

(** X14: a batting-order code decodes to its hundreds.  Whatever holds the
    code (a string or a number), when it reads as the whole number
    100 * k + j with 0 <= j < 100 the decoded slot is k, and null when
    k = 0: the codes 100 to 199 of the first slot and its substitutes give
    1, the codes 900 to 999 give 9, the codes below 100 give null. *)
Theorem battingOrderSlot_decode (stringToNumber : string -> num)
    (bo : jsval) (k j : Z) :
  stringToNumber EmptyString = Fin 0 ->
  jsNumber stringToNumber bo = Fin (IZR (100 * k + j)) ->
  (0 <= j < 100)%Z ->
  battingOrderSlot stringToNumber bo
  = if (k =? 0)%Z then None else Some (Fin (IZR k)).
Proof.
  intros Hempty Hn Hj.
  assert (Hgen :
    (let n := jsNumber stringToNumber bo in
     if negb (isFiniteN n) then None
     else let q := nfloor (n / 100) in if falsyN q then None else Some q)
    = if (k =? 0)%Z then None else Some (Fin (IZR k))).
  { cbv zeta. rewrite Hn, slot_of_number, Zfloor_hundredth by assumption.
    reflexivity. }
  unfold battingOrderSlot. destruct (falsy bo) eqn:Hf; [|exact Hgen].
  (* a value that counts as false reads as 0 *)
  assert (Hz : (100 * k + j = 0)%Z).
  { destruct bo as [| |n|s]; cbn [falsy jsNumber] in Hf, Hn.
    - inversion Hn as [E]. symmetry in E. apply eq_IZR_R0 in E. exact E.
    - discriminate.
    - destruct n as [x| | |]; try discriminate. cbn [falsyN] in Hf.
      unfold req in Hf. destruct (Req_dec_T x 0) as [Ex|]; [|discriminate].
      inversion Hn as [E]. rewrite Ex in E. symmetry in E.
      apply eq_IZR_R0 in E. exact E.
    - apply String.eqb_eq in Hf. subst s. rewrite Hempty in Hn.
      inversion Hn as [E]. symmetry in E. apply eq_IZR_R0 in E. exact E. }
  assert (k = 0%Z) by lia. subst k. reflexivity.
Qed.

Lemma battingOrderSlot_decode_witness :
  (decimalReading EmptyString = Fin 0
   /\ jsNumber decimalReading (JStr "402") = Fin (IZR (100 * 4 + 2))
   /\ (0 <= 2 < 100)%Z)
  /\ battingOrderSlot decimalReading (JStr "402")
     = if (4 =? 0)%Z then None else Some (Fin (IZR 4)).
Proof.
  split.
  - split; [reflexivity|]. split; [reflexivity|lia].
  - apply (battingOrderSlot_decode decimalReading (JStr "402") 4 2);
      [reflexivity|reflexivity|lia].
Defined.

(** ** Season statistics *)

(** X15: the weighted rate is never the outcome of 0 / 0.  [computeWTB] is
    not [NaN] whenever the hits are a finite number or missing, whatever the
    other fields hold, counts that are [NaN] or infinite included; it
    returns 0 for a hitter without a positive count of plate appearances,
    whom [normWTB] then rates 0 and not the neutral 0.5; and with hits
    between 0 and a positive count of plate appearances it returns their
    quotient, between 0 and 1. *)
Theorem computeWTB_guarded :
  (forall stat, isFiniteN (nullish (stat_hits stat) 0) = true ->
     computeWTB stat <> NaN)
  /\ (forall stat, ngt (plateAppearances stat) 0 = false ->
        computeWTB stat = Fin 0
        /\ normWTB (Some (computeWTB stat)) = Fin 0)
  /\ (forall stat (h p : R),
        stat_hits stat = Some (Fin h) -> plateAppearances stat = Fin p ->
        0 < p -> 0 <= h <= p ->
        computeWTB stat = Fin (h / p) /\ 0 <= h / p <= 1).
Proof.
  splits.
  - intros stat Hh. unfold computeWTB. cbv zeta.
    destruct (nullish (stat_hits stat) 0) as [h| | |]; try discriminate.
    destruct (plateAppearances stat) as [p| | |]; cbn [ngt nlt];
      try discriminate.
    unfold rlt. destruct (Rlt_dec 0 p); [|discriminate].
    rewrite ndiv_fin by lra. discriminate.
  - intros stat Hpa. unfold computeWTB. cbv zeta. rewrite Hpa.
    split; [reflexivity|]. apply normWTB_below. lra.
  - intros stat h p Hh Hp Hpos Hb. unfold computeWTB. cbv zeta.
    rewrite Hp, Hh. cbn [nullish ngt nlt]. unfold rlt.
    destruct (Rlt_dec 0 p); [|lra]. rewrite ndiv_fin by lra.
    split; [reflexivity|].
    assert (Hi : 0 < / p) by (apply Rinv_0_lt_compat; assumption).
    assert (H1 : p * / p = 1) by (apply Rinv_r; lra).
    unfold Rdiv. nra.
Qed.

(** ** Reading the boxscores of the opponent *)

Lemma fold_left_flat_map {A B C : Type} (f : A -> C -> A) (g : B -> list C)
    (l : list B) (a : A) :
  fold_left f (flat_map g l) a
  = fold_left (fun a x => fold_left f (g x) a) l a.
Proof.
  revert a. induction l as [|x l IH]; intros a; cbn [flat_map fold_left].
  - reflexivity.
  - rewrite fold_left_app. apply IH.
Qed.

Lemma fold_left_ext_in {A B : Type} (f g : A -> B -> A) (l : list B) (a : A) :
  (forall a x, f a x = g a x) -> fold_left f l a = fold_left g l a.
Proof.
  intros H. revert a. induction l as [|x l IH]; intros a; cbn [fold_left].
  - reflexivity.
  - rewrite H. apply IH.
Qed.

Lemma fold_left_mapped {A B C : Type} (f : A -> C -> A) (g : B -> C)
    (l : list B) (a : A) :
  fold_left f (map g l) a = fold_left (fun a x => f a (g x)) l a.
Proof.
  revert a. induction l as [|x l IH]; intros a; cbn [map fold_left].
  - reflexivity.
  - apply IH.
Qed.

(** The nested loops read the players one after the other. *)
Lemma collectOrders_flat (opp : nat) (games : list OppGame) :
  collectOrders opp games
  = fold_left recordLine (readPlayers opp games)
      {| ordersByPlayer := []; candidateBatterIds := [] |}.
Proof.
  unfold collectOrders, readPlayers. rewrite fold_left_flat_map.
  apply fold_left_ext_in. intros t g. unfold recordGame.
  destruct (boxscore g) as [sides|]; [|reflexivity].
  rewrite fold_left_flat_map. apply fold_left_ext_in. intros t' side.
  unfold recordSide. destruct (sideIsOpponent opp side); [|reflexivity].
  rewrite fold_left_mapped. reflexivity.
Qed.

Lemma getOrder_setOrder (m : Orders) (k k' : nat) (e : Entry) :
  getOrder (setOrder m k e) k' = if Nat.eqb k k' then Some e else getOrder m k'.
Proof.
  induction m as [|[k0 e0] m IH]; cbn [setOrder getOrder].
  - reflexivity.
  - destruct (Nat.eqb_spec k0 k) as [->|Hne]; cbn [getOrder].
    + destruct (Nat.eqb k k'); reflexivity.
    + rewrite IH. destruct (Nat.eqb_spec k0 k') as [->|Hne'].
      * destruct (Nat.eqb_spec k k'); [congruence|reflexivity].
      * reflexivity.
Qed.

Lemma recordSlot_some (e : option Entry) (o : Observation) :
  recorded o = true -> exists entry, recordSlot e o = Some entry.
Proof.
  intros H. unfold recordSlot. unfold recorded in H.
  apply negb_true_iff in H. rewrite H.
  destruct (noDate _ || dateGe _ _); eexists; reflexivity.
Qed.

Lemma linesIn_snoc (l : list (string * BoxPlayer)) (dp : string * BoxPlayer)
    (pid : nat) :
  linesIn (l ++ [dp]) pid
  = if Nat.eqb (playerId (snd dp)) pid
    then linesIn l pid ++ [obsOf (fst dp) (snd dp)]
    else linesIn l pid.
Proof.
  unfold linesIn. rewrite filter_app. cbn [filter].
  destruct (Nat.eqb (playerId (snd dp)) pid).
  - rewrite map_app. reflexivity.
  - rewrite app_nil_r. reflexivity.
Qed.

Lemma recorded_obsOf (d : string) (pl : BoxPlayer) :
  recorded (obsOf d pl) = negb (Nat.eqb (playerSlot pl) 0 || playerIsPitcher pl).
Proof. reflexivity. Qed.

(** What the loop holds after the players [l]. *)
Lemma recordLine_inv (l : list (string * BoxPlayer)) :
  let t := fold_left recordLine l
             {| ordersByPlayer := []; candidateBatterIds := [] |} in
  (forall pid, pid <> O ->
     getOrder (ordersByPlayer t) pid = buildEntry (linesIn l pid))
  /\ (forall pid, In pid (candidateBatterIds t) <->
        pid <> O
        /\ exists o, In o (linesIn l pid) /\ recorded o = true
             /\ (1 <= obsSlot o <= 5)%nat)
  /\ NoDup (candidateBatterIds t).
Proof.
  induction l as [|dp l IH] using rev_ind.
  - cbn. split; [reflexivity|]. split; [|constructor].
    intros pid. split; [intros []|]. intros (_ & o & [] & _).
  - rewrite fold_left_app. cbn [fold_left].
    set (t := fold_left recordLine l
                {| ordersByPlayer := []; candidateBatterIds := [] |}) in *.
    cbv zeta in IH. destruct IH as (Hord & Hcand & Hnd).
    destruct dp as [d pl]. unfold recordLine. cbn [fst snd].
    unfold recordPlayer.
    destruct (Nat.eqb_spec (playerId pl) 0) as [Hp0|Hp0]; cbn [orb].
    { (* no person id *)
      split; [|split; [|exact Hnd]].
      - intros pid Hpid. rewrite linesIn_snoc. cbn [snd].
        destruct (Nat.eqb_spec (playerId pl) pid); [congruence|]. auto.
      - intros pid. rewrite linesIn_snoc. cbn [snd].
        destruct (Nat.eqb_spec (playerId pl) pid) as [E|E]; [|apply Hcand].
        rewrite Hcand. split; intros [Hpid _]; congruence. }
    destruct (Nat.eqb (playerSlot pl) 0 || playerIsPitcher pl) eqn:Hskip.
    { (* no slot, or a pitcher *)
      assert (Hrec : recorded (obsOf d pl) = false).
      { rewrite recorded_obsOf, Hskip. reflexivity. }
      split; [|split; [|exact Hnd]].
      - intros pid Hpid. rewrite linesIn_snoc. cbn [fst snd].
        destruct (Nat.eqb_spec (playerId pl) pid); [|auto].
        rewrite buildEntry_snoc, recordSlot_skip by assumption. auto.
      - intros pid. rewrite linesIn_snoc. cbn [fst snd].
        destruct (Nat.eqb_spec (playerId pl) pid) as [E|E]; [|apply Hcand].
        rewrite Hcand. split; intros (Hpid & o & Hin & Ho & Hs).
        + split; [assumption|]. exists o. split; [|auto].
          apply in_or_app. left; assumption.
        + split; [assumption|]. exists o. split; [|auto].
          apply in_app_or in Hin. destruct Hin as [Hin|[<-|[]]]; [assumption|].
          congruence. }
    assert (Hrec : recorded (obsOf d pl) = true).
    { rewrite recorded_obsOf, Hskip. reflexivity. }
    destruct (recordSlot_some (getOrder (ordersByPlayer t) (playerId pl))
                (obsOf d pl) Hrec) as (entry & Hentry).
    rewrite Hentry. cbn [ordersByPlayer candidateBatterIds].
    split; [|split].
    + intros pid Hpid. rewrite getOrder_setOrder, linesIn_snoc. cbn [fst snd].
      destruct (Nat.eqb_spec (playerId pl) pid) as [E|E]; [|auto].
      rewrite buildEntry_snoc, <- Hord, <- E by congruence. auto.
    + intros pid. rewrite linesIn_snoc. cbn [fst snd].
      assert (Hslot : obsSlot (obsOf d pl) = playerSlot pl) by reflexivity.
      destruct (Nat.leb 1 (playerSlot pl) && Nat.leb (playerSlot pl) 5) eqn:H15.
      * apply andb_true_iff in H15. destruct H15 as [H1 H5].
        apply Nat.leb_le in H1, H5.
        unfold addCandidate.
        destruct (existsb (Nat.eqb (playerId pl)) (candidateBatterIds t)) eqn:Hex.
        -- apply existsb_exists in Hex. destruct Hex as (x & Hx & Hxe).
           apply Nat.eqb_eq in Hxe. subst x.
           destruct (Nat.eqb_spec (playerId pl) pid) as [E|E]; [|apply Hcand].
           subst pid. split.
           ++ intros _. split; [assumption|]. exists (obsOf d pl).
              split; [apply in_or_app; right; left; reflexivity|]. split; [assumption|lia].
           ++ intros _. assumption.
        -- rewrite in_app_iff. cbn [In].
           destruct (Nat.eqb_spec (playerId pl) pid) as [E|E].
           ++ subst pid. split.
              ** intros _. split; [assumption|]. exists (obsOf d pl).
                 split; [apply in_or_app; right; left; reflexivity|].
                 split; [assumption|lia].
              ** intros _. right. left. reflexivity.
           ++ rewrite Hcand. split.
              ** intros [H|[H|[]]]; [assumption|congruence].
              ** intros H. left. assumption.
      * destruct (Nat.eqb_spec (playerId pl) pid) as [E|E]; [|apply Hcand].
        rewrite Hcand. split; intros (Hpid & o & Hin & Ho & Hs).
        -- split; [assumption|]. exists o. split; [|auto].
           apply in_or_app. left; assumption.
        -- split; [assumption|]. exists o. split; [|auto].
           apply in_app_or in Hin. destruct Hin as [Hin|[<-|[]]]; [assumption|].
           rewrite Hslot in Hs. apply andb_false_iff in H15.
           destruct H15 as [H15|H15]; apply Nat.leb_gt in H15; lia.
    + destruct (Nat.leb 1 (playerSlot pl) && Nat.leb (playerSlot pl) 5);
        [|exact Hnd].
      unfold addCandidate.
      destruct (existsb (Nat.eqb (playerId pl)) (candidateBatterIds t)) eqn:Hex;
        [exact Hnd|].
      apply NoDup_app; [exact Hnd|repeat constructor; intros []|].
      intros x Hx [<-|[]].
      assert (Ht : existsb (Nat.eqb (playerId pl)) (candidateBatterIds t) = true).
      { apply existsb_exists. exists (playerId pl). split; [assumption|].
        apply Nat.eqb_refl. }
      congruence.
Qed.

Lemma fold_left_Zadd (l : list Z) (a : Z) :
  fold_left Z.add l a = (a + Zsum l)%Z.
Proof.
  revert a. induction l as [|x l IH]; intros a; cbn [fold_left Zsum fold_right].
  - lia.
  - rewrite IH. unfold Zsum. lia.
Qed.

Lemma sumCounts_cons (k : nat) (n : Z) (c : Counts) :
  sumCounts ((k, n) :: c) = (n + sumCounts c)%Z.
Proof.
  unfold sumCounts. cbn [map snd fold_left]. rewrite !fold_left_Zadd. lia.
Qed.

Lemma sumCounts_setCount (c : Counts) (k : nat) (n : Z) :
  sortedKeys c ->
  sumCounts (setCount c k n)
  = (sumCounts c - match countOf c k with Some m => m | None => 0 end + n)%Z.
Proof.
  unfold sortedKeys.
  induction c as [|[k0 m] c IH]; intros Hs; cbn [setCount countOf].
  - rewrite sumCounts_cons. unfold sumCounts. cbn. lia.
  - inversion Hs as [|? ? Hs' Hall]; subst.
    destruct (Nat.eqb_spec k k0) as [->|Hne].
    + rewrite Nat.eqb_refl. rewrite !sumCounts_cons. lia.
    + destruct (Nat.eqb_spec k0 k) as [E|_]; [congruence|].
      destruct (Nat.ltb_spec k k0) as [Hlt|Hge].
      * rewrite countOf_absent.
        -- rewrite !sumCounts_cons. lia.
        -- eapply Forall_impl; [|exact Hall]. cbn. intros a Ha.
           unfold Nat.lt in *. lia.
      * rewrite !sumCounts_cons, IH by assumption. lia.
Qed.

(** The counts of an entry add up to the number of recorded lines. *)
Lemma buildEntry_sum (obs : list Observation) :
  match buildEntry obs with
  | Some entry =>
      sumCounts (counts entry) = Z.of_nat (List.length (filter recorded obs))
      /\ filter recorded obs <> []
  | None => filter recorded obs = []
  end.
Proof.
  induction obs as [|o obs IH] using rev_ind; [reflexivity|].
  rewrite buildEntry_snoc, filter_app. cbn [filter].
  destruct (recorded o) eqn:Hrec.
  - pose proof (entry_inv obs) as Hinv.
    unfold recordSlot. pose proof Hrec as Hrec'. unfold recorded in Hrec'.
    apply negb_true_iff in Hrec'. rewrite Hrec'.
    set (entry := match buildEntry obs with
                  | Some entry => entry | None => emptyEntry end) in *.
    assert (Hsorted : sortedKeys (counts entry)).
    { unfold entry. destruct (buildEntry obs) as [e|]; cbn in Hinv.
      - apply Hinv.
      - constructor. }
    assert (Hsum : sumCounts (counts entry)
                   = Z.of_nat (List.length (filter recorded obs))).
    { unfold entry. destruct (buildEntry obs) as [e|].
      - apply IH.
      - rewrite IH. reflexivity. }
    assert (Hgoal : sumCounts
                      (setCount (counts entry) (obsSlot o)
                         (match countOf (counts entry) (obsSlot o) with
                          | Some n => n | None => 0%Z end + 1))
                    = Z.of_nat (List.length (filter recorded obs ++ [o]))).
    { rewrite sumCounts_setCount by assumption. rewrite length_app. cbn. lia. }
    destruct (noDate (latestGameDate entry)
              || dateGe (obsGameDate o) (latestGameDate entry));
      cbn [counts]; (split; [exact Hgoal|]);
      intros E; apply app_eq_nil in E; destruct E; discriminate.
  - rewrite recordSlot_skip, app_nil_r by assumption. exact IH.
Qed.

Lemma linesOf_linesIn (opp : nat) (games : list OppGame) (pid : nat) :
  linesOf opp games pid = linesIn (readPlayers opp games) pid.
Proof. reflexivity. Qed.

Lemma orders_of_player (opp : nat) (games : list OppGame) (pid : nat) :
  pid <> O ->
  getOrder (ordersByPlayer (collectOrders opp games)) pid
  = buildEntry (linesOf opp games pid).
Proof.
  intros Hpid. rewrite collectOrders_flat, linesOf_linesIn.
  apply (recordLine_inv (readPlayers opp games)). assumption.
Qed.

(** X16: the loop over the boxscores keeps the lines of each player apart.
    For a person id that is not missing, the entry the map [ordersByPlayer]
    holds after the loop is the entry built from the lines of that player
    alone, read in the order of the games: the lines of other players, of
    sides that are not the opponent and of games without a boxscore leave
    it unchanged. *)
Theorem orders_per_player (opponentTeamId : nat) (oppGames : list OppGame)
    (pid : nat) :
  pid <> O ->
  getOrder (ordersByPlayer (collectOrders opponentTeamId oppGames)) pid
  = buildEntry (linesOf opponentTeamId oppGames pid).
Proof. apply orders_of_player. Qed.

Lemma orders_per_player_witness :
  10%nat <> O
  /\ getOrder (ordersByPlayer (collectOrders 7 exampleGames)) 10
     = buildEntry (linesOf 7 exampleGames 10).
Proof.
  split; [discriminate|].
  apply (orders_per_player 7 exampleGames 10). discriminate.
Defined.

(** X17: the candidates are the players who batted first to fifth at least
    once.  A person id is in [candidateBatterIds] after the loop exactly
    when it is not missing and one of the recorded lines of the player
    (a decoded slot, not a pitcher) has a slot from 1 to 5; no id is
    listed twice. *)
Theorem candidates_batted_one_to_five (opponentTeamId : nat)
    (oppGames : list OppGame) :
  NoDup (candidateBatterIds (collectOrders opponentTeamId oppGames))
  /\ forall pid,
       In pid (candidateBatterIds (collectOrders opponentTeamId oppGames))
       <-> pid <> O
           /\ exists o, In o (linesOf opponentTeamId oppGames pid)
                /\ recorded o = true /\ (1 <= obsSlot o <= 5)%nat.
Proof.
  rewrite collectOrders_flat.
  destruct (recordLine_inv (readPlayers opponentTeamId oppGames))
    as (_ & Hcand & Hnd).
  split; [exact Hnd|]. intros pid. rewrite linesOf_linesIn. apply Hcand.
Qed.

Lemma candidate_has_entry (opp : nat) (games : list OppGame) (pid : nat) :
  In pid (candidateBatterIds (collectOrders opp games)) ->
  pid <> O
  /\ exists entry,
       getOrder (ordersByPlayer (collectOrders opp games)) pid = Some entry
       /\ buildEntry (linesOf opp games pid) = Some entry.
Proof.
  intros Hin. rewrite collectOrders_flat in Hin.
  destruct (recordLine_inv (readPlayers opp games)) as (_ & Hcand & _).
  apply Hcand in Hin. destruct Hin as (Hpid & o & Hin & Hrec & _).
  split; [assumption|].
  rewrite (orders_of_player opp games pid Hpid).
  pose proof (entry_inv (linesOf opp games pid)) as Hinv.
  destruct (buildEntry (linesOf opp games pid)) as [e|]; [eauto|].
  cbn in Hinv. rewrite <- linesOf_linesIn in Hin.
  pose proof (occurrences_pos _ o Hin Hrec) as Hp.
  rewrite Hinv in Hp. lia.
Qed.

Lemma projections_keys (m : Orders) (l : list nat) :
  (forall pid, In pid l -> exists entry, getOrder m pid = Some entry) ->
  map fst
    (flat_map (fun pid => match getOrder m pid with
                          | Some entry => [(pid, projectionOf entry)]
                          | None => []
                          end) l)
  = l.
Proof.
  induction l as [|x l IH]; intros H; cbn [flat_map map]; [reflexivity|].
  destruct (H x (or_introl eq_refl)) as (e & ->). cbn [app map fst].
  f_equal. apply IH. intros pid Hpid. apply H. right; assumption.
Qed.

(** X18: every candidate gets a projection, from its own lines.  The map
    [projections] has one entry per candidate, in the order of the
    candidates: the case of a candidate without an entry never occurs.  The
    projected slot of a candidate is the projection of the lines of that
    player, a slot and never null, and [orderSampleSize], the sum of the
    counts, is the number of the recorded lines of the player, at
    least 1. *)
Theorem projections_cover_candidates (opponentTeamId : nat)
    (oppGames : list OppGame) :
  map fst (buildProjections (collectOrders opponentTeamId oppGames))
  = candidateBatterIds (collectOrders opponentTeamId oppGames)
  /\ forall pid p,
       In (pid, p) (buildProjections (collectOrders opponentTeamId oppGames)) ->
       In pid (candidateBatterIds (collectOrders opponentTeamId oppGames))
       /\ projProjectedOrder p = projectSlot (linesOf opponentTeamId oppGames pid)
       /\ (exists s, projProjectedOrder p = Some s /\ (1 <= s)%nat)
       /\ orderSampleSize p
          = Z.of_nat (List.length
                        (filter recorded (linesOf opponentTeamId oppGames pid)))
       /\ (1 <= orderSampleSize p)%Z.
Proof.
  split.
  - unfold buildProjections. apply projections_keys.
    intros pid Hin. apply candidate_has_entry in Hin.
    destruct Hin as (_ & e & He & _). eauto.
  - intros pid p Hin. unfold buildProjections in Hin.
    apply in_flat_map in Hin. destruct Hin as (pid' & Hcand & Hin).
    destruct (candidate_has_entry _ _ _ Hcand) as (Hpid & e & He & Hb).
    rewrite He in Hin. destruct Hin as [E|[]]. inversion E; subst pid' p.
    split; [assumption|].
    assert (Hproj : projProjectedOrder (projectionOf e)
                    = projectSlot (linesOf opponentTeamId oppGames pid)).
    { unfold projectSlot. rewrite Hb. reflexivity. }
    pose proof (buildEntry_sum (linesOf opponentTeamId oppGames pid)) as Hsum.
    rewrite Hb in Hsum. destruct Hsum as [Hsum Hne].
    split; [exact Hproj|]. split; [|split].
    + rewrite Hproj.
      pose proof (projectSlot_spec (linesOf opponentTeamId oppGames pid)) as Hs.
      destruct (projectSlot (linesOf opponentTeamId oppGames pid)) as [s|] eqn:Es.
      * exists s. split; [reflexivity|].
        apply (projectSlot_positive _ _ Es).
      * exfalso. apply Hne.
        pose proof (entry_inv (linesOf opponentTeamId oppGames pid)) as Hinv.
        rewrite Hb in Hinv. cbn in Hinv.
        destruct Hinv as (_ & _ & l & _ & Hl). rewrite Hs in Hl. lia.
    + exact Hsum.
    + change (orderSampleSize (projectionOf e)) with (sumCounts (counts e)).
      rewrite Hsum.
      destruct (filter recorded (linesOf opponentTeamId oppGames pid));
        [congruence|]. cbn [List.length]. lia.
Qed.

(** ** The projector and the order of the lines *)

Lemma ascii_compare_trans (a b c : ascii) (r : comparison) :
  Ascii.compare a b = r -> Ascii.compare b c = r -> Ascii.compare a c = r.
Proof.
  unfold Ascii.compare.
  destruct (N.compare_spec (N_of_ascii a) (N_of_ascii b)) as [E1|L1|G1];
    intros <-;
    destruct (N.compare_spec (N_of_ascii b) (N_of_ascii c)) as [E2|L2|G2];
    try discriminate; intros _.
  - apply N.compare_eq_iff. congruence.
  - apply N.compare_lt_iff. lia.
  - apply N.compare_gt_iff. lia.
Qed.

Lemma ascii_compare_eq (a b : ascii) : Ascii.compare a b = Eq -> a = b.
Proof.
  unfold Ascii.compare. intros H. apply N.compare_eq_iff in H.
  rewrite <- (ascii_N_embedding a), <- (ascii_N_embedding b). congruence.
Qed.

Lemma string_compare_le_trans (s1 : string) :
  forall s2 s3,
    String.compare s1 s2 <> Gt -> String.compare s2 s3 <> Gt ->
    String.compare s1 s3 <> Gt.
Proof.
  induction s1 as [|c1 s1 IH]; intros s2 s3 H12 H23.
  - destruct s3; cbn; discriminate.
  - destruct s2 as [|c2 s2]; [cbn in H12; congruence|].
    destruct s3 as [|c3 s3]; [cbn in H23; congruence|].
    cbn [String.compare] in *.
    destruct (Ascii.compare c1 c2) eqn:E12; [| |congruence].
    + apply ascii_compare_eq in E12. subst c2.
      destruct (Ascii.compare c1 c3); [eauto|discriminate|congruence].
    + destruct (Ascii.compare c2 c3) eqn:E23; [| |congruence].
      * apply ascii_compare_eq in E23. subst c3. rewrite E12. discriminate.
      * rewrite (ascii_compare_trans c1 c2 c3 Lt E12 E23). discriminate.
Qed.

Lemma leb_not_gt (s1 s2 : string) :
  String.leb s1 s2 = true <-> String.compare s1 s2 <> Gt.
Proof.
  unfold String.leb. destruct (String.compare s1 s2); split;
    congruence || discriminate.
Qed.

Lemma leb_trans (s1 s2 s3 : string) :
  String.leb s1 s2 = true -> String.leb s2 s3 = true ->
  String.leb s1 s3 = true.
Proof.
  rewrite !leb_not_gt. apply string_compare_le_trans.
Qed.

Lemma leb_empty (s : string) : String.leb EmptyString s = true.
Proof. destruct s; reflexivity. Qed.

(** After any lines, in any order, the fold holds the latest date. *)
Lemma latest_by_date (obs : list Observation) :
  match buildEntry obs with
  | None => forall o, In o obs -> recorded o = false
  | Some entry =>
      exists o, In o obs /\ recorded o = true
        /\ latestGameDate entry = Some (obsGameDate o)
        /\ latestSlot entry = Some (obsSlot o)
        /\ forall o', In o' obs -> recorded o' = true ->
             String.leb (obsGameDate o') (obsGameDate o) = true
  end.
Proof.
  induction obs as [|o obs IH] using rev_ind.
  - cbn. intros o [].
  - rewrite buildEntry_snoc. destruct (recorded o) eqn:Hrec.
    + unfold recordSlot. pose proof Hrec as Hrec'. unfold recorded in Hrec'.
      apply negb_true_iff in Hrec'. rewrite Hrec'.
      destruct (buildEntry obs) as [entry|].
      * destruct IH as (o0 & Hin0 & Hrec0 & Hd0 & Hs0 & Hmax0).
        rewrite Hd0.
        destruct (noDate (Some (obsGameDate o0))
                  || dateGe (obsGameDate o) (Some (obsGameDate o0))) eqn:Hupd.
        -- exists o. cbn [latestGameDate latestSlot].
           split; [apply in_or_app; right; left; reflexivity|].
           split; [assumption|]. split; [reflexivity|]. split; [reflexivity|].
           assert (Hle : String.leb (obsGameDate o0) (obsGameDate o) = true).
           { apply orb_true_iff in Hupd. destruct Hupd as [Hn|Hg].
             - cbn in Hn. apply String.eqb_eq in Hn. rewrite Hn.
               apply leb_empty.
             - exact Hg. }
           intros o' Hin' Hrec''. apply in_app_or in Hin'.
           destruct Hin' as [Hin'|[<-|[]]].
           ++ eapply leb_trans; [apply Hmax0; assumption|exact Hle].
           ++ destruct (String.leb_total (obsGameDate o) (obsGameDate o));
                assumption.
        -- exists o0. cbn [latestGameDate latestSlot].
           split; [apply in_or_app; left; assumption|].
           split; [assumption|]. split; [reflexivity|]. split; [assumption|].
           apply orb_false_iff in Hupd. destruct Hupd as [_ Hg]. cbn in Hg.
           intros o' Hin' Hrec''. apply in_app_or in Hin'.
           destruct Hin' as [Hin'|[<-|[]]]; [auto|].
           destruct (String.leb_total (obsGameDate o0) (obsGameDate o));
             [congruence|assumption].
      * cbn [emptyEntry latestGameDate noDate orb].
        exists o. cbn [latestGameDate latestSlot].
        split; [apply in_or_app; right; left; reflexivity|].
        split; [assumption|]. split; [reflexivity|]. split; [reflexivity|].
        intros o' Hin' Hrec''. apply in_app_or in Hin'.
        destruct Hin' as [Hin'|[<-|[]]].
        -- rewrite (IH o' Hin') in Hrec''. discriminate.
        -- destruct (String.leb_total (obsGameDate o) (obsGameDate o));
             assumption.
    + rewrite recordSlot_skip by assumption.
      destruct (buildEntry obs) as [entry|].
      * destruct IH as (o0 & Hin0 & Hrec0 & Hd0 & Hs0 & Hmax0).
        exists o0. split; [apply in_or_app; left; assumption|].
        repeat (split; [assumption|]).
        intros o' Hin' Hrec''. apply in_app_or in Hin'.
        destruct Hin' as [Hin'|[<-|[]]]; [auto|congruence].
      * intros o' Hin'. apply in_app_or in Hin'.
        destruct Hin' as [Hin'|[<-|[]]]; [auto|assumption].
Qed.

(** X19: whatever the order in which the games are read, the latest slot of
    the fold is the slot of a recorded line whose date no recorded line
    exceeds, so that the tie-break goes to a slot of the most recent
    game. *)
Theorem latest_slot_has_latest_date (obs : list Observation) (l : nat) :
  latestOf obs = Some l ->
  exists o, In o obs /\ recorded o = true /\ obsSlot o = l
    /\ forall o', In o' obs -> recorded o' = true ->
         String.leb (obsGameDate o') (obsGameDate o) = true.
Proof.
  unfold latestOf. intros H. pose proof (latest_by_date obs) as Hl.
  destruct (buildEntry obs) as [entry|]; [|discriminate].
  destruct Hl as (o & Hin & Hrec & _ & Hs & Hmax).
  exists o. repeat split; auto. congruence.
Qed.

Lemma latest_slot_has_latest_date_witness :
  latestOf obsTieOther = Some 5%nat
  /\ exists o, In o obsTieOther /\ recorded o = true /\ obsSlot o = 5%nat
       /\ forall o', In o' obsTieOther -> recorded o' = true ->
            String.leb (obsGameDate o') (obsGameDate o) = true.
Proof.
  split; [reflexivity|].
  apply (latest_slot_has_latest_date obsTieOther 5). reflexivity.
Defined.

(** ** The counts and the order of the lines *)

Lemma occurrences_perm (s : nat) (obs obs' : list Observation) :
  Permutation obs obs' -> occurrences s obs = occurrences s obs'.
Proof.
  intros H. unfold occurrences. f_equal.
  apply Permutation_length.
  induction H; cbn [filter].
  - constructor.
  - destruct (recorded x && Nat.eqb (obsSlot x) s); [constructor|]; assumption.
  - destruct (recorded y && Nat.eqb (obsSlot y) s),
             (recorded x && Nat.eqb (obsSlot x) s);
      try reflexivity. apply perm_swap.
  - etransitivity; eassumption.
Qed.

Lemma sorted_counts_ext (c : Counts) :
  forall c', sortedKeys c -> sortedKeys c' ->
    (forall s, countOf c s = countOf c' s) -> c = c'.
Proof.
  unfold sortedKeys.
  induction c as [|[k n] c IH]; intros c' Hs Hs' Hext.
  - destruct c' as [|[k' n'] c']; [reflexivity|].
    specialize (Hext k'). cbn in Hext. rewrite Nat.eqb_refl in Hext.
    discriminate.
  - destruct c' as [|[k' n'] c'].
    { specialize (Hext k). cbn in Hext. rewrite Nat.eqb_refl in Hext.
      discriminate. }
    cbn [map fst] in Hs, Hs'.
    inversion Hs as [|? ? Hs1 Hall]; subst.
    inversion Hs' as [|? ? Hs1' Hall']; subst.
    assert (Hk : k = k').
    { destruct (Nat.lt_trichotomy k k') as [Hlt|[E|Hgt]]; [|exact E|].
      - pose proof (Hext k) as H. cbn in H. rewrite Nat.eqb_refl in H.
        destruct (Nat.eqb_spec k' k); [lia|].
        rewrite countOf_absent in H; [discriminate|].
        eapply Forall_impl; [|exact Hall']. cbn. unfold Nat.lt. intros; lia.
      - pose proof (Hext k') as H. cbn in H. rewrite Nat.eqb_refl in H.
        destruct (Nat.eqb_spec k k'); [lia|].
        rewrite countOf_absent in H; [discriminate|].
        eapply Forall_impl; [|exact Hall]. cbn. unfold Nat.lt. intros; lia. }
    subst k'.
    assert (Hn : n = n').
    { pose proof (Hext k) as H. cbn in H. rewrite Nat.eqb_refl in H.
      congruence. }
    subst n'. f_equal. apply IH; [assumption|assumption|].
    intros s. pose proof (Hext s) as H. cbn [countOf] in H.
    destruct (Nat.eqb_spec k s) as [E|Hne]; [|exact H].
    subst s. rewrite !countOf_absent; auto.
Qed.

(** X20: the counts of a player do not depend on the order in which the
    lines are read: two readings of the same lines give the same [counts]
    object, and the same projected slot as soon as they agree on the latest
    slot. *)
Theorem counts_ignore_reading_order (obs obs' : list Observation) :
  Permutation obs obs' ->
  option_map counts (buildEntry obs) = option_map counts (buildEntry obs')
  /\ (latestOf obs = latestOf obs' -> projectSlot obs = projectSlot obs').
Proof.
  intros Hperm.
  pose proof (entry_inv obs) as H1. pose proof (entry_inv obs') as H2.
  assert (Hc : option_map counts (buildEntry obs)
               = option_map counts (buildEntry obs')).
  { destruct (buildEntry obs) as [e|], (buildEntry obs') as [e'|];
      cbn in H1, H2 |- *.
    - f_equal. destruct H1 as (S1 & C1 & _), H2 as (S2 & C2 & _).
      apply sorted_counts_ext; [assumption|assumption|].
      intros s. rewrite C1, C2, (occurrences_perm s obs obs' Hperm).
      reflexivity.
    - destruct H1 as (_ & _ & l & _ & Hl).
      rewrite (occurrences_perm l obs obs' Hperm), H2 in Hl. lia.
    - destruct H2 as (_ & _ & l & _ & Hl).
      rewrite <- (occurrences_perm l obs obs' Hperm), H1 in Hl. lia.
    - reflexivity. }
  split; [exact Hc|].
  unfold latestOf, projectSlot.
  destruct (buildEntry obs) as [e|], (buildEntry obs') as [e'|];
    cbn in Hc; try discriminate; [|reflexivity].
  intros Hl. inversion Hc as [Hcounts]. rewrite Hcounts, Hl. reflexivity.
Qed.

Lemma counts_ignore_reading_order_witness :
  Permutation obsTieOther (rev obsTieOther)
  /\ option_map counts (buildEntry obsTieOther)
     = option_map counts (buildEntry (rev obsTieOther))
  /\ (latestOf obsTieOther = latestOf (rev obsTieOther) ->
      projectSlot obsTieOther = projectSlot (rev obsTieOther)).
Proof.
  split; [apply Permutation_rev|].
  apply (counts_ignore_reading_order obsTieOther (rev obsTieOther)).
  apply Permutation_rev.
Defined.

(** ** Nothing is lost and nothing is invented *)

(** X21: the list of a probable pitcher holds exactly the scored hitters with
    at least one at-bat against the pitcher and a projected slot of at most
    5, each as often as it was scored, and the combined list of [main] holds
    exactly the hitters of those lists with at least 85 season plate
    appearances: the sorts drop and add nothing. *)
Theorem lists_keep_the_qualified :
  (forall pk bundles,
     Permutation (hitters (analyzeProbable pk bundles))
                 (filter eligible (map scoreHitter bundles)))
  /\ (forall pk bundles h,
        In h (hitters (analyzeProbable pk bundles)) <->
        exists b, In b bundles /\ h = scoreHitter b
          /\ nge (toNumber (ab_vs_pitcher b)) 1 = true
          /\ exists s, projectedOrder b = Some s /\ (s <= 5)%nat)
  /\ (forall ngames perProbable,
        Permutation (out_hitters (main ngames perProbable))
                    (filter seasonPAAtLeast85 (allHittersOf perProbable)))
  /\ (forall ngames perProbable h,
        In h (out_hitters (main ngames perProbable)) <->
        exists entry h0, In entry perProbable /\ In h0 (hitters entry)
          /\ h = {| out_hitter := h0; out_gamePk := gamePk entry |}
          /\ seasonPAAtLeast85 h = true).
Proof.
  splits.
  - intros pk bundles. apply jsSort_perm.
  - intros pk bundles h. unfold analyzeProbable, hittersOf. cbn [hitters].
    split.
    + intros Hin. eapply Permutation_in in Hin; [|apply jsSort_perm].
      apply filter_In in Hin. destruct Hin as [Hin Hel].
      apply in_map_iff in Hin. destruct Hin as (b & <- & Hb).
      rewrite eligible_scoreHitter in Hel. apply andb_true_iff in Hel.
      destruct Hel as [Hab Hs]. exists b. splits; auto.
      destruct (projectedOrder b) as [s|]; [|discriminate].
      exists s. split; [reflexivity|]. apply Nat.leb_le. assumption.
    + intros (b & Hb & -> & Hab & s & Hs & Hle).
      eapply Permutation_in; [symmetry; apply jsSort_perm|].
      apply filter_In. split; [apply in_map; assumption|].
      rewrite eligible_scoreHitter, Hab, Hs. apply Nat.leb_le. assumption.
  - intros ngames perProbable. apply jsSort_perm.
  - intros ngames perProbable h. unfold main. cbn [out_hitters].
    fold (allHittersOf perProbable). split.
    + intros Hin. eapply Permutation_in in Hin; [|apply jsSort_perm].
      apply filter_In in Hin. destruct Hin as [Hin Hpa].
      unfold allHittersOf in Hin. apply in_flat_map in Hin.
      destruct Hin as (entry & He & Hin). apply in_map_iff in Hin.
      destruct Hin as (h0 & <- & Hh0). exists entry, h0. auto.
    + intros (entry & h0 & He & Hh0 & -> & Hpa).
      eapply Permutation_in; [symmetry; apply jsSort_perm|].
      apply filter_In. split; [|assumption].
      unfold allHittersOf. apply in_flat_map. exists entry.
      split; [assumption|]. apply in_map_iff. exists h0.
      split; [reflexivity|assumption].
Qed.

(** ** The sorts are stable *)

Lemma insertSorted_keeps_ties {A : Type} (key : A -> num) (k : num) (x : A)
    (l : list A) :
  isFiniteN (key x) = true ->
  (forall a, In a l -> isFiniteN (key a) = true) ->
  filter (fun a => neq (key a) k)
         (insertSorted (fun a b => (key b - key a)%num) x l)
  = filter (fun a => neq (key a) k) (x :: l).
Proof.
  intros Hx Hl. induction l as [|y l IH]; [reflexivity|].
  cbn [insertSorted].
  assert (Hy : isFiniteN (key y) = true) by (apply Hl; left; reflexivity).
  destruct (key x) as [p| | |] eqn:Ex; try discriminate.
  destruct (key y) as [q| | |] eqn:Ey; try discriminate.
  rewrite nsub_fin. unfold ngt, nlt, rlt.
  destruct (Rlt_dec 0 (q - p)) as [Hlt|Hge]; [|reflexivity].
  cbn [filter]. rewrite Ex, Ey in *.
  rewrite IH by (intros a Ha; apply Hl; right; assumption).
  cbn [filter]. rewrite Ex.
  destruct (neq (Fin q) k) eqn:Eq, (neq (Fin p) k) eqn:Ep; try reflexivity.
  exfalso. destruct k as [r| | |]; try discriminate.
  unfold neq, req in Eq, Ep.
  destruct (Req_dec_T q r); [|discriminate].
  destruct (Req_dec_T p r); [|discriminate]. lra.
Qed.

Lemma jsSort_keeps_ties {A : Type} (key : A -> num) (k : num) (l : list A) :
  (forall a, In a l -> isFiniteN (key a) = true) ->
  filter (fun a => neq (key a) k) (jsSort (fun a b => (key b - key a)%num) l)
  = filter (fun a => neq (key a) k) l.
Proof.
  intros Hl. unfold jsSort. induction l as [|x l IH]; [reflexivity|].
  cbn [fold_right]. rewrite insertSorted_keeps_ties.
  - cbn [filter]. rewrite IH by (intros a Ha; apply Hl; right; assumption).
    reflexivity.
  - apply Hl. left; reflexivity.
  - intros a Ha. apply Hl. right.
    eapply Permutation_in; [apply jsSort_perm|exact Ha].
Qed.

(** X22: the two sorts keep ties in place.  The hitters of the combined list
    that share one [wtb_percent] key stand in the order of the games they
    come from, and the hitters of a probable pitcher that share one score
    stand in the order in which they were scored. *)
Theorem sorts_keep_ties_in_place :
  (forall ngames perProbable k,
     filter (fun h => neq (wtbKey h) k) (out_hitters (main ngames perProbable))
     = filter (fun h => neq (wtbKey h) k)
              (filter seasonPAAtLeast85 (allHittersOf perProbable)))
  /\ (forall pk bundles k,
        filter (fun h => neq (score h) k) (hitters (analyzeProbable pk bundles))
        = filter (fun h => neq (score h) k)
                 (filter eligible (map scoreHitter bundles))).
Proof.
  split.
  - intros ngames perProbable k. unfold main. cbn [out_hitters].
    apply (jsSort_keeps_ties wtbKey). intros a _. apply wtbKey_finite.
  - intros pk bundles k. unfold analyzeProbable, hittersOf. cbn [hitters].
    apply (jsSort_keeps_ties score). intros a Ha.
    apply filter_In in Ha. destruct Ha as [Ha _].
    apply in_map_iff in Ha. destruct Ha as (b & <- & _). apply score_finite.
Qed.

(** ** The cards of the page *)

Lemma insertSorted_HdRel {A : Type} (cmp : A -> A -> num) (R : A -> A -> Prop)
    (y x : A) (l : list A) :
  R y x -> HdRel R y l -> HdRel R y (insertSorted cmp x l).
Proof.
  intros Hyx Hd. destruct l as [|z l]; cbn [insertSorted].
  - constructor. assumption.
  - destruct (ngt (cmp x z) 0); constructor; [|assumption].
    inversion Hd; assumption.
Qed.

Lemma insertSorted_sorted_by {A : Type} (cmp : A -> A -> num)
    (R : A -> A -> Prop) (x : A) (l : list A) :
  (forall y, In y l -> ngt (cmp x y) 0 = true -> R y x) ->
  (forall y, In y l -> ngt (cmp x y) 0 = false -> R x y) ->
  Sorted R l -> Sorted R (insertSorted cmp x l).
Proof.
  intros Hafter Hbefore Hs. induction l as [|y l IH]; cbn [insertSorted].
  - repeat constructor.
  - inversion Hs as [|? ? Hs' Hd]; subst.
    destruct (ngt (cmp x y) 0) eqn:E.
    + constructor.
      * apply IH; [| |assumption]; intros z Hz; [apply Hafter|apply Hbefore];
          right; assumption.
      * apply insertSorted_HdRel; [|assumption].
        apply Hafter; [left; reflexivity|assumption].
    + constructor; [assumption|]. constructor.
      apply Hbefore; [left; reflexivity|assumption].
Qed.

Lemma jsSort_sorted_by {A : Type} (cmp : A -> A -> num) (R : A -> A -> Prop)
    (l : list A) :
  (forall x y, ngt (cmp x y) 0 = true -> R y x) ->
  (forall x y, ngt (cmp x y) 0 = false -> R x y) ->
  Sorted R (jsSort cmp l).
Proof.
  intros Hafter Hbefore. unfold jsSort.
  induction l as [|x l IH]; cbn [fold_right]; [constructor|].
  apply insertSorted_sorted_by; auto.
Qed.

Lemma cardKey_low (prop : OutHitter -> value) (h : OutHitter) :
  (exists x, cardKey prop h = Fin x) \/ cardKey prop h = NInf.
Proof.
  unfold cardKey. destruct (prop h) as [[x| | |]|]; cbn; eauto.
Qed.

Lemma low_keys_desc (a b : num) :
  ((exists x, a = Fin x) \/ a = NInf) -> ((exists x, b = Fin x) \/ b = NInf) ->
  (ngt (b - a)%num 0 = true -> nge b a = true)
  /\ (ngt (b - a)%num 0 = false -> nge a b = true).
Proof.
  intros [(x & ->)| ->] [(y & ->)| ->]; cbn; unfold rlt, rle; split; intros H;
    try reflexivity; try discriminate.
  - destruct (Rlt_dec 0 (y + - x)); [|discriminate].
    destruct (Rle_dec x y); [reflexivity|lra].
  - destruct (Rlt_dec 0 (y + - x)); [discriminate|].
    destruct (Rle_dec y x); [reflexivity|lra].
Qed.

Lemma low_keys_asc (a b : num) :
  ((exists x, a = Fin x) \/ a = NInf) -> ((exists x, b = Fin x) \/ b = NInf) ->
  (ngt (a - b)%num 0 = true -> nle b a = true)
  /\ (ngt (a - b)%num 0 = false -> nle a b = true).
Proof.
  intros [(x & ->)| ->] [(y & ->)| ->]; cbn; unfold rlt, rle; split; intros H;
    try reflexivity; try discriminate.
  - destruct (Rlt_dec 0 (x + - y)); [|discriminate].
    destruct (Rle_dec y x); [reflexivity|lra].
  - destruct (Rlt_dec 0 (x + - y)); [discriminate|].
    destruct (Rle_dec x y); [reflexivity|lra].
Qed.

Lemma main_filter_idle (ngames : nat) (perProbable : list GameResult) :
  filter (fun h => nge (nullish (hitter_season_pa (out_hitter h)) 0)
                       (if falsyN 85 then 0 else 85))
         (out_hitters (main ngames perProbable))
  = out_hitters (main ngames perProbable).
Proof.
  assert (H85 : (if falsyN 85 then Fin 0 else Fin 85) = Fin 85).
  { unfold falsyN, req. destruct (Req_dec_T 85 0); [lra|reflexivity]. }
  rewrite H85. apply forallb_filter_id. apply forallb_forall.
  intros h Hin. unfold main in Hin. cbn [out_hitters] in Hin.
  eapply Permutation_in in Hin; [|apply jsSort_perm].
  apply filter_In in Hin. apply Hin.
Qed.

(** X23: the page shows the hitters of the document in the order of the
    chosen key.  [renderCards] keeps the hitters with at least [minPa]
    season plate appearances and orders them by the chosen property, a
    property that is not a finite number counting as minus infinity: in
    descending order for the direction ["desc"], in ascending order for any
    other.  On the document [main] writes the filter for 85 plate
    appearances drops nobody, so that the cards are the hitters of the
    document, reordered. *)
Theorem renderCards_orders_the_document :
  (forall raw minPa prop,
     descendingBy (cardKey prop) (renderCards raw minPa prop "desc"))
  /\ (forall raw minPa prop dir, String.eqb dir "desc" = false ->
        ascendingBy (cardKey prop) (renderCards raw minPa prop dir))
  /\ (forall raw minPa prop dir h,
        In h (renderCards raw minPa prop dir) <->
        In h raw
        /\ nge (nullish (hitter_season_pa (out_hitter h)) 0)
               (if falsyN minPa then 0 else minPa) = true)
  /\ (forall ngames perProbable prop dir,
        Permutation
          (renderCards (out_hitters (main ngames perProbable)) 85 prop dir)
          (out_hitters (main ngames perProbable))).
Proof.
  splits.
  - intros raw minPa prop. unfold renderCards, descendingBy.
    cbn [String.eqb Ascii.eqb Bool.eqb]. cbv zeta.
    apply jsSort_sorted_by; intros x y H.
    + apply (low_keys_desc (cardKey prop x) (cardKey prop y));
        auto using cardKey_low.
    + apply (low_keys_desc (cardKey prop x) (cardKey prop y));
        auto using cardKey_low.
  - intros raw minPa prop dir Hdir. unfold renderCards, ascendingBy.
    rewrite Hdir. cbv zeta.
    apply jsSort_sorted_by; intros x y H.
    + apply (low_keys_asc (cardKey prop x) (cardKey prop y));
        auto using cardKey_low.
    + apply (low_keys_asc (cardKey prop x) (cardKey prop y));
        auto using cardKey_low.
  - intros raw minPa prop dir h. unfold renderCards. split.
    + intros Hin. eapply Permutation_in in Hin; [|apply jsSort_perm].
      apply filter_In in Hin. exact Hin.
    + intros Hin. eapply Permutation_in; [symmetry; apply jsSort_perm|].
      apply filter_In. exact Hin.
  - intros ngames perProbable prop dir. unfold renderCards.
    rewrite main_filter_idle. apply jsSort_perm.
Qed.

(** ** Dates as strings *)

Lemma digitsOf_last (fuel : nat) (n : Z) (acc : string) :
  (0 <= n < 10)%Z ->
  digitsOf (S fuel) n acc = String (digitChar n) acc.
Proof.
  intros H. cbn [digitsOf]. rewrite Z.div_small, Z.mod_small by assumption.
  reflexivity.
Qed.

Lemma digitsOf_step (fuel : nat) (n : Z) (acc : string) :
  (10 <= n)%Z ->
  digitsOf (S fuel) n acc
  = digitsOf fuel (n / 10) (String (digitChar (n mod 10)) acc).
Proof.
  intros H. cbn [digitsOf].
  destruct (Z.eqb_spec (n / 10) 0) as [E|E]; [|reflexivity].
  apply Z.div_small_iff in E; lia.
Qed.

Lemma intToString_1 (n : Z) :
  (0 <= n < 10)%Z -> intToString n = String (digitChar n) EmptyString.
Proof.
  intros H. unfold intToString. destruct (Z.ltb_spec n 0); [lia|].
  apply digitsOf_last. assumption.
Qed.

Lemma div10_bounds (n lo hi : Z) :
  (10 * lo <= n < 10 * hi)%Z -> (lo <= n / 10 < hi)%Z.
Proof.
  intros H. split.
  - apply Z.div_le_lower_bound; lia.
  - apply Z.div_lt_upper_bound; lia.
Qed.

Lemma intToString_2 (n : Z) :
  (10 <= n < 100)%Z ->
  intToString n
  = String (digitChar (n / 10)) (String (digitChar (n mod 10)) EmptyString).
Proof.
  intros H. unfold intToString. destruct (Z.ltb_spec n 0); [lia|].
  rewrite digitsOf_step by lia.
  pose proof (div10_bounds n 1 10 ltac:(lia)) as H1.
  destruct (Z.to_nat n) as [|k] eqn:E; [lia|].
  apply digitsOf_last. lia.
Qed.

Lemma intToString_4 (n : Z) :
  (1000 <= n < 10000)%Z ->
  intToString n
  = String (digitChar (n / 1000))
      (String (digitChar (n / 100 mod 10))
         (String (digitChar (n / 10 mod 10))
            (String (digitChar (n mod 10)) EmptyString))).
Proof.
  intros H. unfold intToString. destruct (Z.ltb_spec n 0); [lia|].
  pose proof (div10_bounds n 100 1000 ltac:(lia)) as H1.
  pose proof (div10_bounds (n / 10) 10 100 ltac:(lia)) as H2.
  pose proof (div10_bounds (n / 10 / 10) 1 10 ltac:(lia)) as H3.
  destruct (Z.to_nat n) as [|[|[|k]]] eqn:E; try lia.
  rewrite digitsOf_step by lia. rewrite digitsOf_step by lia.
  rewrite digitsOf_step by lia. rewrite digitsOf_last by lia.
  rewrite !Z.div_div by lia. reflexivity.
Qed.

Lemma pad_two (n : Z) :
  (0 <= n < 100)%Z ->
  pad n = String (digitChar (n / 10)) (String (digitChar (n mod 10)) EmptyString).
Proof.
  intros H. unfold pad. destruct (Z.lt_ge_cases n 10) as [Hlt|Hge].
  - rewrite intToString_1 by lia. cbn [padStart2 String.length].
    rewrite Z.div_small, Z.mod_small by lia. reflexivity.
  - rewrite intToString_2 by lia. reflexivity.
Qed.

Lemma digitChar_compare (a b : Z) :
  (0 <= a < 10)%Z -> (0 <= b < 10)%Z ->
  Ascii.compare (digitChar a) (digitChar b) = Z.compare a b.
Proof.
  intros Ha Hb. unfold Ascii.compare, digitChar.
  rewrite !N_ascii_embedding by lia.
  rewrite Z2N.inj_compare by lia.
  apply Z.add_compare_mono_l.
Qed.

Lemma ascii_compare_refl (c : ascii) : Ascii.compare c c = Eq.
Proof. unfold Ascii.compare. apply N.compare_refl. Qed.

(** Two digits compare as the number they write. *)
Lemma two_digits_compare (a b : Z) (s t : string) :
  (0 <= a < 100)%Z -> (0 <= b < 100)%Z ->
  String.compare
    (String (digitChar (a / 10)) (String (digitChar (a mod 10)) s))
    (String (digitChar (b / 10)) (String (digitChar (b mod 10)) t))
  = match Z.compare a b with
    | Eq => String.compare s t
    | c => c
    end.
Proof.
  intros Ha Hb.
  pose proof (div10_bounds a 0 10 ltac:(lia)) as Da.
  pose proof (div10_bounds b 0 10 ltac:(lia)) as Db.
  pose proof (Z.mod_pos_bound a 10 ltac:(lia)) as Ma.
  pose proof (Z.mod_pos_bound b 10 ltac:(lia)) as Mb.
  pose proof (Z.div_mod a 10 ltac:(lia)) as Ea.
  pose proof (Z.div_mod b 10 ltac:(lia)) as Eb.
  cbn [String.compare]. rewrite !digitChar_compare by lia.
  destruct (Z.compare_spec (a / 10) (b / 10)) as [E1|L1|G1].
  - destruct (Z.compare_spec (a mod 10) (b mod 10)) as [E2|L2|G2].
    + replace (a ?= b)%Z with Eq; [reflexivity|].
      symmetry. apply Z.compare_eq_iff. lia.
    + replace (a ?= b)%Z with Lt; [reflexivity|].
      symmetry. apply Z.compare_lt_iff. lia.
    + replace (a ?= b)%Z with Gt; [reflexivity|].
      symmetry. apply Z.compare_gt_iff. lia.
  - replace (a ?= b)%Z with Lt; [reflexivity|].
    symmetry. apply Z.compare_lt_iff. lia.
  - replace (a ?= b)%Z with Gt; [reflexivity|].
    symmetry. apply Z.compare_gt_iff. lia.
Qed.

Lemma fmtYMD_shape (y m d : Z) :
  (1000 <= y < 10000)%Z -> (0 <= m < 100)%Z -> (0 <= d < 100)%Z ->
  fmtYMD y m d
  = String (digitChar (y / 100 / 10))
      (String (digitChar (y / 100 mod 10))
         (String (digitChar (y mod 100 / 10))
            (String (digitChar (y mod 100 mod 10))
               (String "-"%char
                  (String (digitChar (m / 10))
                     (String (digitChar (m mod 10))
                        (String "-"%char
                           (String (digitChar (d / 10))
                              (String (digitChar (d mod 10))
                                 EmptyString))))))))).
Proof.
  intros Hy Hm Hd. unfold fmtYMD.
  rewrite intToString_4, !pad_two by assumption. cbn [String.append].
  pose proof (Z.div_mod y 100 ltac:(lia)) as Ey.
  pose proof (Z.mod_pos_bound y 100 ltac:(lia)) as My.
  replace (y / 1000)%Z with (y / 100 / 10)%Z by (rewrite Z.div_div by lia; reflexivity).
  assert (E1 : (y / 10 mod 10 = y mod 100 / 10)%Z).
  { pose proof (Z.div_mod (y mod 100) 10 ltac:(lia)).
    pose proof (Z.mod_pos_bound (y mod 100) 10 ltac:(lia)).
    pose proof (Z.div_mod y 10 ltac:(lia)).
    pose proof (Z.mod_pos_bound y 10 ltac:(lia)).
    pose proof (Z.div_mod (y / 10) 10 ltac:(lia)).
    pose proof (Z.mod_pos_bound (y / 10) 10 ltac:(lia)).
    pose proof (Z.div_div y 10 10 ltac:(lia) ltac:(lia)) as Hdd.
    change (10 * 10)%Z with 100%Z in Hdd. lia. }
  assert (E2 : (y mod 10 = y mod 100 mod 10)%Z).
  { pose proof (Z.div_mod (y mod 100) 10 ltac:(lia)).
    pose proof (Z.mod_pos_bound (y mod 100) 10 ltac:(lia)).
    pose proof (Z.div_mod y 10 ltac:(lia)).
    pose proof (Z.mod_pos_bound y 10 ltac:(lia)).
    pose proof (Z.div_mod (y / 10) 10 ltac:(lia)).
    pose proof (Z.mod_pos_bound (y / 10) 10 ltac:(lia)).
    pose proof (Z.div_div y 10 10 ltac:(lia) ltac:(lia)) as Hdd.
    change (10 * 10)%Z with 100%Z in Hdd. lia. }
  rewrite E1, E2. reflexivity.
Qed.

Lemma fmtYMD_compare (y m d y' m' d' : Z) :
  (1000 <= y < 10000)%Z -> (0 <= m < 100)%Z -> (0 <= d < 100)%Z ->
  (1000 <= y' < 10000)%Z -> (0 <= m' < 100)%Z -> (0 <= d' < 100)%Z ->
  String.compare (fmtYMD y m d) (fmtYMD y' m' d')
  = match Z.compare y y' with
    | Eq => match Z.compare m m' with
            | Eq => Z.compare d d'
            | c => c
            end
    | c => c
    end.
Proof.
  intros Hy Hm Hd Hy' Hm' Hd'. rewrite !fmtYMD_shape by assumption.
  pose proof (Z.div_mod y 100 ltac:(lia)) as Ey.
  pose proof (Z.mod_pos_bound y 100 ltac:(lia)) as My.
  pose proof (Z.div_mod y' 100 ltac:(lia)) as Ey'.
  pose proof (Z.mod_pos_bound y' 100 ltac:(lia)) as My'.
  assert (Dy : (10 <= y / 100 < 100)%Z).
  { split; [apply Z.div_le_lower_bound; lia|apply Z.div_lt_upper_bound; lia]. }
  assert (Dy' : (10 <= y' / 100 < 100)%Z).
  { split; [apply Z.div_le_lower_bound; lia|apply Z.div_lt_upper_bound; lia]. }
  rewrite two_digits_compare by lia.
  rewrite two_digits_compare by lia.
  assert (Hsep : forall s t, String.compare (String "-"%char s) (String "-"%char t)
                             = String.compare s t).
  { intros s t. cbn [String.compare]. rewrite ascii_compare_refl. reflexivity. }
  rewrite Hsep, two_digits_compare by lia.
  rewrite Hsep, two_digits_compare by lia.
  cbn [String.compare].
  destruct (Z.compare_spec (y / 100) (y' / 100)) as [E1|L1|G1].
  - destruct (Z.compare_spec (y mod 100) (y' mod 100)) as [E2|L2|G2].
    + replace (y ?= y')%Z with Eq by (symmetry; apply Z.compare_eq_iff; lia).
      destruct (m ?= m')%Z; [|reflexivity|reflexivity].
      destruct (d ?= d')%Z; reflexivity.
    + replace (y ?= y')%Z with Lt by (symmetry; apply Z.compare_lt_iff; lia).
      reflexivity.
    + replace (y ?= y')%Z with Gt by (symmetry; apply Z.compare_gt_iff; lia).
      reflexivity.
  - replace (y ?= y')%Z with Lt by (symmetry; apply Z.compare_lt_iff; lia).
    reflexivity.
  - replace (y ?= y')%Z with Gt by (symmetry; apply Z.compare_gt_iff; lia).
    reflexivity.
Qed.

(** X24: the dates the program writes order as the calendar does.  For a
    year of four digits and a month and a day from 0 to 99, [fmtYMD] and
    [fmtUSDate] write ten characters, [fmtDate] writes a [Date] as [fmtYMD]
    writes its year, month and day, and of two such dates the string of the
    first is at most the string of the second, in the order in which [>=]
    compares strings, exactly when the first date is not after the
    second. *)
Theorem fmtYMD_orders_as_the_calendar (y m d y' m' d' : Z) :
  (1000 <= y < 10000)%Z -> (0 <= m < 100)%Z -> (0 <= d < 100)%Z ->
  (1000 <= y' < 10000)%Z -> (0 <= m' < 100)%Z -> (0 <= d' < 100)%Z ->
  String.length (fmtYMD y m d) = 10%nat
  /\ String.length (fmtUSDate y m d) = 10%nat
  /\ fmtDate {| fullYear := y; monthIndex := m - 1; dayOfMonth := d |}
     = fmtYMD y m d
  /\ (String.leb (fmtYMD y m d) (fmtYMD y' m' d') = true
      <-> dateLe y m d y' m' d').
Proof.
  intros Hy Hm Hd Hy' Hm' Hd'. split; [|split; [|split]].
  - rewrite fmtYMD_shape by assumption. reflexivity.
  - unfold fmtUSDate. rewrite intToString_4, !pad_two by assumption.
    reflexivity.
  - unfold fmtDate, fmtYMD. cbn [fullYear monthIndex dayOfMonth].
    replace (m - 1 + 1)%Z with m by lia. reflexivity.
  - unfold String.leb, dateLe. rewrite fmtYMD_compare by assumption.
    destruct (Z.compare_spec y y') as [E1|L1|G1].
    + destruct (Z.compare_spec m m') as [E2|L2|G2].
      * destruct (Z.compare_spec d d') as [E3|L3|G3];
          split; intros H; try lia; try reflexivity; try discriminate.
      * split; intros _; [lia|reflexivity].
      * split; intros H; [discriminate|lia].
    + split; intros _; [lia|reflexivity].
    + split; intros H; [discriminate|lia].
Qed.

Lemma fmtYMD_orders_as_the_calendar_witness :
  ((1000 <= 2024 < 10000)%Z /\ (0 <= 5 < 100)%Z /\ (0 <= 25 < 100)%Z
   /\ (1000 <= 2024 < 10000)%Z /\ (0 <= 6 < 100)%Z /\ (0 <= 1 < 100)%Z)
  /\ String.length (fmtYMD 2024 5 25) = 10%nat
  /\ String.length (fmtUSDate 2024 5 25) = 10%nat
  /\ fmtDate {| fullYear := 2024; monthIndex := 5 - 1; dayOfMonth := 25 |}
     = fmtYMD 2024 5 25
  /\ (String.leb (fmtYMD 2024 5 25) (fmtYMD 2024 6 1) = true
      <-> dateLe 2024 5 25 2024 6 1).
Proof.
  split; [lia|].
  apply (fmtYMD_orders_as_the_calendar 2024 5 25 2024 6 1); lia.
Defined.

(** ** Reading an OPS *)

Lemma opsHand_split (b : SignalBundle) :
  exists base w : R,
    0 <= w
    /\ forall v,
         contributionSum (compOf (withOpsVsPitcherHand v b))
         = base + finPart (normOPS v * Fin w)%num.
Proof.
  destruct (weightsOf_value b) as (h & l & Hh & Hl & _ & _ & Hw).
  destruct (scale_pos h l Hh Hl) as [Hpos _].
  set (sc := (0.65 - h) / (0.25 + l)) in *.
  assert (Hwv : forall v, weightsOf (withOpsVsPitcherHand v b) = weightsOf b).
  { intros v. unfold weightsOf, h2hDynamic, last7Dynamic.
    cbn [withOpsVsPitcherHand ab_vs_pitcher ops_vs_pitcher paLast7 opsLast7].
    reflexivity. }
  eexists. exists (0.15 * sc). split; [nra|]. intros v.
  unfold compOf. rewrite Hwv, Hw.
  cbn [w_wtb w_h9_side w_h9_28 w_ops_hand w_ops_site w_last7 w_opp w_h2h].
  unfold oppShareOf.
  cbn [withOpsVsPitcherHand projectedOrder opponentIsHome wtb season_pa
       opsHomeAwayForGame opsVsPitcherHand opsLast7 paLast7
       pitcherH9VsBatterSide hitsPer9Inn_last_28_days w_opp].
  unfold contributionSum. cbn [map snd Rsum fold_right].
  fold sc.
  match goal with
  | |- ?a + (?b + (?c + (?d + ?e))) = _ + ?d =>
      instantiate (1 := a + b + c + e); lra
  end.
Qed.

(** X25: an OPS against the hand of the pitcher that does not read as a
    number is rated as the worst, not as unknown.  A string that [Number]
    reads as [NaN] is kept as [NaN] and not as [null], [normOPS] turns it
    into [NaN], and the sum of the contributions counts it as 0: with such
    an OPS against the hand of the pitcher a hitter scores what the same
    hitter scores with an OPS of 0.40 or less there, and never more than
    with no OPS against the hand at all, which counts as the neutral 0.5. *)
Theorem unreadable_ops_counts_as_worst (stringToNumber : string -> num)
    (s : string) (b : SignalBundle) :
  stringToNumber s = NaN ->
  readOps stringToNumber (JStr s) = Some NaN
  /\ normOPS (readOps stringToNumber (JStr s)) = NaN
  /\ (forall x : R, x <= 0.40 ->
        score (scoreHitter
                 (withOpsVsPitcherHand (readOps stringToNumber (JStr s)) b))
        = score (scoreHitter (withOpsVsPitcherHand (Some (Fin x)) b)))
  /\ nle (score (scoreHitter
                   (withOpsVsPitcherHand (readOps stringToNumber (JStr s)) b)))
         (score (scoreHitter (withOpsVsPitcherHand None b))) = true.
Proof.
  intros Hs. cbn [readOps]. rewrite Hs.
  destruct (opsHand_split b) as (base & w & Hw & Hsum).
  assert (Hscore : forall v,
            score (scoreHitter (withOpsVsPitcherHand v b))
            = Fin (IZR (scoreOfSum (base + finPart (normOPS v * Fin w)%num)))).
  { intros v. unfold scoreHitter. cbn [score]. rewrite scaledScoreOf_value.
    fold (contributionSum (compOf (withOpsVsPitcherHand v b))).
    rewrite Hsum. reflexivity. }
  split; [reflexivity|]. split; [reflexivity|]. split.
  - intros x Hx. rewrite !Hscore.
    replace (normOPS (Some (Fin x))) with (Fin 0).
    + replace (normOPS (Some NaN)) with NaN by reflexivity.
      change (finPart (NaN * Fin w)%num) with 0.
      rewrite nmul_fin. cbn [finPart]. do 3 f_equal. lra.
    + rewrite normOPS_fin. f_equal. unfold Rmin, Rmax. rdec.
  - rewrite !Hscore. apply nle_fin. apply IZR_le.
    replace (normOPS (Some NaN)) with NaN by reflexivity.
    change (finPart (NaN * Fin w)%num) with 0. cbn [normOPS].
    rewrite nmul_fin. cbn [finPart].
    unfold scoreOfSum.
    pose proof (Rclamp_mono (base + 0) (base + 0.5 * w) 0 1 ltac:(lra)) as Hm.
    pose proof (round_half_up_mono _ _
                  (Rmult_le_compat_r 100 _ _ ltac:(lra) Hm)).
    lia.
Qed.

Lemma unreadable_ops_counts_as_worst_witness :
  decimalReading ".---" = NaN
  /\ readOps decimalReading (JStr ".---") = Some NaN
  /\ normOPS (readOps decimalReading (JStr ".---")) = NaN
  /\ (forall x : R, x <= 0.40 ->
        score (scoreHitter
                 (withOpsVsPitcherHand
                    (readOps decimalReading (JStr ".---")) bundleA))
        = score (scoreHitter (withOpsVsPitcherHand (Some (Fin x)) bundleA)))
  /\ nle (score (scoreHitter
                   (withOpsVsPitcherHand
                      (readOps decimalReading (JStr ".---")) bundleA)))
         (score (scoreHitter (withOpsVsPitcherHand None bundleA))) = true.
Proof.
  split; [reflexivity|].
  apply (unreadable_ops_counts_as_worst decimalReading ".---" bundleA).
  reflexivity.
Defined.

(** ** The table of projected plate appearances *)

(** X26: [projectedPAFor] answers for the slots 1 to 5 and for no other: it
    is null for a missing slot and for a slot outside 1 to 5.  Where it
    answers, the value lies between 4.10 and 4.69, a hitter on the road is
    projected more plate appearances than a hitter at home in the same
    slot, and a later slot is never projected more than an earlier one. *)
Theorem projectedPAFor_top_five :
  (forall isHome, projectedPAFor None isHome = None)
  /\ (forall (s : nat) isHome, (s < 1 \/ 5 < s)%nat ->
        projectedPAFor (Some s) isHome = None)
  /\ (forall (s : nat) isHome, (1 <= s <= 5)%nat ->
        exists pa, projectedPAFor (Some s) isHome = Some (Fin pa)
          /\ 4.10 <= pa <= 4.69)
  /\ (forall (s : nat) (h a : R),
        projectedPAFor (Some s) true = Some (Fin h) ->
        projectedPAFor (Some s) false = Some (Fin a) -> h < a)
  /\ (forall (s s' : nat) isHome (p p' : R), (s <= s')%nat ->
        projectedPAFor (Some s) isHome = Some (Fin p) ->
        projectedPAFor (Some s') isHome = Some (Fin p') -> p' <= p).
Proof.
  splits.
  - reflexivity.
  - intros s isHome Hs. unfold projectedPAFor.
    destruct isHome; do 6 (destruct s as [|s]; [first [lia|reflexivity]|]);
      reflexivity.
  - intros s isHome Hs. unfold projectedPAFor.
    destruct (table_range isHome s Hs) as (pa & -> & Hb). eauto.
  - intros s h a. unfold projectedPAFor.
    do 6 (destruct s as [|s];
          [cbn; intros Hh Ha; first [discriminate|inversion Hh; inversion Ha; lra]|]).
    cbn. discriminate.
  - intros s s' isHome p p' Hle. unfold projectedPAFor.
    destruct isHome;
      do 6 (destruct s as [|s];
            [do 6 (destruct s' as [|s'];
                   [cbn; intros Hp Hp';
                    first [discriminate|lia|inversion Hp; inversion Hp'; lra]|]);
             cbn; discriminate|]);
      cbn; discriminate.
Qed.

(** ** The rate of the document *)

Lemma toFixed3_nonneg (x : R) :
  0 <= x -> toFixed3 (Fin x) = Fin (IZR (round_half_up (x * 1000)) / 1000).
Proof.
  intros H. unfold toFixed3. destruct (Rlt_dec x 0); [lra|reflexivity].
Qed.

(** X27: the rate of the document is the computed rate to three decimals.
    For a hitter with a rate that is a number not below 0,
    [wtb_percent] is a whole number of thousandths within 0.0005 of the
    rate, and of two such hitters the one with the higher rate does not get
    the lower [wtb_percent]; a hitter without a rate has none. *)
Theorem wtb_percent_three_decimals :
  (forall b, wtb b = None -> wtb_percent (scoreHitter b) = None)
  /\ (forall b (x : R), wtb b = Some (Fin x) -> 0 <= x ->
        exists n : Z,
          wtb_percent (scoreHitter b) = Some (Fin (IZR n / 1000))
          /\ (0 <= n)%Z
          /\ - (1 / 2000) <= IZR n / 1000 - x <= 1 / 2000)
  /\ (forall b1 b2 (x1 x2 : R),
        wtb b1 = Some (Fin x1) -> wtb b2 = Some (Fin x2) ->
        0 <= x1 -> x1 <= x2 ->
        exists y1 y2,
          wtb_percent (scoreHitter b1) = Some (Fin y1)
          /\ wtb_percent (scoreHitter b2) = Some (Fin y2) /\ y1 <= y2).
Proof.
  splits.
  - intros b H. unfold scoreHitter. cbn [wtb_percent]. rewrite H. reflexivity.
  - intros b x H Hx. unfold scoreHitter. cbn [wtb_percent]. rewrite H.
    rewrite toFixed3_nonneg by assumption.
    exists (round_half_up (x * 1000)). split; [reflexivity|].
    split; [apply round_half_up_nonneg; lra|].
    pose proof (round_half_up_le (x * 1000)).
    pose proof (round_half_up_gt (x * 1000)). lra.
  - intros b1 b2 x1 x2 H1 H2 Hx Hle. unfold scoreHitter. cbn [wtb_percent].
    rewrite H1, H2. rewrite !toFixed3_nonneg by lra.
    do 2 eexists. split; [reflexivity|]. split; [reflexivity|].
    pose proof (round_half_up_mono (x1 * 1000) (x2 * 1000) ltac:(lra)) as Hm.
    apply IZR_le in Hm. lra.
Qed.
